(** * SQL_Agent: the query-translation-and-presentation pipeline of [index.js]

  A shallow embedding of the backend's request handler and of the helper
  functions it declares: [convertBigIntToString],
  [modifySqlQueryForCharting], [shouldGenerateChart],
  [transformDataForChart] and the [POST /api/query] handler itself, and
  of the schema introspector [getTableAndColumnNames] with the
  [GET /api/tables] handler.

  Conventions of the embedding.
  - A JavaScript string is a sequence of UTF-16 code units.  The
    development covers the code units below 256 (Latin-1), for which a
    Rocq [ascii] is exactly one code unit; [String.prototype.toLowerCase],
    [trim] and the regular-expression classes [\s] and [.] are given with
    their ECMAScript meaning on that range.
  - A JavaScript number is an IEEE binary64 value: a primitive [float].
  - A BigInt is an integer of arbitrary size: a [Z].
  - An exception is an explicit [Throw] completion.
  - The database and the language model are a [world] of outcomes, and
    every call to them is recorded in a trace. *)

From Stdlib Require Import String Ascii List ZArith NArith Bool Lia.
From Stdlib Require Import PrimFloat Uint63 DecimalString.
Import ListNotations.
Local Open Scope string_scope.

(** ** Strings *)

Module JsString.

Definition code (c : ascii) : N := N_of_ascii c.

Definition inRange (lo hi : N) (c : ascii) : bool :=
  (N.leb lo (code c) && N.leb (code c) hi)%bool.

(** LineTerminator :: LF | CR | LS | PS; only LF and CR are below 256. *)
Definition isLineTerminator (c : ascii) : bool :=
  (N.eqb (code c) 10 || N.eqb (code c) 13)%bool.

(** WhiteSpace and LineTerminator together: what [\s] matches and what
    [trim] strips.  Below 256: TAB, LF, VT, FF, CR, SP, NBSP. *)
Definition isSpace (c : ascii) : bool :=
  (inRange 9 13 c || N.eqb (code c) 32 || N.eqb (code c) 160)%bool.

(** What [.] matches without the [s] flag. *)
Definition isDot (c : ascii) : bool := negb (isLineTerminator c).

(** Unicode simple lower-case mapping on Latin-1: A-Z, and the accented
    capitals U+00C0-U+00DE except the multiplication sign U+00D7. *)
Definition lowerChar (c : ascii) : ascii :=
  if (inRange 65 90 c || inRange 192 214 c || inRange 216 222 c)%bool
  then ascii_of_N (code c + 32) else c.

Fixpoint toLowerCase (s : string) : string :=
  match s with
  | EmptyString => EmptyString
  | String c s' => String (lowerChar c) (toLowerCase s')
  end.

(** [toUpperCase] leaves Latin-1 at three characters: sharp s becomes
    "SS", y-diaeresis becomes U+0178 and the micro sign U+039C.  The
    result is therefore a sequence of code units. *)
Definition upperChar (c : ascii) : list N :=
  if (inRange 97 122 c || inRange 224 246 c || inRange 248 254 c)%bool
  then [(code c - 32)%N]
  else if N.eqb (code c) 223 then [83%N; 83%N]
  else if N.eqb (code c) 255 then [376%N]
  else if N.eqb (code c) 181 then [924%N]
  else [code c].

Fixpoint toUpperCase (s : string) : list N :=
  match s with
  | EmptyString => []
  | String c s' => upperChar c ++ toUpperCase s'
  end.

Fixpoint codeUnits (s : string) : list N :=
  match s with
  | EmptyString => []
  | String c s' => code c :: codeUnits s'
  end.

Fixpoint trimStart (s : string) : string :=
  match s with
  | EmptyString => EmptyString
  | String c s' => if isSpace c then trimStart s' else s
  end.

Fixpoint trimEnd (s : string) : string :=
  match s with
  | EmptyString => EmptyString
  | String c s' =>
      match trimEnd s' with
      | EmptyString => if isSpace c then EmptyString else String c EmptyString
      | t => String c t
      end
  end.

Definition trim (s : string) : string := trimEnd (trimStart s).

(** [dropPrefix p s] is [Some r] when [s = p ++ r]. *)
Fixpoint dropPrefix (p s : string) : option string :=
  match p with
  | EmptyString => Some s
  | String a p' =>
      match s with
      | EmptyString => None
      | String b s' => if Ascii.eqb a b then dropPrefix p' s' else None
      end
  end.

(** The first occurrence of [p] in [s]: the text before it and the text
    after it ([String.prototype.indexOf], with both sides kept). *)
Fixpoint splitFirst (p s : string) : option (string * string) :=
  match dropPrefix p s with
  | Some r => Some (EmptyString, r)
  | None =>
      match s with
      | EmptyString => None
      | String c s' =>
          match splitFirst p s' with
          | Some (l, r) => Some (String c l, r)
          | None => None
          end
      end
  end.

(** [s.includes(p)] *)
Definition includes (s p : string) : bool :=
  match splitFirst p s with Some _ => true | None => false end.

(** ToBoolean on a string. *)
Definition nonEmpty (s : string) : bool :=
  match s with EmptyString => false | _ => true end.

(** GetSubstitution for a string pattern (no capture groups, no named
    groups): [$$], [$&], [$`] and [$'] are replaced, every other
    character, a [$] before a digit or [<] included, is copied. *)
Fixpoint getSubstitution (matched before after template : string) : string :=
  match template with
  | EmptyString => EmptyString
  | String "$" (String "$" t) =>
      String "$" (getSubstitution matched before after t)
  | String "$" (String "&" t) =>
      matched ++ getSubstitution matched before after t
  | String "$" (String "`" t) =>
      before ++ getSubstitution matched before after t
  | String "$" (String "'" t) =>
      after ++ getSubstitution matched before after t
  | String c t => String c (getSubstitution matched before after t)
  end.

(** [s.replace(pattern, replacement)] with a string pattern: the first
    occurrence only. *)
Definition replace (s pattern replacement : string) : string :=
  match splitFirst pattern s with
  | Some (before, after) =>
      before ++ getSubstitution pattern before after replacement ++ after
  | None => s
  end.

(** [s.replace(/pattern/g, '')] for a non-empty pattern without
    meta-characters: every occurrence, left to right, is dropped.  [skip]
    counts the characters of the current occurrence still to drop. *)
Fixpoint removeAllAux (pattern : string) (skip : nat) (s : string) : string :=
  match s with
  | EmptyString => EmptyString
  | String c s' =>
      match skip with
      | S k => removeAllAux pattern k s'
      | O =>
          match dropPrefix pattern s with
          | Some _ => removeAllAux pattern (String.length pattern - 1) s'
          | None => String c (removeAllAux pattern 0 s')
          end
      end
  end.

Definition removeAll (pattern s : string) : string := removeAllAux pattern 0 s.

End JsString.

(** ** Regular expressions

  The backtracking matcher of ECMAScript (a pattern is compiled to a
  function that takes the rest of the input and a continuation), for the
  constructs that occur in the three patterns of [index.js]: literal
  text, [$], a one-character class, its greedy and lazy repetition,
  sequence, alternation and capture groups. *)

Module Regex.
Import JsString.

Inductive regex : Type :=
| Lit (s : string)
| Eos
| Class (f : ascii -> bool)
| Star (f : ascii -> bool)
| StarLazy (f : ascii -> bool)
| Cat (r1 r2 : regex)
| Alt (r1 r2 : regex)
| Group (n : nat) (r : regex).

(** [c+] *)
Definition Plus (f : ascii -> bool) : regex := Cat (Class f) (Star f).

(** The text between two positions, each given by the input that is left. *)
Definition consumed (s rest : string) : string :=
  substring 0 (String.length s - String.length rest) s.

(** A capture is a range of the input: where the group started and where
    it ended, each position given by the input that is left there. *)
Definition captures := list (nat * (string * string)).

Definition orElse {A} (x y : option A) : option A :=
  match x with Some _ => x | None => y end.

Section Matcher.
Context {R : Type}.

(** Greedy: as many as possible first, then one fewer, ... *)
Fixpoint starGreedy (f : ascii -> bool) (s : string)
         (k : string -> option R) : option R :=
  match s with
  | String c s' =>
      if f c then orElse (starGreedy f s' k) (k s) else k s
  | EmptyString => k s
  end.

(** Lazy: none first, then one more, ... *)
Fixpoint starLazy (f : ascii -> bool) (s : string)
         (k : string -> option R) : option R :=
  match s with
  | String c s' =>
      if f c then orElse (k s) (starLazy f s' k) else k s
  | EmptyString => k s
  end.

Fixpoint run (r : regex) (s : string) (caps : captures)
         (k : string -> captures -> option R) : option R :=
  match r with
  | Lit l =>
      match dropPrefix l s with
      | Some s' => k s' caps
      | None => None
      end
  | Eos =>
      match s with
      | EmptyString => k s caps
      | String _ _ => None
      end
  | Class f =>
      match s with
      | String c s' => if f c then k s' caps else None
      | EmptyString => None
      end
  | Star f => starGreedy f s (fun s' => k s' caps)
  | StarLazy f => starLazy f s (fun s' => k s' caps)
  | Cat r1 r2 => run r1 s caps (fun s' caps' => run r2 s' caps' k)
  | Alt r1 r2 => orElse (run r1 s caps k) (run r2 s caps k)
  | Group n r1 =>
      run r1 s caps (fun s' caps' => k s' ((n, (s, s')) :: caps'))
  end.
End Matcher.

(** The array a successful match returns: element 0 and the groups. *)
Record matchResult : Type := mkMatch {
  matched : string;
  groups : captures
}.

Fixpoint lookupGroup (n : nat) (caps : captures) : option (string * string) :=
  match caps with
  | [] => None
  | (m, range) :: caps' => if Nat.eqb n m then Some range else lookupGroup n caps'
  end.

(** [m[n]] for [n >= 1], the text of the range: [None] is [undefined]. *)
Definition group (n : nat) (m : matchResult) : option string :=
  match lookupGroup n (groups m) with
  | Some (s, s') => Some (consumed s s')
  | None => None
  end.

(** The input from the start of group [n] on. *)
Definition groupStart (n : nat) (m : matchResult) : option string :=
  match lookupGroup n (groups m) with
  | Some (s, _) => Some s
  | None => None
  end.

Definition matchAt (r : regex) (s : string) : option matchResult :=
  run r s [] (fun rest caps => Some (mkMatch (consumed s rest) caps)).

(** [s.match(r)] for a pattern without the [g] flag: the leftmost start
    position at which the pattern matches, the end of the input included. *)
Fixpoint exec (r : regex) (s : string) : option matchResult :=
  match matchAt r s with
  | Some m => Some m
  | None =>
      match s with
      | EmptyString => None
      | String _ s' => exec r s'
      end
  end.

End Regex.

(** ** The Chart-Augmentation Rewriter *)

Module Rewriter.
Import JsString Regex.

(** [/order by\s+(.*?)(asc|desc|$)/] *)
Definition orderByRe : regex :=
  Cat (Lit "order by")
    (Cat (Plus isSpace)
       (Cat (Group 1 (StarLazy isDot))
          (Group 2 (Alt (Lit "asc") (Alt (Lit "desc") Eos))))).

(** [/(sum|count|avg|min|max)\s*\(/] *)
Definition aggregateRe : regex :=
  Cat (Group 1 (Alt (Lit "sum") (Alt (Lit "count")
                 (Alt (Lit "avg") (Alt (Lit "min") (Lit "max"))))))
    (Cat (Star isSpace) (Lit "(")).

(** [/select\s+(.*?)\s+from/] *)
Definition selectRe : regex :=
  Cat (Lit "select")
    (Cat (Plus isSpace)
       (Cat (Group 1 (StarLazy isDot))
          (Cat (Plus isSpace) (Lit "from")))).

(** A template literal prints a missing group as [undefined]. *)
Definition groupText (n : nat) (m : matchResult) : string :=
  match group n m with Some t => t | None => "undefined" end.

(** [m && m[1]]: the match exists and its first group is a non-empty
    string. *)
Definition firstGroup (m : option matchResult) : option string :=
  match m with
  | Some r =>
      match group 1 r with
      | Some t => if nonEmpty t then Some t else None
      | None => None
      end
  | None => None
  end.

Definition modifySqlQueryForCharting (query : string) : string :=
  let lowerQuery := toLowerCase query in
  let orderByMatch := exec orderByRe lowerQuery in
  match firstGroup orderByMatch with
  | Some g =>
      let orderByClause := trim g in
      match exec aggregateRe orderByClause with
      | Some aggregateMatch =>
          let aggregateFunction := matched aggregateMatch in
          let selectMatch := exec selectRe lowerQuery in
          match firstGroup selectMatch with
          | Some selectClause =>
              if negb (includes selectClause aggregateFunction) then
                let alias := groupText 1 aggregateMatch ++ "_value" in
                let modifiedSelect :=
                  selectClause ++ ", " ++ aggregateFunction ++ " AS " ++ alias in
                replace query selectClause modifiedSelect
              else query
          | None => query
          end
      | None => query
      end
  | None => query
  end.

End Rewriter.

(** ** Values, completions and objects *)

Module Js.
Import JsString.

(** The values a query result, a request body or a response can hold.
    [JObj] lists the own enumerable properties of a plain object in
    enumeration order (column names, so no two entries share a key);
    [JDate] stands for the class instances the database driver returns
    (a [Date]): an object, not an array, without own enumerable
    properties. *)
#[warnings="-register-all"]
Inductive value : Type :=
| JUndefined
| JNull
| JBool (b : bool)
| JNum (x : float)
| JBigInt (z : Z)
| JStr (s : string)
| JArr (xs : list value)
| JObj (props : list (string * value))
| JDate (time : float).

(** What a [throw] carries: an [Error] and its [message]. *)
Inductive exn : Type := Error (message : string).

Definition message (e : exn) : string := let (m) := e in m.

Inductive completion (A : Type) : Type :=
| Return (a : A)
| Throw (e : exn).
Arguments Return {A} a.
Arguments Throw {A} e.

Definition bind {A B} (c : completion A) (k : A -> completion B) : completion B :=
  match c with
  | Return a => k a
  | Throw e => Throw e
  end.

Fixpoint mapM {A B} (f : A -> completion B) (xs : list A) : completion (list B) :=
  match xs with
  | [] => Return []
  | x :: xs' =>
      bind (f x) (fun y => bind (mapM f xs') (fun ys => Return (y :: ys)))
  end.

Definition typeof (v : value) : string :=
  match v with
  | JUndefined => "undefined"
  | JNull => "object"
  | JBool _ => "boolean"
  | JNum _ => "number"
  | JBigInt _ => "bigint"
  | JStr _ => "string"
  | JArr _ => "object"
  | JObj _ => "object"
  | JDate _ => "object"
  end.

(** ToBoolean *)
Definition truthy (v : value) : bool :=
  match v with
  | JUndefined | JNull => false
  | JBool b => b
  | JNum x => negb (PrimFloat.eqb x 0 || PrimFloat.is_nan x)
  | JBigInt z => negb (Z.eqb z 0)
  | JStr s => nonEmpty s
  | JArr _ | JObj _ | JDate _ => true
  end.

(** [BigInt.prototype.toString()] *)
Definition bigintToString (z : Z) : string :=
  NilZero.string_of_int (Z.to_int z).

(** The property key of an array index. *)
Definition indexKey (i : nat) : string :=
  NilZero.string_of_uint (Nat.to_uint i).

Fixpoint characters (s : string) : list value :=
  match s with
  | EmptyString => []
  | String c s' => JStr (String c EmptyString) :: characters s'
  end.

Definition indexed (xs : list value) : list (string * value) :=
  combine (map indexKey (seq 0 (List.length xs))) xs.

(** The own enumerable string-keyed properties of the object a value
    converts to, in enumeration order. *)
Definition ownProps (v : value) : list (string * value) :=
  match v with
  | JObj props => props
  | JArr xs => indexed xs
  | JStr s => indexed (characters s)
  | _ => []
  end.

Fixpoint assoc (k : string) (props : list (string * value)) : option value :=
  match props with
  | [] => None
  | (k', v) :: props' => if String.eqb k k' then Some v else assoc k props'
  end.

Definition typeError (m : string) : exn := Error m.

(** [Object.keys(v)] *)
Definition objectKeys (v : value) : completion (list string) :=
  match v with
  | JUndefined | JNull =>
      Throw (typeError "Cannot convert undefined or null to object")
  | _ => Return (map fst (ownProps v))
  end.

Definition numberOfNat (n : nat) : float :=
  PrimFloat.of_uint63 (Uint63.of_Z (Z.of_nat n)).

(** [v[k]]: an own property, the [length] of a string or an array, and
    [undefined] otherwise (inherited methods are not data). *)
Definition getProp (v : value) (k : string) : completion value :=
  match v with
  | JUndefined | JNull =>
      Throw (typeError "Cannot read properties of undefined or null")
  | _ =>
      match assoc k (ownProps v) with
      | Some x => Return x
      | None =>
          match v with
          | JArr xs =>
              if String.eqb k "length"
              then Return (JNum (numberOfNat (List.length xs)))
              else Return JUndefined
          | JStr s =>
              if String.eqb k "length"
              then Return (JNum (numberOfNat (String.length s)))
              else Return JUndefined
          | _ => Return JUndefined
          end
      end
  end.

(** A BigInt anywhere in a value: what makes [JSON.stringify] throw. *)
Fixpoint hasBigInt (v : value) : bool :=
  match v with
  | JBigInt _ => true
  | JArr xs => existsb hasBigInt xs
  | JObj props => existsb (fun kv => hasBigInt (snd kv)) props
  | _ => false
  end.

End Js.

(** ** Wide-integer normalization *)

Module Normalizer.
Import JsString Js.

(** [convertBigIntToString]: a value that is not an object (or is [null])
    is returned as it is; an array is mapped; any other object is copied
    property by property into a fresh object, a BigInt property value
    becoming its decimal string. *)
Fixpoint convertBigIntToString (obj : value) : value :=
  match obj with
  | JUndefined | JNull | JBool _ | JNum _ | JBigInt _ | JStr _ => obj
  | JArr xs => JArr (map convertBigIntToString xs)
  | JObj props =>
      JObj (map (fun '(key, value) =>
                   (key,
                    match value with
                    | JBigInt z => JStr (bigintToString z)
                    | _ => convertBigIntToString value
                    end)) props)
  | JDate _ => JObj []
  end.

End Normalizer.

(** ** The Chart Data Transformer *)

Module Transformer.
Import JsString Js.

Record dataset : Type := mkDataset {
  label : string;
  data : list value;
  backgroundColor : string;
  borderColor : string;
  borderWidth : float
}.

Record chart : Type := mkChart {
  type : string;
  labels : list value;
  datasets : list dataset
}.

Definition isNull {A} (x : option A) : bool :=
  match x with None => true | Some _ => false end.

(** The [for (const colName of columnNames)] loop; [None] is [null]. *)
Fixpoint scanColumns (firstRow : value) (columnNames : list string)
         (labelColumn valueColumn : option string)
  : completion (option string * option string) :=
  match columnNames with
  | [] => Return (labelColumn, valueColumn)
  | colName :: rest =>
      bind (getProp firstRow colName) (fun sampleValue =>
        let '(labelColumn', valueColumn') :=
          if (String.eqb (typeof sampleValue) "string" && isNull labelColumn)%bool
          then (Some colName, valueColumn)
          else if (String.eqb (typeof sampleValue) "number" && isNull valueColumn)%bool
          then (labelColumn, Some colName)
          else (labelColumn, valueColumn) in
        if (negb (isNull labelColumn') && negb (isNull valueColumn'))%bool
        then Return (labelColumn', valueColumn')
        else scanColumns firstRow rest labelColumn' valueColumn')
  end.

(** The two fallback assignments after the loop. *)
Definition fallback (columnNames : list string)
           (lv : option string * option string)
  : option string * option string :=
  let '(labelColumn, valueColumn) := lv in
  let labelColumn' :=
    match labelColumn, columnNames with
    | None, first :: _ => Some first
    | _, _ => labelColumn
    end in
  let valueColumn' :=
    match valueColumn, columnNames with
    | None, _ :: second :: _ => Some second
    | _, _ => valueColumn
    end in
  (labelColumn', valueColumn').

(** The columns chosen for a first row: the loop, then the fallback. *)
Definition chooseColumns (firstRow : value)
  : completion (option string * option string) :=
  bind (objectKeys firstRow) (fun columnNames =>
  bind (scanColumns firstRow columnNames None None) (fun lv =>
  Return (fallback columnNames lv))).

Definition column (rows : list value) (name : string) : completion (list value) :=
  mapM (fun row => getProp row name) rows.

Definition transformDataForChart (data : value) : completion (option chart) :=
  match data with
  | JArr ((firstRow :: _) as rows) =>
      bind (chooseColumns firstRow) (fun lv =>
        match lv with
        | (Some labelColumn, Some valueColumn) =>
            bind (column rows labelColumn) (fun labels =>
            bind (column rows valueColumn) (fun dataValues =>
            let datasetLabel :=
              if nonEmpty valueColumn then valueColumn else "Value" in
            Return (Some
              {| type := "bar";
                 labels := labels;
                 datasets :=
                   [ {| label := datasetLabel;
                        data := dataValues;
                        backgroundColor := "rgba(75, 192, 192, 0.6)";
                        borderColor := "rgba(75, 192, 192, 1)";
                        borderWidth := 1 |} ] |})))
        | _ => Return None
        end)
  | _ => Return None
  end.

End Transformer.

(** ** The request handler *)

Module Pipeline.
Import JsString Js.
Import Rewriter Normalizer Transformer.

Record columnInfo : Type := mkColumn {
  column_name : string;
  data_type : string;
  column_type : string
}.

(** The object [getTableAndColumnNames] resolves to: table name to
    columns, in enumeration order. *)
Definition schema : Type := list (string * list columnInfo).

(** The three prompts sent to the model.  Each is a fixed template; what
    varies is what the template interpolates. *)
Inductive prompt : Type :=
| SqlPrompt (userQuery : value) (dbSchema : string)
| ExplanationPrompt (userQuery : value) (sqlQuery : string) (result : value)
| ChartPrompt (userQuery : value).

(** The outcome of every call that leaves the process. *)
Record world : Type := mkWorld {
  (** [getTableAndColumnNames()]: the catalog query, grouped by table *)
  fetchSchema : completion schema;
  (** [model.generateContent(p)], then [response.text()] *)
  generateContent : prompt -> completion string;
  (** [prisma.$queryRawUnsafe(sql)] *)
  queryRawUnsafe : string -> completion value
}.

Inductive event : Type :=
| SchemaFetch
| ModelCall (p : prompt)
| Execute (sql : string).

(** A computation that calls out: the calls made, in order, and how it
    completed. *)
Definition M (A : Type) : Type := (list event * completion A)%type.

Definition ret {A} (a : A) : M A := ([], Return a).
Definition throw {A} (e : exn) : M A := ([], Throw e).
Definition lift {A} (c : completion A) : M A := ([], c).
Definition call {A} (ev : event) (outcome : completion A) : M A := ([ev], outcome).

Definition bindM {A B} (c : M A) (k : A -> M B) : M B :=
  match c with
  | (t, Return a) => let (t', r) := k a in ((t ++ t')%list, r)
  | (t, Throw e) => (t, Throw e)
  end.

Definition tryCatch {A} (c : M A) (handler : exn -> M A) : M A :=
  match c with
  | (t, Throw e) => let (t', r) := handler e in ((t ++ t')%list, r)
  | (t, Return a) => (t, Return a)
  end.

Notation "x <- c ;; k" := (bindM c (fun x => k))
  (at level 61, c at next level, right associativity).

Fixpoint join (sep : string) (xs : list string) : string :=
  match xs with
  | [] => ""
  | [x] => x
  | x :: xs' => x ++ sep ++ join sep xs'
  end.

Definition dbSchemaText (dbSchemaObj : schema) : string :=
  join (String (ascii_of_N 10) "")
    (map (fun '(table, columns) =>
            let cols :=
              join ", "
                (map (fun col => column_name col ++ " (" ++ data_type col ++ ")")
                   columns) in
            "- " ++ table ++ ": " ++ cols)
       dbSchemaObj).

(** [text.replace(/```sql/g, '').replace(/```/g, '').trim()] *)
Definition cleanSql (text : string) : string :=
  trim (removeAll "```" (removeAll "```sql" text)).

Definition getSqlQueryFromGemini (w : world) (userQuery : value)
           (dbSchema : string) : M string :=
  tryCatch
    (text <- call (ModelCall (SqlPrompt userQuery dbSchema))
                  (generateContent w (SqlPrompt userQuery dbSchema)) ;;
     ret (cleanSql text))
    (fun _ => throw (Error "Failed to generate SQL query.")).

(** [JSON.stringify] throws on a BigInt. *)
Definition jsonStringifiable (v : value) : completion unit :=
  if hasBigInt v
  then Throw (typeError "Do not know how to serialize a BigInt")
  else Return tt.

Fixpoint eqCodeUnits (xs ys : list N) : bool :=
  match xs, ys with
  | [], [] => true
  | x :: xs', y :: ys' => (N.eqb x y && eqCodeUnits xs' ys')%bool
  | _, _ => false
  end.

(** [text.trim().toUpperCase() === 'YES'] *)
Definition isYes (text : string) : bool :=
  eqCodeUnits (toUpperCase (trim text)) (codeUnits "YES").

Definition shouldGenerateChart (w : world) (userQuery : value) : M bool :=
  tryCatch
    (text <- call (ModelCall (ChartPrompt userQuery))
                  (generateContent w (ChartPrompt userQuery)) ;;
     ret (isYes text))
    (fun _ => ret false).

Definition chartKeywords : list string := ["chart"; "plot"; "graph"; "visualize"].

(** [userQuery.toLowerCase()]: only a string has the method. *)
Definition toLowerCaseOf (userQuery : value) : completion string :=
  match userQuery with
  | JStr s => Return (toLowerCase s)
  | _ => Throw (typeError "userQuery.toLowerCase is not a function")
  end.

(** [chartKeywords.some(keyword => userQuery.toLowerCase().includes(keyword))] *)
Definition containsChartKeyword (userQuery : value) : completion bool :=
  match chartKeywords with
  | [] => Return false
  | _ =>
      bind (toLowerCaseOf userQuery) (fun lower =>
        Return (existsb (fun keyword => includes lower keyword) chartKeywords))
  end.

(** The chart decision: the value of [generateChart] before the
    transform. *)
Definition decideChart (w : world) (userQuery : value) : M bool :=
  contains <- lift (containsChartKeyword userQuery) ;;
  if contains : bool then ret true
  else tryCatch (shouldGenerateChart w userQuery) (fun _ => ret false).

Definition datasetValue (d : dataset) : value :=
  JObj [("label", JStr (label d));
        ("data", JArr (data d));
        ("backgroundColor", JStr (backgroundColor d));
        ("borderColor", JStr (borderColor d));
        ("borderWidth", JNum (borderWidth d))].

Definition chartValue (c : option chart) : value :=
  match c with
  | None => JNull
  | Some c =>
      JObj [("type", JStr (type c));
            ("labels", JArr (labels c));
            ("datasets", JArr (map datasetValue (datasets c)))]
  end.

(** The chart step: [chartData] stays [null] unless the decision is yes
    and the transform returns. *)
Definition chartStep (generateChart : bool) (result : value) : option chart :=
  if generateChart then
    match transformDataForChart result with
    | Return chartData => chartData
    | Throw _ => None
    end
  else None.

(** The body of the handler's [try]: the payload of [res.json]. *)
Definition processQuery (w : world) (userQuery : value) : M value :=
  dbSchemaObj <- call SchemaFetch (fetchSchema w) ;;
  let dbSchemaText := dbSchemaText dbSchemaObj in
  sqlQuery <- getSqlQueryFromGemini w userQuery dbSchemaText ;;
  let sqlQuery := modifySqlQueryForCharting sqlQuery in
  result <- call (Execute sqlQuery) (queryRawUnsafe w sqlQuery) ;;
  let result := convertBigIntToString result in
  _ <- lift (jsonStringifiable result) ;;
  explanationText <-
    call (ModelCall (ExplanationPrompt userQuery sqlQuery result))
         (generateContent w (ExplanationPrompt userQuery sqlQuery result)) ;;
  generateChart <- decideChart w userQuery ;;
  let chartData := chartStep generateChart result in
  ret (JObj [("query", JStr sqlQuery);
             ("result", result);
             ("summary", JStr (trim explanationText));
             ("chart", chartValue chartData)]).

Record response : Type := mkResponse {
  status : nat;
  body : value
}.

(** [error.message || 'Failed to process query'] *)
Definition errorMessage (error : exn) : string :=
  if nonEmpty (message error) then message error else "Failed to process query".

(** [app.post('/api/query', ...)] on a parsed JSON body: the calls made
    and the response sent. *)
Definition postQuery (w : world) (reqBody : list (string * value))
  : list event * response :=
  let userQuery :=
    match assoc "query" reqBody with Some v => v | None => JUndefined end in
  if negb (truthy userQuery) then
    ([], {| status := 400; body := JObj [("error", JStr "Query is required")] |})
  else
    match processQuery w userQuery with
    | (t, Return payload) => (t, {| status := 200; body := payload |})
    | (t, Throw error) =>
        (t, {| status := 500; body := JObj [("error", JStr (errorMessage error))] |})
    end.

End Pipeline.

(** ** Vocabulary of the statements *)

Module Spec.
Import JsString Js Regex Rewriter Normalizer Transformer Pipeline.

(** [p] occurs in [s]. *)
Definition Substring (p s : string) : Prop :=
  exists l r, s = l ++ p ++ r.

Fixpoint allChars (f : ascii -> bool) (s : string) : bool :=
  match s with
  | EmptyString => true
  | String c s' => (f c && allChars f s')%bool
  end.

Definition aggregateNames : list string := ["sum"; "count"; "avg"; "min"; "max"].

(** No aggregate name directly before an opening parenthesis. *)
Definition NoAggregateImmediate (clause : string) : Prop :=
  forall name, In name aggregateNames -> ~ Substring (name ++ "(") clause.

(** No aggregate name before an opening parenthesis, white space in
    between allowed. *)
Definition NoAggregateCall (clause : string) : Prop :=
  forall name spaces,
    In name aggregateNames -> allChars isSpace spaces = true ->
    ~ Substring (name ++ spaces ++ "(") clause.

(** The ordering expression the rewriter extracts: [orderByClause]. *)
Definition orderByClause (query : string) : option string :=
  option_map trim (firstGroup (exec orderByRe (toLowerCase query))).

(** The aggregate call found in an ordering expression:
    [aggregateFunction]. *)
Definition aggregateFunction (clause : string) : option string :=
  option_map matched (exec aggregateRe clause).

(** The projection list between SELECT and FROM: [selectClause]. *)
Definition selectClause (query : string) : option string :=
  firstGroup (exec selectRe (toLowerCase query)).

(** The projection list with its place: the text of group 1 of the SELECT
    match and the lower-case statement from the start of that group on. *)
Definition projection (query : string) : option (string * string) :=
  match exec selectRe (toLowerCase query) with
  | Some m =>
      match group 1 m, groupStart 1 m with
      | Some c, Some from => if nonEmpty c then Some (c, from) else None
      | _, _ => None
      end
  | None => None
  end.

(** *** Column classification, in the words of the specification *)

(** The first key, in order, whose value has the given type. *)
Fixpoint firstKeyOfType (ty : string) (props : list (string * value))
  : option string :=
  match props with
  | [] => None
  | (k, v) :: rest =>
      if String.eqb (typeof v) ty then Some k else firstKeyOfType ty rest
  end.

Definition orDefault (x d : option string) : option string :=
  match x with Some _ => x | None => d end.

(** Label: the first textual key, else the first declared key.  Value:
    the first numeric key, else the second declared key. *)
Definition classified (props : list (string * value))
  : option string * option string :=
  (orDefault (firstKeyOfType "string" props) (nth_error (map fst props) 0),
   orDefault (firstKeyOfType "number" props) (nth_error (map fst props) 1)).

Definition isRowMapping (v : value) : bool :=
  match v with JObj _ => true | _ => false end.

(** A sequence of row-mappings. *)
Definition isResultSet (v : value) : bool :=
  match v with JArr rows => forallb isRowMapping rows | _ => false end.

Definition isArray (v : value) : bool :=
  match v with JArr _ => true | _ => false end.

(** *** Stages of a request *)

(** A field of a JSON response body. *)
Definition field (name : string) (v : value) : option value :=
  assoc name (ownProps v).

(** The mandatory stages all return: the statement that was run, the
    normalized result and the model's summary text. *)
Definition MandatoryStages (w : world) (userQuery : value)
           (sqlQuery : string) (result : value) (explanationText : string)
  : Prop :=
  exists dbSchemaObj text raw,
    fetchSchema w = Return dbSchemaObj /\
    generateContent w (SqlPrompt userQuery (dbSchemaText dbSchemaObj)) = Return text /\
    sqlQuery = modifySqlQueryForCharting (cleanSql text) /\
    queryRawUnsafe w sqlQuery = Return raw /\
    result = convertBigIntToString raw /\
    hasBigInt result = false /\
    generateContent w (ExplanationPrompt userQuery sqlQuery result)
      = Return explanationText.

(** A fatal stage fails, the stages before it having returned; the index
    is the error that leaves the handler's [try] block. *)
Inductive FatalFailure (w : world) (userQuery : value) : exn -> Prop :=
| SchemaFetchFails (e : exn) :
    fetchSchema w = Throw e ->
    FatalFailure w userQuery e
| GenerationFails (dbSchemaObj : schema) (e : exn) :
    fetchSchema w = Return dbSchemaObj ->
    generateContent w (SqlPrompt userQuery (dbSchemaText dbSchemaObj)) = Throw e ->
    FatalFailure w userQuery (Error "Failed to generate SQL query.")
| ExecutionFails (dbSchemaObj : schema) (text : string) (e : exn) :
    fetchSchema w = Return dbSchemaObj ->
    generateContent w (SqlPrompt userQuery (dbSchemaText dbSchemaObj)) = Return text ->
    queryRawUnsafe w (modifySqlQueryForCharting (cleanSql text)) = Throw e ->
    FatalFailure w userQuery e
| SummarizationFails (dbSchemaObj : schema) (text : string) (raw : value) (e : exn) :
    fetchSchema w = Return dbSchemaObj ->
    generateContent w (SqlPrompt userQuery (dbSchemaText dbSchemaObj)) = Return text ->
    queryRawUnsafe w (modifySqlQueryForCharting (cleanSql text)) = Return raw ->
    hasBigInt (convertBigIntToString raw) = false ->
    generateContent w
      (ExplanationPrompt userQuery (modifySqlQueryForCharting (cleanSql text))
         (convertBigIntToString raw)) = Throw e ->
    FatalFailure w userQuery e.

(** The chart decision fails (no keyword, and the model call throws), or
    the decision is yes and the transform throws. *)
Definition ChartFailure (w : world) (userQuery : value) (result : value) : Prop :=
  (containsChartKeyword userQuery = Return false /\
   exists e, generateContent w (ChartPrompt userQuery) = Throw e)
  \/ (exists t e, decideChart w userQuery = (t, Return true) /\
                 transformDataForChart result = Throw e).

End Spec.

(** ** Scenarios

  Worlds for the situations the specification describes, on the
  classicmodels schema the prompt names. *)

Module Scenarios.
Import JsString Js Pipeline.

Definition classicmodels : schema :=
  [("customers", [mkColumn "customerName" "varchar" "varchar(50)"]);
   ("payments", [mkColumn "customerNumber" "int" "int";
                 mkColumn "amount" "decimal" "decimal(10,2)"])].

Definition salesRows : value :=
  JArr [JObj [("customerName", JStr "Alice"); ("total", JNum 500)];
        JObj [("customerName", JStr "Bob"); ("total", JNum 300)]].

Definition salesSql : string :=
  "SELECT customerName, SUM(amount) AS total FROM payments ORDER BY SUM(amount) DESC".

(** The model answers every prompt; to the chart question it answers
    [chartAnswer]. *)
Definition answering (chartAnswer : completion string) (rows : completion value)
  : world :=
  {| fetchSchema := Return classicmodels;
     generateContent := fun p =>
       match p with
       | SqlPrompt _ _ => Return ("```sql" ++ salesSql ++ "```")
       | ExplanationPrompt _ _ _ => Return " Alice paid 500 and Bob paid 300. "
       | ChartPrompt _ => chartAnswer
       end;
     queryRawUnsafe := fun _ => rows |}.

(** The model says yes, with white space and in lower case. *)
Definition modelSaysYes : world :=
  answering (Return (" yes" ++ String (ascii_of_N 10) "")) (Return salesRows).

(** The chart call fails. *)
Definition chartCallFails : world :=
  answering (Throw (Error "503 Service Unavailable")) (Return salesRows).

(** The database rejects the statement. *)
Definition executionFails : world :=
  answering (Return "YES")
    (Throw (Error "You have an error in your SQL syntax")).

(** The driver returns a row that is [null]: the transform throws. *)
Definition nullRow : world :=
  answering (Return "YES") (Return (JArr [JNull])).

End Scenarios.

(** ** The SELECT pattern, directly

    What the matcher computes for [/select\s+(.*?)\s+from/] at one start
    position, as plain recursive functions; [IdempotenceFacts.select_engine]
    proves them equal to the matcher. *)

Module Direct.
Import JsString Regex.

Fixpoint dropWhile (f : ascii -> bool) (s : string) : string :=
  match s with
  | String c s' => if f c then dropWhile f s' else s
  | EmptyString => EmptyString
  end.

Definition isPrefix (p s : string) : bool :=
  match dropPrefix p s with Some _ => true | None => false end.

Definition startsWith (f : ascii -> bool) (s : string) : bool :=
  match s with String c _ => f c | EmptyString => false end.

(** [\s+from] matches at the head of [t]. *)
Definition fromTail (t : string) : bool :=
  match t with
  | String w t' => (isSpace w && isPrefix "from" (dropWhile isSpace t'))%bool
  | EmptyString => false
  end.

(** The lazy group of the SELECT pattern from [t]: the shortest run of
    [.] characters after which [\s+from] matches, and what follows it. *)
Fixpoint walk (t : string) : option (string * string) :=
  match t with
  | EmptyString => None
  | String x t' =>
      if fromTail t then Some (EmptyString, t)
      else if isDot x then
             match walk t' with
             | Some (c, rest) => Some (String x c, rest)
             | None => None
             end
           else None
  end.

(** The first group of a match of the SELECT pattern at the head of [t]. *)
Definition selectAt (t : string) : option string :=
  match dropPrefix "select" t with
  | Some (String w t2) =>
      if isSpace w then
        let t3 := dropWhile isSpace t2 in
        match walk t3 with
        | Some (c, _) => Some c
        | None =>
            if (isPrefix "from" t3 && startsWith isSpace t2)%bool
            then Some EmptyString else None
        end
      else None
  | _ => None
  end.

(** What is left of [t] after [\s+from] at its head. *)
Definition afterFrom (t : string) : string :=
  match dropPrefix "from" (dropWhile isSpace t) with
  | Some r => r
  | None => EmptyString
  end.

(** The result of a SELECT match at the head of [t] whose group is
    [fst p], with [snd p] left after the group. *)
Definition selectResult (t : string) (p : string * string) : matchResult :=
  mkMatch (consumed t (afterFrom (snd p))) [(1, (fst p ++ snd p, snd p))].

(** The last character of [s] satisfies [f]. *)
Fixpoint endsWith (f : ascii -> bool) (s : string) : bool :=
  match s with
  | EmptyString => false
  | String c EmptyString => f c
  | String _ s' => endsWith f s'
  end.

Definition nonSpace (c : ascii) : bool := negb (isSpace c).

Definition isNot (z : ascii) (c : ascii) : bool := negb (Ascii.eqb c z).

(** What a rewrite appends to the projection list, in lower case. *)
Definition inserted (name spaces : string) : string :=
  ", " ++ name ++ spaces ++ "(" ++ " as " ++ name ++ "_value".

End Direct.

(** ** The schema introspector

    [getTableAndColumnNames] and the [GET /api/tables] handler.  The rows
    of the catalog query are grouped in a plain object, so the embedding
    keeps what a plain object does with its keys: a key that is an array
    index is enumerated before every other key, in numeric order, and a
    name inherited from [Object.prototype] is found by the lookup although
    no table was stored under it. *)

Module Introspector.
Import JsString Js Pipeline.

(** A row of [information_schema.COLUMNS], as the catalog query selects it. *)
Record catalogRow : Type := mkRow {
  TABLE_NAME : string;
  COLUMN_NAME : string;
  DATA_TYPE : string;
  COLUMN_TYPE : string
}.

(** The properties of [Object.prototype]: functions, and the [__proto__]
    accessor, whose value is an object.  All are true as a condition and
    none has a [push] method. *)
Definition inheritedNames : list string :=
  ["constructor"; "hasOwnProperty"; "isPrototypeOf"; "propertyIsEnumerable";
   "toLocaleString"; "toString"; "valueOf"; "__proto__";
   "__defineGetter__"; "__defineSetter__";
   "__lookupGetter__"; "__lookupSetter__"].

Definition inherited (name : string) : bool :=
  existsb (String.eqb name) inheritedNames.

Definition isDigit (c : ascii) : bool := inRange 48 57 c.

Fixpoint digitsValue (acc : N) (s : string) : option N :=
  match s with
  | EmptyString => Some acc
  | String c s' =>
      if isDigit c then digitsValue (acc * 10 + (code c - 48)) s' else None
  end.

(** A property key that is an array index: the canonical decimal numeral
    of an integer below 2^32 - 1. *)
Definition arrayIndex (k : string) : option N :=
  match k with
  | EmptyString => None
  | String "0" EmptyString => Some 0%N
  | String "0" _ => None
  | _ =>
      match digitsValue 0 k with
      | Some n => if N.ltb n 4294967295 then Some n else None
      | None => None
      end
  end.

Section OrdinaryObject.
Context {A : Type}.

(** The own property [k]. *)
Fixpoint lookup (k : string) (props : list (string * A)) : option A :=
  match props with
  | [] => None
  | (k', v) :: rest => if String.eqb k k' then Some v else lookup k rest
  end.

(** [obj[k] = v] for a key the object does not have: array indices keep
    their numeric order before the other keys, which keep the order of
    their creation. *)
Fixpoint define (k : string) (v : A) (props : list (string * A))
  : list (string * A) :=
  match props with
  | [] => [(k, v)]
  | (k', v') :: rest =>
      match arrayIndex k, arrayIndex k' with
      | Some n, Some n' =>
          if N.ltb n n' then (k, v) :: props else (k', v') :: define k v rest
      | Some _, None => (k, v) :: props
      | None, _ => (k', v') :: define k v rest
      end
  end.

(** The value stored under [k] is changed in place. *)
Fixpoint update (k : string) (f : A -> A) (props : list (string * A))
  : list (string * A) :=
  match props with
  | [] => []
  | (k', v) :: rest =>
      if String.eqb k k' then (k', f v) :: rest
      else (k', v) :: update k f rest
  end.

End OrdinaryObject.

Definition columnOf (row : catalogRow) : columnInfo :=
  {| column_name := COLUMN_NAME row;
     data_type := DATA_TYPE row;
     column_type := COLUMN_TYPE row |}.

(** The body of [result.forEach(row => ...)]. *)
Definition addRow (tables : schema) (row : catalogRow) : completion schema :=
  let name := TABLE_NAME row in
  if inherited name then
    Throw (typeError "tables[row.TABLE_NAME].push is not a function")
  else
    let tables' :=
      match lookup name tables with
      | Some _ => tables
      | None => define name [] tables
      end in
    Return (update name (fun columns => (columns ++ [columnOf row])%list) tables').

Fixpoint forEach {S A} (f : S -> A -> completion S) (s : S) (xs : list A)
  : completion S :=
  match xs with
  | [] => Return s
  | x :: xs' => bind (f s x) (fun s' => forEach f s' xs')
  end.

(** [getTableAndColumnNames], given the outcome of the catalog query; an
    error is logged and thrown again. *)
Definition getTableAndColumnNames (catalog : completion (list catalogRow))
  : completion schema :=
  bind catalog (fun result => forEach addRow [] result).

Definition columnValue (col : columnInfo) : value :=
  JObj [("column_name", JStr (column_name col));
        ("data_type", JStr (data_type col));
        ("column_type", JStr (column_type col))].

Definition schemaValue (tables : schema) : value :=
  JObj (map (fun '(table, columns) => (table, JArr (map columnValue columns)))
          tables).

(** [app.get('/api/tables', ...)] *)
Definition getTables (catalog : completion (list catalogRow)) : response :=
  match getTableAndColumnNames catalog with
  | Return tables => {| status := 200; body := schemaValue tables |}
  | Throw _ =>
      {| status := 500;
         body := JObj [("error", JStr "Failed to fetch table and column names")] |}
  end.

(** A world whose schema fetch is the introspector on a catalog outcome. *)
Definition connected (catalog : completion (list catalogRow))
           (generate : prompt -> completion string)
           (query : string -> completion value) : world :=
  {| fetchSchema := getTableAndColumnNames catalog;
     generateContent := generate;
     queryRawUnsafe := query |}.

End Introspector.

(** ** Vocabulary of the further statements *)

Module Shapes.
Import JsString Js Regex Rewriter Normalizer Transformer Pipeline Spec Direct.
Import Introspector.

(** The columns the catalog lists for a table, in row order. *)
Definition columnsOf (table : string) (rows : list catalogRow) : list columnInfo :=
  map columnOf (filter (fun row => String.eqb (TABLE_NAME row) table) rows).

(** The catalog rows of a schema: table by table, column by column. *)
Definition catalogOf (tables : schema) : list catalogRow :=
  flat_map (fun '(table, columns) =>
              map (fun col => mkRow table (column_name col) (data_type col)
                                (column_type col)) columns)
    tables.

(** A table name that is neither inherited by a plain object nor an
    array index. *)
Definition ordinaryName (name : string) : bool :=
  (negb (inherited name)
   && match arrayIndex name with Some _ => false | None => true end)%bool.

Definition isIndexName (name : string) : bool :=
  match arrayIndex name with Some _ => true | None => false end.

(** The line of the prompt text for one column and for one table. *)
Definition columnText (col : columnInfo) : string :=
  column_name col ++ " (" ++ data_type col ++ ")".

Definition tableText (entry : string * list columnInfo) : string :=
  "- " ++ fst entry ++ ": " ++ join ", " (map columnText (snd entry)).



(** A cell that is not an object: a string, a number, a BigInt, a
    boolean, [null] or [undefined]. *)
Definition isScalar (v : value) : bool :=
  match v with
  | JArr _ | JObj _ | JDate _ => false
  | _ => true
  end.

(** A row-mapping whose cells are scalars. *)
Definition isScalarRow (v : value) : bool :=
  match v with
  | JObj props => forallb (fun kv => isScalar (snd kv)) props
  | _ => false
  end.

Definition isNullish (v : value) : bool :=
  match v with JUndefined | JNull => true | _ => false end.


(** The number of occurrences of a character. *)
Fixpoint countChar (x : ascii) (s : string) : nat :=
  match s with
  | EmptyString => 0
  | String c s' => (if Ascii.eqb c x then 1 else 0) + countChar x s'
  end.

(** The calls of a request whose stages all run, in the order of the
    handler. *)
Definition stages (userQuery : value) (dbSchema sqlQuery : string)
           (result : value) : list event :=
  [SchemaFetch;
   ModelCall (SqlPrompt userQuery dbSchema);
   Execute sqlQuery;
   ModelCall (ExplanationPrompt userQuery sqlQuery result);
   ModelCall (ChartPrompt userQuery)].

Fixpoint isPrefixOf (xs ys : list event) : Prop :=
  match xs, ys with
  | [], _ => True
  | x :: xs', y :: ys' => x = y /\ isPrefixOf xs' ys'
  | _ :: _, [] => False
  end.

Definition executed (ev : event) : list string :=
  match ev with Execute sql => [sql] | _ => [] end.

(** The statements a trace sent to the database. *)
Definition executions (t : list event) : list string := flat_map executed t.

End Shapes.

(** ** Facts about strings *)

Module StringFacts.
Import JsString Spec.

Lemma app_nil_r (s : string) : s ++ "" = s.
Proof. induction s as [|c s IH]; simpl; [reflexivity | now rewrite IH]. Qed.

Lemma app_assoc (a b c : string) : (a ++ b) ++ c = a ++ (b ++ c).
Proof. induction a as [|x a IH]; simpl; [reflexivity | now rewrite IH]. Qed.

Lemma length_app (a b : string) :
  String.length (a ++ b) = String.length a + String.length b.
Proof. induction a as [|x a IH]; simpl; [reflexivity | now rewrite IH]. Qed.

Lemma dropPrefix_app (p r : string) : dropPrefix p (p ++ r) = Some r.
Proof.
  induction p as [|a p IH]; simpl; [reflexivity|].
  now rewrite Ascii.eqb_refl.
Qed.

Lemma dropPrefix_Some (p s r : string) :
  dropPrefix p s = Some r -> s = p ++ r.
Proof.
  revert s; induction p as [|a p IH]; simpl; intros s H.
  - now inversion H.
  - destruct s as [|b s]; [discriminate|].
    destruct (Ascii.eqb_spec a b) as [->|]; [|discriminate].
    now rewrite (IH _ H).
Qed.

Lemma dropPrefix_None (p s r : string) :
  dropPrefix p s = None -> s <> p ++ r.
Proof.
  intros H ->. rewrite dropPrefix_app in H. discriminate.
Qed.

Lemma splitFirst_Some (p s l r : string) :
  splitFirst p s = Some (l, r) -> s = l ++ p ++ r.
Proof.
  revert l; induction s as [|c s IH]; intros l; simpl.
  - destruct (dropPrefix p "") as [r'|] eqn:E; [|discriminate].
    intros H; inversion H; subst. simpl. now apply dropPrefix_Some.
  - destruct (dropPrefix p (String c s)) as [r'|] eqn:E.
    + intros H; inversion H; subst. simpl. now apply dropPrefix_Some.
    + destruct (splitFirst p s) as [[l' r']|]; [|discriminate].
      intros H; inversion H; subst. simpl. now rewrite <- (IH l' eq_refl).
Qed.

Lemma splitFirst_None (p s : string) :
  splitFirst p s = None -> ~ Substring p s.
Proof.
  induction s as [|c s IH]; simpl.
  - destruct (dropPrefix p "") eqn:E; [discriminate|].
    intros _ (l & r & H). destruct l; simpl in H.
    + now apply (dropPrefix_None _ _ r E).
    + discriminate.
  - destruct (dropPrefix p (String c s)) eqn:E; [discriminate|].
    destruct (splitFirst p s) as [[l' r']|] eqn:E'; [discriminate|].
    intros _ (l & r & H). destruct l; simpl in H.
    + now apply (dropPrefix_None _ _ r E).
    + inversion H; subst. apply IH; [reflexivity|]. now exists l, r.
Qed.

Lemma includes_true (s p : string) :
  includes s p = true <-> Substring p s.
Proof.
  unfold includes. destruct (splitFirst p s) as [[l r]|] eqn:E.
  - split; [|reflexivity]. intros _. exists l, r. now apply splitFirst_Some.
  - split; [discriminate|]. intros H. now apply splitFirst_None in H.
Qed.

Lemma includes_false (s p : string) :
  includes s p = false <-> ~ Substring p s.
Proof.
  rewrite <- includes_true. destruct (includes s p); split; intros H;
    try reflexivity; try discriminate.
  now destruct H.
Qed.

Lemma allChars_app (f : ascii -> bool) (a b : string) :
  allChars f (a ++ b) = (allChars f a && allChars f b)%bool.
Proof.
  induction a as [|c a IH]; simpl; [reflexivity|].
  now rewrite IH, andb_assoc.
Qed.

End StringFacts.

(** ** Facts about the matcher *)

Module RegexFacts.
Import JsString Regex Spec StringFacts.

Lemma consumed_app (a b : string) : consumed (a ++ b) b = a.
Proof.
  unfold consumed. rewrite length_app.
  replace (_ + _ - _) with (String.length a) by lia.
  induction a as [|c a IH]; simpl.
  - now destruct b.
  - now rewrite IH.
Qed.

Lemma orElse_Some {A} (x y : option A) (r : A) :
  orElse x y = Some r -> x = Some r \/ (x = None /\ y = Some r).
Proof. destruct x; simpl; intros H; [left | right]; auto. Qed.

(** A successful greedy repetition took a run of class characters and
    handed the rest to its continuation. *)
Lemma starGreedy_Some {R} (f : ascii -> bool) (s : string)
      (k : string -> option R) (r : R) :
  starGreedy f s k = Some r ->
  exists run rest, s = run ++ rest /\ allChars f run = true /\ k rest = Some r.
Proof.
  induction s as [|c s IH]; simpl; intros H.
  - now exists "", "".
  - destruct (f c) eqn:Ec.
    + apply orElse_Some in H as [H | [_ H]].
      * destruct (IH H) as (run & rest & -> & Hrun & Hk).
        exists (String c run), rest. simpl. now rewrite Ec, Hrun.
      * now exists "", (String c s).
    + now exists "", (String c s).
Qed.

Lemma starLazy_Some {R} (f : ascii -> bool) (s : string)
      (k : string -> option R) (r : R) :
  starLazy f s k = Some r ->
  exists run rest, s = run ++ rest /\ allChars f run = true /\ k rest = Some r.
Proof.
  induction s as [|c s IH]; simpl; intros H.
  - now exists "", "".
  - destruct (f c) eqn:Ec.
    + apply orElse_Some in H as [H | [_ H]].
      * now exists "", (String c s).
      * destruct (IH H) as (run & rest & -> & Hrun & Hk).
        exists (String c run), rest. simpl. now rewrite Ec, Hrun.
    + now exists "", (String c s).
Qed.

(** Where [exec] finds a match, the pattern matches at some suffix. *)
Lemma exec_Some (r : regex) (s : string) (m : matchResult) :
  exec r s = Some m ->
  exists l t, s = l ++ t /\ matchAt r t = Some m.
Proof.
  induction s as [|c s IH]; simpl.
  - destruct (matchAt r "") eqn:E; [|discriminate].
    intros H; inversion H; subst. now exists "", "".
  - destruct (matchAt r (String c s)) eqn:E.
    + intros H; inversion H; subst. now exists "", (String c s).
    + intros H. destruct (IH H) as (l & t & -> & Hm).
      now exists (String c l), t.
Qed.

End RegexFacts.

(** ** The rewriter: statements *)

Module RewriterFacts.
Import JsString Regex Rewriter Spec StringFacts RegexFacts.

(** The rewriter in terms of the three texts it extracts. *)
Lemma modify_cases (query : string) :
  modifySqlQueryForCharting query =
  match orderByClause query with
  | None => query
  | Some clause =>
      match exec aggregateRe clause with
      | None => query
      | Some aggregateMatch =>
          match selectClause query with
          | None => query
          | Some projection =>
              if includes projection (matched aggregateMatch) then query
              else replace query projection
                     (projection ++ ", " ++ matched aggregateMatch ++ " AS "
                        ++ groupText 1 aggregateMatch ++ "_value")
          end
      end
  end.
Proof.
  unfold modifySqlQueryForCharting, orderByClause, selectClause.
  destruct (firstGroup (exec orderByRe (toLowerCase query))) as [g|]; simpl;
    [|reflexivity].
  destruct (exec aggregateRe (trim g)) as [am|]; [|reflexivity].
  destruct (firstGroup (exec selectRe (toLowerCase query))) as [c|];
    [|reflexivity].
  now destruct (includes c (matched am)).
Qed.

Lemma orderBy_needs_keyword (s : string) (m : matchResult) :
  exec orderByRe s = Some m -> Substring "order by" s.
Proof.
  intros H. apply exec_Some in H as (l & t & -> & H).
  unfold matchAt, orderByRe in H. cbn [run] in H.
  destruct (dropPrefix "order by" t) as [t'|] eqn:E; [|discriminate].
  apply dropPrefix_Some in E. subst t. now exists l, t'.
Qed.

Lemma aggregate_tail (t name t' : string) (m : matchResult) :
  t = name ++ t' ->
  starGreedy isSpace t'
    (fun s0 : string =>
       match dropPrefix "(" s0 with
       | Some s1 => Some (mkMatch (consumed t s1) [(1, (t, t'))])
       | None => None
       end) = Some m ->
  exists spaces rest,
    allChars isSpace spaces = true /\
    t = name ++ spaces ++ "(" ++ rest /\
    matched m = name ++ spaces ++ "(" /\ group 1 m = Some name.
Proof.
  intros Ht Hm.
  apply starGreedy_Some in Hm as (spaces & rest & -> & Hsp & Hm).
  destruct (dropPrefix "(" rest) as [rest'|] eqn:E; [|discriminate].
  apply dropPrefix_Some in E. subst rest t. inversion Hm; subst m; clear Hm.
  exists spaces, rest'. repeat split; auto.
  - simpl matched.
    transitivity (consumed ((name ++ spaces ++ "(") ++ rest') rest');
      [|apply consumed_app].
    now rewrite !app_assoc.
  - unfold group. simpl. now rewrite consumed_app.
Qed.

(** What an aggregate match consists of. *)
Lemma aggregate_shape (t : string) (m : matchResult) :
  matchAt aggregateRe t = Some m ->
  exists name spaces rest,
    In name aggregateNames /\ allChars isSpace spaces = true /\
    t = name ++ spaces ++ "(" ++ rest /\
    matched m = name ++ spaces ++ "(" /\ group 1 m = Some name.
Proof.
  unfold matchAt, aggregateRe. cbn [run]. intros H.
  repeat match type of H with
  | orElse _ _ = Some _ => apply orElse_Some in H as [H | [_ H]]
  end;
  match type of H with
  | match dropPrefix ?name t with _ => _ end = _ =>
      destruct (dropPrefix name t) as [t'|] eqn:E; [|discriminate];
      apply dropPrefix_Some in E;
      apply (aggregate_tail t name t' m E) in H as (spaces & rest & ? & ? & ? & ?);
      exists name, spaces, rest; repeat split; auto; simpl; tauto
  end.
Qed.

Lemma aggregate_needs_call (clause : string) (m : matchResult) :
  exec aggregateRe clause = Some m ->
  exists name spaces,
    In name aggregateNames /\ allChars isSpace spaces = true /\
    Substring (name ++ spaces ++ "(") clause /\
    matched m = name ++ spaces ++ "(".
Proof.
  intros H. apply exec_Some in H as (l & t & -> & H).
  apply aggregate_shape in H as (name & spaces & rest & Hn & Hs & -> & Hm & _).
  exists name, spaces. repeat split; auto.
  exists l, rest. now rewrite !app_assoc.
Qed.

(** C1.  The two statements of the specification: the first is rewritten,
    and what is appended to the projection list is the aggregate name and
    its opening parenthesis only, [sum( AS sum_value], so the list does
    not contain [SUM(amount) AS sum_value] in either letter case; the
    second, which already projects the aggregate, is returned as it is. *)
Theorem rewriter_on_the_two_statements :
  let q1 := "SELECT name FROM customers ORDER BY SUM(amount) DESC" in
  let q2 := "SELECT name, SUM(amount) AS total FROM customers ORDER BY SUM(amount) DESC" in
  modifySqlQueryForCharting q1
    = "SELECT name, sum( AS sum_value FROM customers ORDER BY SUM(amount) DESC"
  /\ selectClause (modifySqlQueryForCharting q1) = Some "name, sum( as sum_value"
  /\ includes (modifySqlQueryForCharting q1) "SUM(amount) AS sum_value" = false
  /\ includes (toLowerCase (modifySqlQueryForCharting q1)) "sum(amount) as sum_value" = false
  /\ modifySqlQueryForCharting q2 = q2.
Proof. repeat split; vm_compute; reflexivity. Qed.

(** C3, as the specification words it, fails: an ordering expression [sum (x)]
    has no aggregate name directly before a parenthesis, and the
    statement is rewritten all the same. *)
Lemma immediate_reading_refuted :
  ~ (forall query,
       (~ Substring "order by" (toLowerCase query)
        \/ (forall clause, orderByClause query = Some clause ->
               NoAggregateImmediate clause)
        \/ (exists clause aggregate projection,
               orderByClause query = Some clause /\
               aggregateFunction clause = Some aggregate /\
               selectClause query = Some projection /\
               Substring aggregate projection)) ->
       modifySqlQueryForCharting query = query).
Proof.
  intros H.
  specialize (H "select name from t order by sum (x) desc").
  assert (E : modifySqlQueryForCharting "select name from t order by sum (x) desc"
              = "select name, sum ( AS sum_value from t order by sum (x) desc")
    by (vm_compute; reflexivity).
  rewrite E in H. clear E.
  enough (E : "select name, sum ( AS sum_value from t order by sum (x) desc"
              = "select name from t order by sum (x) desc") by discriminate.
  apply H. right; left. intros clause Hc.
  vm_compute in Hc. inversion Hc; subst clause; clear Hc.
  intros name Hn. apply includes_false.
  simpl in Hn. repeat destruct Hn as [<- | Hn]; try (vm_compute; reflexivity).
  destruct Hn.
Qed.

(** C3, amended.  A statement is returned unchanged when its lower-case
    form has no [order by], or when the ordering expression has no
    aggregate name followed, after optional white space, by an opening
    parenthesis, or when the projection list contains the aggregate text
    that was matched. *)
Theorem passes_through_unchanged (query : string) :
  (~ Substring "order by" (toLowerCase query)
   \/ (forall clause, orderByClause query = Some clause ->
          NoAggregateCall clause)
   \/ (exists clause aggregate projection,
          orderByClause query = Some clause /\
          aggregateFunction clause = Some aggregate /\
          selectClause query = Some projection /\
          Substring aggregate projection)) ->
  modifySqlQueryForCharting query = query.
Proof.
  rewrite modify_cases.
  intros [Hno | [Hagg | (clause & aggregate & projection & Hc & Ha & Hp & Hin)]].
  - unfold orderByClause.
    destruct (exec orderByRe (toLowerCase query)) as [m|] eqn:E; [|reflexivity].
    destruct Hno. now apply orderBy_needs_keyword in E.
  - destruct (orderByClause query) as [clause|]; [|reflexivity].
    destruct (exec aggregateRe clause) as [m|] eqn:E; [|reflexivity].
    apply aggregate_needs_call in E as (name & spaces & Hn & Hs & Hsub & _).
    now destruct (Hagg clause eq_refl name spaces).
  - rewrite Hc. unfold aggregateFunction in Ha.
    destruct (exec aggregateRe clause) as [m|]; [|discriminate].
    simpl in Ha. inversion Ha; subst aggregate. rewrite Hp.
    apply includes_true in Hin. now rewrite Hin.
Qed.

Lemma passes_through_unchanged_witness :
  modifySqlQueryForCharting "SELECT name FROM customers" = "SELECT name FROM customers".
Proof.
  apply (passes_through_unchanged "SELECT name FROM customers").
  left. apply includes_false. vm_compute. reflexivity.
Defined.

End RewriterFacts.

(** ** The rewriter applied twice *)

Module IdempotenceFacts.
Import JsString Regex Rewriter Spec Direct StringFacts RegexFacts RewriterFacts.

#[local] Arguments dropPrefix : simpl never.
#[local] Arguments isSpace : simpl never.
#[local] Arguments isDot : simpl never.
#[local] Arguments fromTail : simpl never.
#[local] Arguments walk : simpl never.

Lemma walk_cons (x : ascii) (t : string) :
  walk (String x t)
  = if fromTail (String x t) then Some ("", String x t)
    else if isDot x then
           match walk t with
           | Some (c, rest) => Some (String x c, rest)
           | None => None
           end
         else None.
Proof. reflexivity. Qed.

Lemma fromTail_cons (w : ascii) (t : string) :
  fromTail (String w t)
  = (isSpace w && isPrefix "from" (dropWhile isSpace t))%bool.
Proof. reflexivity. Qed.

Lemma orElse_None_r {A} (x : option A) : orElse x None = x.
Proof. now destruct x. Qed.

Lemma starGreedy_max {R} (f : ascii -> bool) (s : string)
      (k : string -> option R) :
  (forall c t, f c = true -> k (String c t) = None) ->
  starGreedy f s k = k (dropWhile f s).
Proof.
  intros Hk. induction s as [|c s IH]; simpl; [reflexivity|].
  destruct (f c) eqn:Ec; [|reflexivity].
  now rewrite (Hk c s Ec), orElse_None_r.
Qed.

Lemma dropPrefix_cons (a b : ascii) (p s : string) :
  dropPrefix (String a p) (String b s)
  = if Ascii.eqb a b then dropPrefix p s else None.
Proof. reflexivity. Qed.

Lemma dropPrefix_space (lit t : string) (w : ascii) :
  startsWith isSpace lit = false -> lit <> "" -> isSpace w = true ->
  dropPrefix lit (String w t) = None.
Proof.
  destruct lit as [|a lit]; [easy|]. cbn. intros Ha _ Hw.
  rewrite dropPrefix_cons.
  destruct (Ascii.eqb_spec a w) as [->|]; [congruence | reflexivity].
Qed.

(** The [\s+from] tail of the SELECT pattern. *)
Lemma from_tail_run {R} (t4 : string) (K : string -> option R) :
  match t4 with
  | EmptyString => None
  | String c0 s3 =>
      if isSpace c0
      then starGreedy isSpace s3
             (fun s4 => match dropPrefix "from" s4 with
                        | Some s5 => K s5
                        | None => None
                        end)
      else None
  end
  = if fromTail t4
    then match dropPrefix "from" (dropWhile isSpace t4) with
         | Some s5 => K s5
         | None => None
         end
    else None.
Proof.
  destruct t4 as [|c0 s3]; [reflexivity|].
  rewrite fromTail_cons. cbn [dropWhile].
  destruct (isSpace c0) eqn:E0; [|reflexivity]. cbn [andb].
  rewrite starGreedy_max.
  - unfold isPrefix. now destruct (dropPrefix "from" (dropWhile isSpace s3)).
  - intros c t Hc. now rewrite dropPrefix_space.
Qed.

Lemma fromTail_dropPrefix (t : string) :
  fromTail t = true ->
  exists r, dropPrefix "from" (dropWhile isSpace t) = Some r.
Proof.
  destruct t as [|w t]; [discriminate|]. rewrite fromTail_cons. cbn [dropWhile].
  destruct (isSpace w); [|discriminate]. cbn [andb]. unfold isPrefix.
  destruct (dropPrefix "from" (dropWhile isSpace t)); [eauto | discriminate].
Qed.

Lemma walk_app (t c rest : string) :
  walk t = Some (c, rest) -> t = c ++ rest.
Proof.
  revert c; induction t as [|x t IH]; intros c; [discriminate|].
  rewrite walk_cons.
  destruct (fromTail (String x t)).
  - intros H; inversion H; reflexivity.
  - destruct (isDot x); [|discriminate].
    destruct (walk t) as [[c' r']|]; [|discriminate].
    intros H; inversion H; subst. simpl. now rewrite <- (IH c' eq_refl).
Qed.

(** The lazy group, as the matcher runs it, is [walk]. *)
Lemma lazy_is_walk {R} (s : string) (k : string -> option R)
      (M : string -> R) :
  (forall t4, k t4 = if fromTail t4 then Some (M t4) else None) ->
  starLazy isDot s k
  = match walk s with Some (_, rest) => Some (M rest) | None => None end.
Proof.
  intros Hk. induction s as [|x s IH].
  - cbn [starLazy]. now rewrite Hk.
  - cbn [starLazy]. rewrite walk_cons, Hk.
    destruct (fromTail (String x s)) eqn:Ef.
    + now destruct (isDot x).
    + destruct (isDot x); [|reflexivity]. simpl. rewrite IH.
      now destruct (walk s) as [[c r]|].
Qed.

Lemma starGreedy_ext {R} (f : ascii -> bool) (s : string)
      (k k' : string -> option R) :
  (forall x, k x = k' x) -> starGreedy f s k = starGreedy f s k'.
Proof.
  intros H. induction s as [|c s IH]; cbn [starGreedy]; [apply H|].
  now rewrite IH, H.
Qed.

Lemma dropWhile_run (f : ascii -> bool) (r t : string) :
  allChars f r = true -> startsWith f t = false ->
  dropWhile f (r ++ t) = t.
Proof.
  intros Hr Ht. induction r as [|c r IH]; cbn.
  - destruct t as [|x t]; [reflexivity|]. cbn in *. now rewrite Ht.
  - cbn in Hr. apply andb_prop in Hr as [-> Hr]. now apply IH.
Qed.

Lemma dropWhile_fix (f : ascii -> bool) (t : string) :
  startsWith f t = false -> dropWhile f t = t.
Proof. apply (dropWhile_run f "" t eq_refl). Qed.

Lemma dropWhile_split (f : ascii -> bool) (s : string) :
  exists r, s = r ++ dropWhile f s /\ allChars f r = true
            /\ startsWith f (dropWhile f s) = false.
Proof.
  induction s as [|c s (r & Hs & Hr & Hd)]; cbn.
  - now exists "".
  - destruct (f c) eqn:Ec.
    + exists (String c r). cbn. rewrite Ec, Hr. now rewrite <- Hs.
    + exists "". cbn. now rewrite Ec.
Qed.

Lemma starGreedy_fix {R} (f : ascii -> bool) (t : string)
      (k : string -> option R) :
  startsWith f t = false -> starGreedy f t k = k t.
Proof.
  destruct t as [|x t]; [reflexivity|]. cbn. now intros ->.
Qed.

Section GreedyWalk.
Context {R : Type} (N : string * string -> R).

Local Abbreviation k := (fun s1 : string => option_map N (walk s1)).

Lemma greedy_walk_Some (t2 : string) (p : string * string) :
  walk (dropWhile isSpace t2) = Some p ->
  starGreedy isSpace t2 k = Some (N p).
Proof.
  intros Hw. induction t2 as [|w t2 IH]; cbn [starGreedy dropWhile] in *.
  - cbn beta. now rewrite Hw.
  - destruct (isSpace w).
    + now rewrite (IH Hw).
    + cbn beta. now rewrite Hw.
Qed.

Lemma walk_run_None (r t3 : string) :
  allChars isSpace r = true -> startsWith isSpace t3 = false ->
  isPrefix "from" t3 = false -> walk t3 = None ->
  walk (r ++ t3) = None.
Proof.
  intros Hr Ht Hp Hw. induction r as [|w r IH]; [exact Hw|].
  cbn in Hr. apply andb_prop in Hr as [Ew Hr].
  cbn [append]. rewrite walk_cons, fromTail_cons, Ew.
  rewrite (dropWhile_run _ _ _ Hr Ht), Hp. cbn [andb].
  rewrite (IH Hr). now destruct (isDot w).
Qed.

Lemma greedy_run_None (r t3 : string) :
  allChars isSpace r = true -> startsWith isSpace t3 = false ->
  isPrefix "from" t3 = false -> walk t3 = None ->
  starGreedy isSpace (r ++ t3) k = None.
Proof.
  intros Hr Ht Hp Hw. induction r as [|w r IH].
  - cbn [append]. destruct t3 as [|x t3]; cbn [starGreedy].
    + cbn beta. now rewrite Hw.
    + cbn in Ht. rewrite Ht. cbn beta. now rewrite Hw.
  - cbn in Hr. apply andb_prop in Hr as [Ew Hr].
    cbn [append starGreedy]. rewrite Ew, (IH Hr). cbn [orElse].
    cbn beta.
    change (String w (r ++ t3)) with (String w r ++ t3).
    rewrite walk_run_None; auto. cbn. now rewrite Ew, Hr.
Qed.

Lemma greedy_run_from (r t3 : string) (w : ascii) :
  isSpace w = true ->
  allChars isSpace r = true -> startsWith isSpace t3 = false ->
  isPrefix "from" t3 = true -> walk t3 = None ->
  exists t4, starGreedy isSpace (String w r ++ t3) k = Some (N ("", t4)).
Proof.
  intros Ew Hr Ht Hp Hw. revert w Ew. induction r as [|w' r IH]; intros w Ew.
  - cbn [append starGreedy]. rewrite Ew.
    assert (E : starGreedy isSpace t3 k = None).
    { destruct t3 as [|x t3]; cbn [starGreedy].
      - cbn beta. now rewrite Hw.
      - cbn in Ht. rewrite Ht. cbn beta. now rewrite Hw. }
    rewrite E. cbn [orElse]. cbn beta.
    rewrite walk_cons, fromTail_cons, Ew.
    rewrite (dropWhile_fix _ t3 Ht), Hp. cbn. eauto.
  - cbn in Hr. apply andb_prop in Hr as [Ew' Hr].
    destruct (IH Hr w' Ew') as [t4 E].
    cbn [append starGreedy] in *. rewrite Ew. rewrite Ew' in E.
    rewrite Ew'. rewrite E. cbn [orElse]. eauto.
Qed.

End GreedyWalk.

(** The SELECT pattern at the head of [t], up to its greedy [\s+]. *)
Lemma select_run (t : string) (w : ascii) (t2 : string) :
  dropPrefix "select" t = Some (String w t2) -> isSpace w = true ->
  matchAt selectRe t
  = starGreedy isSpace t2 (fun s1 => option_map (selectResult t) (walk s1)).
Proof.
  intros Et Ew. unfold matchAt, selectRe, Plus. cbn [run]. rewrite Et, Ew.
  apply starGreedy_ext. intros s1.
  rewrite (lazy_is_walk s1 _
             (fun t4 => mkMatch (consumed t (afterFrom t4)) [(1, (s1, t4))])).
  - destruct (walk s1) as [[c rest]|] eqn:E; [|reflexivity].
    cbn. unfold selectResult. cbn. apply walk_app in E. now subst s1.
  - intros t4. rewrite from_tail_run.
    destruct (fromTail t4) eqn:Ef; [|reflexivity].
    unfold afterFrom.
    now destruct (fromTail_dropPrefix t4 Ef) as [r ->].
Qed.

Lemma group_selectResult (t : string) (p : string * string) :
  group 1 (selectResult t p) = Some (fst p).
Proof. unfold group, selectResult. cbn. now rewrite consumed_app. Qed.

(** The SELECT pattern at the head of [t], and [selectAt]. *)
Lemma select_engine (t : string) :
  option_map (group 1) (matchAt selectRe t) = option_map Some (selectAt t).
Proof.
  unfold selectAt.
  destruct (dropPrefix "select" t) as [[|w t2]|] eqn:Et;
    try (unfold matchAt, selectRe, Plus; cbn [run]; now rewrite Et).
  destruct (isSpace w) eqn:Ew;
    [|unfold matchAt, selectRe, Plus; cbn [run]; now rewrite Et, Ew].
  rewrite (select_run t w t2 Et Ew). cbn zeta.
  destruct (walk (dropWhile isSpace t2)) as [[c rest]|] eqn:E.
  - rewrite (greedy_walk_Some _ t2 _ E). cbn [option_map].
    now rewrite group_selectResult.
  - destruct (dropWhile_split isSpace t2) as (r & Ht2 & Hr & Hd).
    remember (dropWhile isSpace t2) as t3 eqn:Heq. clear Heq. subst t2.
    destruct r as [|w' r].
    + cbn [append]. rewrite Hd, andb_false_r.
      rewrite (starGreedy_fix _ _ _ Hd). now rewrite E.
    + cbn in Hr. apply andb_prop in Hr as [Ew' Hr].
      destruct (isPrefix "from" t3) eqn:Ep.
      * destruct (greedy_run_from (selectResult t) r _ w' Ew' Hr Hd Ep E)
          as [t4 E4].
        rewrite E4. cbn [option_map]. rewrite group_selectResult.
        cbn. now rewrite Ew'.
      * change (String w' r ++ t3) with (String w' (r ++ t3)) at 2.
        cbn [andb]. rewrite greedy_run_None; auto. cbn. now rewrite Ew', Hr.
Qed.

(** Where the group of a SELECT match starts. *)
Lemma select_engine_range (t : string) (w : ascii) (t2 c B : string) :
  dropPrefix "select" t = Some (String w t2) -> isSpace w = true ->
  walk (dropWhile isSpace t2) = Some (c, B) ->
  exists m, matchAt selectRe t = Some m /\ groups m = [(1, (c ++ B, B))].
Proof.
  intros Et Ew E. rewrite (select_run t w t2 Et Ew).
  rewrite (greedy_walk_Some _ t2 _ E). eexists. split; reflexivity.
Qed.

(** *** Text that cannot continue past a barrier character *)

Lemma dropPrefix_barrier (lit d Z : string) (z : ascii) :
  allChars (isNot z) lit = true ->
  dropPrefix lit (d ++ String z Z)
  = option_map (fun r => r ++ String z Z) (dropPrefix lit d).
Proof.
  revert d; induction lit as [|a lit IH]; intros d Hz; [reflexivity|].
  cbn in Hz. apply andb_prop in Hz as [Ha Hz].
  destruct d as [|b d]; cbn [append].
  - rewrite dropPrefix_cons. unfold isNot in Ha.
    now destruct (Ascii.eqb a z).
  - rewrite !dropPrefix_cons. destruct (Ascii.eqb a b); [now apply IH | reflexivity].
Qed.

Lemma isPrefix_barrier (lit d Z : string) (z : ascii) :
  allChars (isNot z) lit = true ->
  isPrefix lit (d ++ String z Z) = isPrefix lit d.
Proof.
  intros Hz. unfold isPrefix. rewrite dropPrefix_barrier by assumption.
  now destruct (dropPrefix lit d).
Qed.

Lemma endsWith_cons (f : ascii -> bool) (x : ascii) (s : string) :
  s <> "" -> endsWith f (String x s) = endsWith f s.
Proof. destruct s; [easy | reflexivity]. Qed.

Lemma endsWith_nonempty (f : ascii -> bool) (s : string) :
  endsWith f s = true -> s <> "".
Proof. now destruct s. Qed.

Lemma endsWith_not_all (d : string) :
  endsWith nonSpace d = true -> allChars isSpace d = false.
Proof.
  induction d as [|x d IH]; [discriminate|].
  destruct d as [|y d].
  - cbn. unfold nonSpace. now destruct (isSpace x).
  - intros H. specialize (IH H). cbn [allChars] in *. rewrite IH.
    apply andb_false_r.
Qed.

Lemma dropWhile_app (f : ascii -> bool) (d Z : string) :
  allChars f d = false -> dropWhile f (d ++ Z) = dropWhile f d ++ Z.
Proof.
  induction d as [|x d IH]; [discriminate|]. cbn.
  destruct (f x); [exact IH | reflexivity].
Qed.

Lemma endsWith_dropWhile (d : string) :
  endsWith nonSpace d = true -> endsWith nonSpace (dropWhile isSpace d) = true.
Proof.
  induction d as [|x d IH]; [discriminate|].
  destruct d as [|y d].
  - cbn. unfold nonSpace. destruct (isSpace x) eqn:E; cbn; [discriminate|].
    unfold nonSpace. now rewrite E.
  - intros H. cbn [dropWhile]. destruct (isSpace x); [now apply IH | exact H].
Qed.

Lemma fromTail_barrier (d Z : string) (z : ascii) :
  endsWith nonSpace d = true ->
  allChars (isNot z) "from" = true ->
  fromTail (d ++ String z Z) = fromTail d.
Proof.
  intros Hd Hz. destruct d as [|w d]; [discriminate|].
  cbn [append]. rewrite !fromTail_cons.
  destruct d as [|y d].
  - cbn in Hd. unfold nonSpace in Hd. now destruct (isSpace w).
  - rewrite dropWhile_app by now apply endsWith_not_all.
    assert (Hne : dropWhile isSpace (String y d) <> "")
      by now apply endsWith_nonempty with nonSpace, endsWith_dropWhile.
    now rewrite isPrefix_barrier.
Qed.

Lemma space_not_in_from (w : ascii) :
  isSpace w = true -> allChars (isNot w) "from" = true.
Proof.
  intros Hw. cbn. unfold isNot.
  repeat match goal with
  | |- context [Ascii.eqb ?a w] =>
      destruct (Ascii.eqb_spec a w) as [<-|_]; [discriminate Hw|]
  end.
  reflexivity.
Qed.

Lemma space_not_in_select (w : ascii) :
  isSpace w = true -> allChars (isNot w) "select" = true.
Proof.
  intros Hw. cbn. unfold isNot.
  repeat match goal with
  | |- context [Ascii.eqb ?a w] =>
      destruct (Ascii.eqb_spec a w) as [<-|_]; [discriminate Hw|]
  end.
  reflexivity.
Qed.

Lemma fromTail_head (B : string) :
  fromTail B = true -> exists w B', B = String w B' /\ isSpace w = true.
Proof.
  destruct B as [|w B']; [discriminate|]. rewrite fromTail_cons.
  intros H. apply andb_prop in H as [Hw _]. eauto.
Qed.

Lemma walk_rest (t c rest : string) :
  walk t = Some (c, rest) -> fromTail rest = true.
Proof.
  revert c; induction t as [|x t IH]; intros c; [discriminate|].
  rewrite walk_cons. destruct (fromTail (String x t)) eqn:Ef.
  - intros H; inversion H; subst. exact Ef.
  - destruct (isDot x); [|discriminate].
    destruct (walk t) as [[c' r']|]; [|discriminate].
    intros H; inversion H; subst. now apply (IH c').
Qed.

Lemma walk_dots (t c rest : string) :
  walk t = Some (c, rest) -> allChars isDot c = true.
Proof.
  revert c; induction t as [|x t IH]; intros c; [discriminate|].
  rewrite walk_cons. destruct (fromTail (String x t)) eqn:Ef.
  - intros H; inversion H; subst. reflexivity.
  - destruct (isDot x) eqn:Ex; [|discriminate].
    destruct (walk t) as [[c' r']|]; [|discriminate].
    intros H; inversion H; subst. cbn. now rewrite Ex, (IH c').
Qed.

Lemma walk_here (B : string) : fromTail B = true -> walk B = Some ("", B).
Proof.
  destruct B as [|w B]; [discriminate|]. intros H. now rewrite walk_cons, H.
Qed.

(** The group ends on a character that is not white space. *)
Lemma walk_ends (c B : string) :
  c <> "" -> walk (c ++ B) = Some (c, B) -> endsWith nonSpace c = true.
Proof.
  induction c as [|x c IH]; [easy|]. intros _ H.
  pose proof (walk_rest _ _ _ H) as HB.
  cbn [append] in H. rewrite walk_cons in H.
  destruct (fromTail (String x (c ++ B))) eqn:Ef; [inversion H|].
  destruct (isDot x); [|discriminate].
  destruct (walk (c ++ B)) as [[c' r']|] eqn:Ew; [|discriminate].
  inversion H; subst c' r'. destruct c as [|y c].
  - cbn [append] in Ef. rewrite fromTail_cons in Ef.
    destruct (fromTail_head B HB) as (w & B' & -> & Hw).
    rewrite fromTail_cons, Hw in HB. cbn [andb] in HB.
    cbn [dropWhile] in Ef. rewrite Hw, HB, andb_true_r in Ef.
    cbn. unfold nonSpace. now rewrite Ef.
  - rewrite endsWith_cons by discriminate. apply IH; [discriminate | reflexivity].
Qed.

(** *** The appended text *)

Lemma allChars_impl (f g : ascii -> bool) (s : string) :
  (forall x, f x = true -> g x = true) ->
  allChars f s = true -> allChars g s = true.
Proof.
  intros Hfg. induction s as [|x s IH]; [reflexivity|]. cbn.
  intros H. apply andb_prop in H as [Hx Hs]. now rewrite (Hfg x Hx), IH.
Qed.

Lemma allChars_suffix (f : ascii -> bool) (d1 d2 : string) :
  allChars f (d1 ++ d2) = true -> allChars f d2 = true.
Proof. rewrite allChars_app. intros H. now apply andb_prop in H. Qed.

Lemma endsWith_app (f : ascii -> bool) (d1 d2 : string) :
  d2 <> "" -> endsWith f (d1 ++ d2) = endsWith f d2.
Proof.
  intros Hd. induction d1 as [|x d1 IH]; [reflexivity|].
  cbn [append]. rewrite endsWith_cons; [exact IH|].
  destruct d1; [exact Hd | discriminate].
Qed.

Lemma space_is_not (z : ascii) (x : ascii) :
  isSpace z = false -> isSpace x = true -> isNot z x = true.
Proof.
  intros Hz Hx. unfold isNot. destruct (Ascii.eqb_spec x z) as [->|]; [|reflexivity].
  congruence.
Qed.

Section Inserted.
Variables name spaces : string.
Hypothesis Hname : In name aggregateNames.
Hypothesis Hspaces : allChars isSpace spaces = true.
Hypothesis Hdots : allChars isDot spaces = true.

Lemma inserted_all (f : ascii -> bool) :
  (forall n, In n aggregateNames -> allChars f n = true) ->
  (forall x, isSpace x = true -> isDot x = true -> f x = true) ->
  allChars f ", " = true -> allChars f "( as " = true ->
  allChars f "_value" = true ->
  allChars f (inserted name spaces) = true.
Proof.
  intros Hn Hs H1 H2 H3. unfold inserted.
  change ("(" ++ " as " ++ name ++ "_value") with ("( as " ++ name ++ "_value").
  rewrite !allChars_app, H1, H2, H3, (Hn name Hname). cbn [andb].
  rewrite andb_true_r. revert Hspaces Hdots. clear - Hs.
  induction spaces as [|x sp IH]; [reflexivity|]. cbn.
  intros H H'. apply andb_prop in H as [Hx H]. apply andb_prop in H' as [Hx' H'].
  now rewrite (Hs x Hx Hx'), IH.
Qed.

Ltac names := intros n Hn; cbn in Hn;
  repeat destruct Hn as [<-|Hn]; try reflexivity; destruct Hn.

Lemma inserted_starts : exists rest, inserted name spaces = String "," rest.
Proof. unfold inserted. cbn. eauto. Qed.

Lemma inserted_dots : allChars isDot (inserted name spaces) = true.
Proof. apply inserted_all; try reflexivity; [names | auto]. Qed.

Lemma inserted_no (z : ascii) :
  isSpace z = false ->
  allChars (isNot z) ", sumcountavgminmax( as _value" = true ->
  allChars (isNot z) (inserted name spaces) = true.
Proof.
  intros Hz H. apply inserted_all.
  - intros n Hn. cbn in Hn.
    repeat rewrite allChars_app in H || cbn [allChars] in H.
    repeat (apply andb_prop in H as [? H]).
    repeat destruct Hn as [<-|Hn]; cbn; try destruct Hn;
      repeat (apply andb_true_intro; split); auto.
  - intros x Hx _. now apply space_is_not.
  - cbn in *. repeat (apply andb_prop in H as [? H]).
    repeat (apply andb_true_intro; split); auto.
  - cbn in *. repeat (apply andb_prop in H as [? H]).
    repeat (apply andb_true_intro; split); auto.
  - cbn in *. repeat (apply andb_prop in H as [? H]).
    repeat (apply andb_true_intro; split); auto.
Qed.

Lemma inserted_ends : endsWith nonSpace (inserted name spaces) = true.
Proof.
  unfold inserted.
  replace (", " ++ name ++ spaces ++ "(" ++ " as " ++ name ++ "_value")
    with ((", " ++ name ++ spaces ++ "(" ++ " as " ++ name) ++ "_value").
  - now rewrite endsWith_app.
  - now rewrite !app_assoc.
Qed.

End Inserted.

(** *** Inserting the appended text before [\s+from] *)

Lemma fromTail_needs_f (d : string) :
  fromTail d = true -> allChars (isNot "f") d = false.
Proof.
  destruct d as [|w d]; [discriminate|]. rewrite fromTail_cons.
  intros H. apply andb_prop in H as [_ H].
  destruct (dropWhile_split isSpace d) as (r & Hd & _ & _).
  unfold isPrefix in H.
  destruct (dropPrefix "from" (dropWhile isSpace d)) as [t|] eqn:E; [|discriminate].
  apply dropPrefix_Some in E. rewrite E in Hd.
  cbn [allChars]. rewrite Hd, allChars_app. cbn.
  now rewrite !andb_false_r.
Qed.

Lemma walk_skip (d Z : string) :
  allChars isDot d = true ->
  (forall d1 d2, d = d1 ++ d2 -> d2 <> "" -> fromTail (d2 ++ Z) = false) ->
  fromTail Z = true ->
  walk (d ++ Z) = Some (d, Z).
Proof.
  intros Hd Hq HZ. induction d as [|x d IH].
  - now apply walk_here.
  - cbn in Hd. apply andb_prop in Hd as [Hx Hd].
    pose proof (Hq "" (String x d) eq_refl ltac:(discriminate)) as Hf.
    cbn [append] in *. rewrite walk_cons, Hf, Hx, IH; [reflexivity | exact Hd |].
    intros d1 d2 -> Hne. now apply (Hq (String x d1) d2).
Qed.

Section Insertion.
Variables name spaces B : string.
Hypothesis Hname : In name aggregateNames.
Hypothesis Hspaces : allChars isSpace spaces = true.
Hypothesis Hdots : allChars isDot spaces = true.
Hypothesis HB : fromTail B = true.

Local Abbreviation ins := (inserted name spaces).

Lemma fromTail_before_B (d : string) :
  endsWith nonSpace d = true -> fromTail (d ++ B) = fromTail d.
Proof.
  intros Hd. destruct (fromTail_head B HB) as (w & B' & -> & Hw).
  apply fromTail_barrier; [exact Hd | now apply space_not_in_from].
Qed.

Lemma fromTail_before_ins (d : string) :
  endsWith nonSpace d = true -> fromTail (d ++ ins ++ B) = fromTail d.
Proof.
  intros Hd. destruct (inserted_starts name spaces) as [rest E].
  rewrite E. cbn [append].
  now apply fromTail_barrier.
Qed.

Lemma walk_inserted : walk (ins ++ B) = Some (ins, B).
Proof.
  apply walk_skip; [now apply inserted_dots | | exact HB].
  intros d1 d2 E Hne.
  assert (He : endsWith nonSpace d2 = true).
  { rewrite <- (endsWith_app nonSpace d1 d2 Hne), <- E.
    now apply inserted_ends. }
  rewrite (fromTail_before_B d2 He).
  destruct (fromTail d2) eqn:Ef; [|reflexivity].
  apply fromTail_needs_f in Ef.
  assert (Hf : allChars (isNot "f") ins = true)
    by now apply inserted_no.
  rewrite E in Hf. apply allChars_suffix in Hf. congruence.
Qed.

(** The group found before the insertion grows by the inserted text. *)
Lemma walk_grows (c : string) :
  c <> "" -> walk (c ++ B) = Some (c, B) ->
  walk (c ++ ins ++ B) = Some (c ++ ins, B).
Proof.
  induction c as [|x c IH]; [easy|]. intros _ H.
  assert (He : endsWith nonSpace (String x c) = true)
    by (apply (walk_ends _ B); [discriminate | exact H]).
  cbn [append] in *. rewrite walk_cons in *.
  change (String x (c ++ B)) with (String x c ++ B) in H.
  change (String x (c ++ ins ++ B)) with (String x c ++ ins ++ B).
  rewrite fromTail_before_B in H by assumption.
  rewrite fromTail_before_ins by assumption.
  destruct (fromTail (String x c)); [inversion H|].
  destruct (isDot x); [|discriminate].
  destruct (walk (c ++ B)) as [[c' r']|] eqn:Ew; [|discriminate].
  inversion H; subst c' r'. destruct c as [|y c].
  - cbn [append]. now rewrite walk_inserted.
  - rewrite IH; [reflexivity | discriminate | reflexivity].
Qed.

(** A walk that fails before the insertion point still fails. *)
Lemma walk_still_fails (d : string) :
  endsWith nonSpace d = true ->
  walk (d ++ B) = None -> walk (d ++ ins ++ B) = None.
Proof.
  induction d as [|x d IH]; [discriminate|]. intros He H.
  cbn [append] in *. rewrite walk_cons in *.
  change (String x (d ++ B)) with (String x d ++ B) in H.
  change (String x (d ++ ins ++ B)) with (String x d ++ ins ++ B).
  rewrite fromTail_before_B in H by assumption.
  rewrite fromTail_before_ins by assumption.
  destruct (fromTail (String x d)); [discriminate|].
  destruct (isDot x); [|reflexivity].
  destruct d as [|y d].
  - cbn [append] in H. now rewrite (walk_here B HB) in H.
  - rewrite endsWith_cons in He by discriminate.
    destruct (walk (String y d ++ B)) as [[c' r']|] eqn:Ew; [discriminate|].
    now rewrite (IH He eq_refl).
Qed.

Lemma startsWith_app (f : ascii -> bool) (d Z : string) :
  d <> "" -> startsWith f (d ++ Z) = startsWith f d.
Proof. now destruct d. Qed.

Lemma selectAt_still_fails (y : string) :
  endsWith nonSpace y = true ->
  selectAt (y ++ B) = None -> selectAt (y ++ ins ++ B) = None.
Proof.
  intros Hy. destruct (fromTail_head B HB) as (w & B' & EB & Hw).
  destruct (inserted_starts name spaces) as [rest Eins].
  unfold selectAt.
  replace (dropPrefix "select" (y ++ B))
    with (option_map (fun r => r ++ B) (dropPrefix "select" y))
    by (rewrite EB; symmetry; apply dropPrefix_barrier;
        now apply space_not_in_select).
  replace (dropPrefix "select" (y ++ ins ++ B))
    with (option_map (fun r => r ++ ins ++ B) (dropPrefix "select" y))
    by (rewrite Eins; symmetry; now apply dropPrefix_barrier).
  destruct (dropPrefix "select" y) as [y1|] eqn:Ey; [|reflexivity].
  apply dropPrefix_Some in Ey. cbn [option_map].
  destruct y1 as [|w1 y2].
  - intros _. rewrite Eins. reflexivity.
  - assert (H1 : endsWith nonSpace (String w1 y2) = true)
      by (rewrite <- (endsWith_app nonSpace "select"), <- Ey;
          [exact Hy | discriminate]).
    cbn [append]. destruct (isSpace w1) eqn:Ew1; [|reflexivity].
    assert (Hne : y2 <> "").
    { intros ->. cbn in H1. unfold nonSpace in H1. now rewrite Ew1 in H1. }
    rewrite endsWith_cons in H1 by assumption.
    rewrite !(dropWhile_app isSpace y2) by now apply endsWith_not_all.
    pose proof (endsWith_dropWhile y2 H1) as Hd.
    rewrite !(startsWith_app isSpace y2) by assumption.
    destruct (walk (dropWhile isSpace y2 ++ B)) as [[c' r']|] eqn:Ewalk;
      [discriminate|].
    rewrite (walk_still_fails _ Hd Ewalk).
    replace (isPrefix "from" (dropWhile isSpace y2 ++ ins ++ B))
      with (isPrefix "from" (dropWhile isSpace y2 ++ B)); [trivial|].
    rewrite Eins, EB. cbn [append].
    rewrite !isPrefix_barrier; auto using space_not_in_from.
Qed.

Lemma selectAt_grows (w : ascii) (r c : string) :
  isSpace w = true -> allChars isSpace r = true ->
  startsWith isSpace c = false -> c <> "" ->
  walk (c ++ B) = Some (c, B) ->
  selectAt ("select" ++ String w (r ++ c ++ ins ++ B)) = Some (c ++ ins).
Proof.
  intros Hw Hr Hc Hne Hwalk. unfold selectAt.
  rewrite dropPrefix_app, Hw. cbn zeta.
  rewrite dropWhile_run; [| exact Hr | now rewrite startsWith_app].
  now rewrite walk_grows.
Qed.

End Insertion.

(** *** The leftmost match *)

Lemma exec_first (r : regex) (s : string) (m : matchResult) :
  exec r s = Some m ->
  exists l t, s = l ++ t /\ matchAt r t = Some m /\
    forall l1 l2, l = l1 ++ l2 -> l2 <> "" -> matchAt r (l2 ++ t) = None.
Proof.
  induction s as [|c s IH]; cbn [exec].
  - destruct (matchAt r "") eqn:E; [|discriminate].
    intros H; inversion H; subst. exists "", "". repeat split; auto.
    intros l1 l2 H12 Hne. destruct l1, l2; try discriminate; easy.
  - destruct (matchAt r (String c s)) eqn:E.
    + intros H; inversion H; subst. exists "", (String c s). repeat split; auto.
      intros l1 l2 H12 Hne. destruct l1, l2; try discriminate; easy.
    + intros H. destruct (IH H) as (l & t & -> & Hm & Hfirst).
      exists (String c l), t. repeat split; auto.
      intros l1 l2 H12 Hne. destruct l1 as [|x l1]; cbn [append] in H12.
      * subst l2. exact E.
      * inversion H12; subst. now apply (Hfirst l1 l2).
Qed.

Lemma exec_here (r : regex) (t : string) (m : matchResult) :
  matchAt r t = Some m -> exec r t = Some m.
Proof. destruct t; cbn [exec]; now intros ->. Qed.

Lemma exec_skip (r : regex) (l t : string) :
  (forall l1 l2, l = l1 ++ l2 -> l2 <> "" -> matchAt r (l2 ++ t) = None) ->
  exec r (l ++ t) = exec r t.
Proof.
  induction l as [|c l IH]; [reflexivity|]. intros H.
  pose proof (H "" (String c l) eq_refl ltac:(discriminate)) as H0.
  cbn [append exec] in *. rewrite H0.
  apply IH. intros l1 l2 -> Hne. now apply (H (String c l1) l2).
Qed.

Lemma select_engine_None (t : string) :
  matchAt selectRe t = None <-> selectAt t = None.
Proof.
  pose proof (select_engine t) as H.
  destruct (matchAt selectRe t), (selectAt t); cbn in H;
    split; intros; congruence.
Qed.

Lemma select_engine_Some (t c : string) :
  selectAt t = Some c <->
  exists m, matchAt selectRe t = Some m /\ group 1 m = Some c.
Proof.
  pose proof (select_engine t) as H.
  destruct (matchAt selectRe t) as [m|], (selectAt t) as [c'|]; cbn in H;
    try discriminate.
  - inversion H as [Hg]. split.
    + intros E; inversion E; subst. eauto.
    + intros (m' & E & Hm). inversion E; subst. congruence.
  - split; [discriminate | intros (m' & E & _); discriminate].
Qed.

Lemma firstGroup_Some (m : option matchResult) (c : string) :
  firstGroup m = Some c <->
  exists r, m = Some r /\ group 1 r = Some c /\ c <> "".
Proof.
  unfold firstGroup. split.
  - destruct m as [r|]; [|discriminate].
    destruct (group 1 r) as [t|] eqn:Eg; [|discriminate].
    destruct t as [|x t]; cbn [nonEmpty]; [discriminate|].
    intros E; inversion E; subst. exists r. split; [reflexivity|].
    split; [exact Eg | discriminate].
  - intros (r & -> & -> & Hne). now destruct c.
Qed.

(** The projection list sits between [select\s+] and [\s+from], and the
    text a rewrite appends to it becomes part of it. *)
Lemma select_decompose (L c from : string) (m : matchResult) :
  exec selectRe L = Some m -> group 1 m = Some c -> c <> "" ->
  groupStart 1 m = Some from ->
  exists A B,
    L = A ++ c ++ B /\ from = c ++ B /\ fromTail B = true /\
    forall name spaces,
      In name aggregateNames ->
      allChars isSpace spaces = true -> allChars isDot spaces = true ->
      firstGroup (exec selectRe (A ++ c ++ inserted name spaces ++ B))
      = Some (c ++ inserted name spaces).
Proof.
  intros Hexec Hg Hne Hfrom.
  apply exec_first in Hexec as (X & T & -> & Hm & Hfirst).
  assert (Hsel : selectAt T = Some c) by (apply select_engine_Some; eauto).
  unfold selectAt in Hsel.
  destruct (dropPrefix "select" T) as [[|w t2]|] eqn:ET; try discriminate.
  destruct (isSpace w) eqn:Hw; [|discriminate]. cbn zeta in Hsel.
  destruct (dropWhile_split isSpace t2) as (r & Et2 & Hr & Hd).
  destruct (walk (dropWhile isSpace t2)) as [[c' B]|] eqn:Hwalk.
  2:{ destruct (isPrefix "from" (dropWhile isSpace t2)
                && startsWith isSpace t2)%bool; [|discriminate].
      inversion Hsel; subst c. now destruct Hne. }
  inversion Hsel; subst c'. clear Hsel.
  destruct (select_engine_range _ _ _ _ _ ET Hw Hwalk) as (m' & Hm' & Hgroups).
  rewrite Hm in Hm'. inversion Hm'; subst m'. clear Hm'.
  unfold groupStart in Hfrom. rewrite Hgroups in Hfrom. cbn in Hfrom.
  inversion Hfrom; subst from. clear Hfrom.
  apply dropPrefix_Some in ET. subst T.
  pose proof (walk_app _ _ _ Hwalk) as Et3.
  pose proof (walk_rest _ _ _ Hwalk) as HB.
  rewrite Et3 in Hwalk, Hd, Et2. subst t2.
  rewrite startsWith_app in Hd by assumption.
  exists (X ++ "select" ++ String w r), B. repeat split; auto.
  - now rewrite !app_assoc.
  - intros name spaces Hname Hsp Hdots.
    replace ((X ++ "select" ++ String w r) ++ c ++ inserted name spaces ++ B)
      with (X ++ "select" ++ String w (r ++ c ++ inserted name spaces ++ B))
      by now rewrite !app_assoc.
    rewrite exec_skip.
    + assert (E : selectAt ("select"
                            ++ String w (r ++ c ++ inserted name spaces ++ B))
                  = Some (c ++ inserted name spaces))
        by now apply selectAt_grows.
      apply select_engine_Some in E as (m' & Em' & Hg').
      rewrite (exec_here _ _ _ Em'). apply firstGroup_Some.
      exists m'. repeat split; auto. now destruct c.
    + intros l1 l2 EX Hl2. apply select_engine_None.
      specialize (Hfirst l1 l2 EX Hl2). apply select_engine_None in Hfirst.
      replace (l2 ++ "select"
                  ++ String w (r ++ c ++ inserted name spaces ++ B))
        with ((l2 ++ "select" ++ String w r ++ c) ++ inserted name spaces ++ B)
        by now rewrite !app_assoc.
      apply selectAt_still_fails; auto.
      * rewrite <- !app_assoc. rewrite endsWith_app by assumption.
        now apply (walk_ends c B).
      * rewrite <- Hfirst. f_equal. now rewrite !app_assoc.
Qed.

(** *** The ORDER BY pattern after an insertion *)

Lemma orderBy_needs_prefix (t : string) :
  dropPrefix "order by" t = None -> matchAt orderByRe t = None.
Proof.
  intros H. unfold matchAt, orderByRe. cbn [run]. now rewrite H.
Qed.

Ltac eat :=
  rewrite dropPrefix_cons;
  match goal with
  | |- (if Ascii.eqb ?a ?x then _ else _) = None =>
      destruct (Ascii.eqb_spec a x) as [<-|_]; [|reflexivity]
  end.

Lemma not_space_letter (a : ascii) :
  isSpace a = true -> In a ["o"; "r"; "d"; "e"; "b"; "y"]%char -> False.
Proof.
  intros Ha Hin. cbn in Hin.
  repeat destruct Hin as [<-|Hin]; try discriminate Ha. exact Hin.
Qed.

(** [order by] cannot begin before [\s+from] and end inside it. *)
Lemma orderBy_straddle (y B : string) :
  fromTail B = true ->
  dropPrefix "order by" y = None ->
  dropPrefix "order by" (y ++ B) = None.
Proof.
  intros HB Hy.
  destruct (fromTail_head B HB) as (w & B' & -> & Hw).
  rewrite fromTail_cons, Hw in HB. cbn [andb] in HB.
  assert (Hletter : forall a, In a ["o"; "r"; "d"; "e"; "b"; "y"]%char ->
                              a <> w)
    by (intros a Ha ->; now apply (not_space_letter w)).
  assert (Hby : dropPrefix "by" B' = None).
  { destruct B' as [|b B'']; [reflexivity|]. eat.
    cbn [dropWhile] in HB. change (isSpace "b") with false in HB.
    unfold isPrefix in HB. rewrite dropPrefix_cons in HB. discriminate. }
  repeat (destruct y as [|? y]; cbn [append];
          [ try (rewrite dropPrefix_cons;
                 match goal with
                 | |- (if Ascii.eqb ?a w then _ else _) = None =>
                     destruct (Ascii.eqb_spec a w) as [E|_];
                     [ try (now destruct (Hletter a ltac:(cbn; tauto)))
                     | reflexivity ]
                 end);
            try exact Hby
          | rewrite dropPrefix_cons in *;
            match goal with
            | |- (if Ascii.eqb ?a ?x then _ else _) = None =>
                destruct (Ascii.eqb_spec a x) as [<-|_]; [|reflexivity]
            end ]).
  discriminate Hy.
Qed.

Lemma app_eq_app (a b c d : string) :
  a ++ b = c ++ d ->
  (exists e, a = c ++ e /\ d = e ++ b) \/ (exists e, c = a ++ e /\ b = e ++ d).
Proof.
  revert c; induction a as [|x a IH]; intros c H.
  - right. exists c. now split.
  - destruct c as [|y c].
    + left. exists (String x a). now split.
    + cbn [append] in H. inversion H; subst.
      destruct (IH c H2) as [(e & -> & ->) | (e & -> & ->)];
        [left | right]; exists e; now split.
Qed.

Lemma dropPrefix_absent (lit y : string) :
  ~ Substring lit y ->
  forall l1 l2, y = l1 ++ l2 -> dropPrefix lit l2 = None.
Proof.
  intros Hno l1 l2 ->. destruct (dropPrefix lit l2) as [r|] eqn:E; [|reflexivity].
  apply dropPrefix_Some in E. destruct Hno. exists l1, r. now rewrite E.
Qed.

Section OrderByStable.
Variables name spaces A c B : string.
Hypothesis Hname : In name aggregateNames.
Hypothesis Hspaces : allChars isSpace spaces = true.
Hypothesis Hdots : allChars isDot spaces = true.
Hypothesis HB : fromTail B = true.
Hypothesis Hord : ~ Substring "order by" (A ++ c).

Local Abbreviation ins := (inserted name spaces).

Lemma orderBy_not_in_ins (l1 l2 : string) :
  ins = l1 ++ l2 -> l2 <> "" -> dropPrefix "order by" (l2 ++ B) = None.
Proof.
  intros E Hne.
  assert (Hr : allChars (isNot "r") l2 = true).
  { apply (allChars_suffix _ l1). rewrite <- E. now apply inserted_no. }
  destruct (fromTail_head B HB) as (w & B' & -> & Hw).
  destruct l2 as [|x l2]; [easy|]. cbn [append]. eat.
  destruct l2 as [|x2 l2]; cbn [append]; eat.
  - discriminate Hw.
  - cbn in Hr. discriminate Hr.
Qed.

Lemma orderBy_stable :
  exec orderByRe (A ++ c ++ ins ++ B) = exec orderByRe (A ++ c ++ B).
Proof.
  transitivity (exec orderByRe B).
  - replace (A ++ c ++ ins ++ B) with (((A ++ c) ++ ins) ++ B)
      by now rewrite !app_assoc.
    apply exec_skip. intros l1 l2 E Hne. apply orderBy_needs_prefix.
    apply app_eq_app in E as [(e & E1 & E2) | (e & E1 & E2)].
    + destruct e as [|x e].
      * cbn [append] in E2. subst l2. now apply (orderBy_not_in_ins "").
      * subst l2.
        destruct (inserted_starts name spaces) as [rest Eins].
        replace ((String x e ++ ins) ++ B)
          with (String x e ++ String "," (rest ++ B))
          by (rewrite Eins, app_assoc; reflexivity).
        rewrite dropPrefix_barrier by reflexivity.
        now rewrite (dropPrefix_absent _ _ Hord l1 (String x e)).
    + now apply (orderBy_not_in_ins e).
  - symmetry. rewrite <- app_assoc.
    apply exec_skip. intros l1 l2 E Hne. apply orderBy_needs_prefix.
    apply orderBy_straddle; [exact HB|].
    now apply (dropPrefix_absent _ _ Hord l1).
Qed.

End OrderByStable.

(** *** Lower case, substitution, single occurrence *)

Lemma toLowerCase_app (a b : string) :
  toLowerCase (a ++ b) = toLowerCase a ++ toLowerCase b.
Proof. induction a as [|x a IH]; cbn; [reflexivity | now rewrite IH]. Qed.

Lemma lowerChar_idem (x : ascii) : lowerChar (lowerChar x) = lowerChar x.
Proof. destruct x as [[] [] [] [] [] [] [] []]; reflexivity. Qed.

Lemma toLowerCase_idem (s : string) : toLowerCase (toLowerCase s) = toLowerCase s.
Proof.
  induction s as [|x s IH]; cbn; [reflexivity|].
  now rewrite lowerChar_idem, IH.
Qed.

Lemma length_toLowerCase (s : string) :
  String.length (toLowerCase s) = String.length s.
Proof. induction s as [|x s IH]; cbn; [reflexivity | now rewrite IH]. Qed.

Lemma app_inv_length (a b a' b' : string) :
  a ++ b = a' ++ b' -> String.length a = String.length a' ->
  a = a' /\ b = b'.
Proof.
  revert a'; induction a as [|x a IH]; intros [|x' a'] H Hl;
    try discriminate Hl; [now split|].
  cbn [append] in H. inversion H; subst. cbn in Hl.
  destruct (IH a' H2) as [-> ->]; [lia | now split].
Qed.

Lemma app_inv_head (l a b : string) : l ++ a = l ++ b -> a = b.
Proof. intros H. now apply app_inv_length in H. Qed.

(** A piece of a lower-case string is in lower case. *)
Lemma lower_piece (q A c B : string) :
  toLowerCase q = A ++ c ++ B -> toLowerCase c = c.
Proof.
  intros H. pose proof (toLowerCase_idem q) as Hi.
  rewrite H, !toLowerCase_app in Hi.
  apply app_inv_length in Hi as [_ Hi]; [|apply length_toLowerCase].
  apply app_inv_length in Hi as [Hi _]; [exact Hi | apply length_toLowerCase].
Qed.

Lemma getSubstitution_cons (m b a t : string) (x : ascii) :
  isNot "$" x = true ->
  getSubstitution m b a (String x t) = String x (getSubstitution m b a t).
Proof.
  destruct x as [[] [] [] [] [] [] [] []]; intros H;
    try reflexivity; discriminate H.
Qed.

Lemma getSubstitution_plain (m b a t : string) :
  allChars (isNot "$") t = true -> getSubstitution m b a t = t.
Proof.
  induction t as [|x t IH]; [reflexivity|]. cbn [allChars].
  intros H. apply andb_prop in H as [Hx Ht].
  now rewrite getSubstitution_cons, IH.
Qed.

Lemma no_dollar (c : string) :
  includes c "$" = false -> allChars (isNot "$") c = true.
Proof.
  intros H. apply includes_false in H.
  induction c as [|x c IH]; [reflexivity|]. cbn [allChars].
  rewrite IH.
  - unfold isNot. destruct (Ascii.eqb_spec x "$") as [->|]; [|reflexivity].
    destruct H. now exists "", c.
  - intros (l & r & ->). apply H. now exists (String x l), r.
Qed.

(** *** The aggregate call of a first pass *)

Lemma aggregate_info (clause : string) (am : matchResult) :
  exec aggregateRe clause = Some am ->
  exists name spaces,
    In name aggregateNames /\ allChars isSpace spaces = true /\
    Substring (name ++ spaces ++ "(") clause /\
    matched am = name ++ spaces ++ "(" /\ groupText 1 am = name.
Proof.
  intros H. apply exec_Some in H as (l & t & -> & H).
  apply aggregate_shape in H as (name & spaces & rest & Hn & Hs & -> & Hm & Hg).
  exists name, spaces. repeat split; auto.
  - exists l, rest. now rewrite !app_assoc.
  - unfold groupText. now rewrite Hg.
Qed.

Lemma orderBy_group_dots (t : string) (m : matchResult) (g : string) :
  matchAt orderByRe t = Some m -> group 1 m = Some g ->
  allChars isDot g = true.
Proof.
  unfold matchAt, orderByRe, Plus. cbn [run].
  destruct (dropPrefix "order by" t) as [[|w t2]|]; try discriminate.
  destruct (isSpace w); [|discriminate].
  intros H. apply starGreedy_Some in H as (r1 & t3 & _ & _ & H).
  apply starLazy_Some in H as (r2 & t4 & -> & Hr2 & H).
  assert (Hg : group 1 m = Some r2).
  { repeat match type of H with
    | orElse _ _ = Some _ => apply orElse_Some in H as [H | [_ H]]
    end;
    match type of H with
    | match ?x with _ => _ end = _ => destruct x; try discriminate
    end; inversion H; unfold group; cbn; now rewrite consumed_app. }
  rewrite Hg. intros E; inversion E; now subst.
Qed.

Lemma allChars_trimStart (f : ascii -> bool) (s : string) :
  allChars f s = true -> allChars f (trimStart s) = true.
Proof.
  induction s as [|x s IH]; [reflexivity|]. cbn [trimStart].
  destruct (isSpace x); [|trivial]. cbn. intros H.
  apply andb_prop in H as [_ H]. now apply IH.
Qed.

Lemma allChars_trimEnd (f : ascii -> bool) (s : string) :
  allChars f s = true -> allChars f (trimEnd s) = true.
Proof.
  induction s as [|x s IH]; [reflexivity|]. cbn [trimEnd allChars].
  intros H. apply andb_prop in H as [Hx H]. specialize (IH H).
  destruct (trimEnd s).
  - destruct (isSpace x); [reflexivity|]. cbn. now rewrite Hx.
  - cbn [allChars] in *. now rewrite Hx.
Qed.

Lemma allChars_Substring (f : ascii -> bool) (p s : string) :
  Substring p s -> allChars f s = true -> allChars f p = true.
Proof.
  intros (l & r & ->). rewrite !allChars_app. intros H.
  apply andb_prop in H as [_ H]. now apply andb_prop in H as [H _].
Qed.

Lemma orderByClause_dots (query clause : string) :
  orderByClause query = Some clause -> allChars isDot clause = true.
Proof.
  unfold orderByClause.
  destruct (firstGroup (exec orderByRe (toLowerCase query))) as [g|] eqn:E;
    [|discriminate].
  intros H; inversion H; subst clause.
  apply firstGroup_Some in E as (m & Hexec & Hg & _).
  apply exec_Some in Hexec as (l & t & _ & Hm).
  unfold trim. apply allChars_trimEnd, allChars_trimStart.
  exact (orderBy_group_dots _ _ _ Hm Hg).
Qed.

Lemma lower_fixed (f : ascii -> bool) (s : string) :
  (forall x, f x = true -> lowerChar x = x) ->
  allChars f s = true -> toLowerCase s = s.
Proof.
  intros Hf. induction s as [|x s IH]; [reflexivity|]. cbn.
  intros H. apply andb_prop in H as [Hx H]. now rewrite (Hf x Hx), IH.
Qed.

Lemma lower_space (x : ascii) : isSpace x = true -> lowerChar x = x.
Proof. destruct x as [[] [] [] [] [] [] [] []]; intros H; try reflexivity; discriminate H. Qed.

Lemma space_not_dollar (x : ascii) : isSpace x = true -> isNot "$" x = true.
Proof. now apply space_is_not. Qed.

(** The text appended to the projection list, as it is written and in
    lower case. *)
Lemma appended_text (name spaces : string) :
  In name aggregateNames -> allChars isSpace spaces = true ->
  let text := ", " ++ (name ++ spaces ++ "(") ++ " AS " ++ name ++ "_value" in
  toLowerCase text = inserted name spaces
  /\ allChars (isNot "$") text = true.
Proof.
  intros Hn Hs text. subst text. split.
  - rewrite !toLowerCase_app, (lower_fixed isSpace spaces lower_space Hs).
    unfold inserted. rewrite !app_assoc.
    cbn in Hn. repeat destruct Hn as [<-|Hn]; try reflexivity; destruct Hn.
  - rewrite !allChars_app, (allChars_impl _ _ _ space_not_dollar Hs).
    cbn in Hn. repeat destruct Hn as [<-|Hn]; try reflexivity; destruct Hn.
Qed.

(** C2, as the specification words it, fails: the replacement is made at the
    first occurrence of the projection-list text in the statement, here
    inside a comment, so the projection list itself never receives the
    aggregate and every pass appends it again. *)
Lemma rewriter_not_idempotent :
  ~ (forall query,
       modifySqlQueryForCharting (modifySqlQueryForCharting query)
       = modifySqlQueryForCharting query).
Proof.
  intros H.
  specialize (H "/* name */ select name from customers order by sum(amount) desc").
  vm_compute in H. discriminate H.
Qed.

Lemma app_inv_tail_length (a b a' b' : string) :
  a ++ b = a' ++ b' -> String.length b = String.length b' ->
  a = a' /\ b = b'.
Proof.
  intros H Hl. apply app_inv_length; [exact H|].
  apply (f_equal String.length) in H. rewrite !length_app in H. lia.
Qed.

Lemma selectClause_projection (query c : string) :
  selectClause query = Some c <->
  exists from, projection query = Some (c, from).
Proof.
  unfold selectClause, projection, firstGroup, group, groupStart.
  destruct (exec selectRe (toLowerCase query)) as [m|];
    [|split; [discriminate | intros [? H]; discriminate]].
  destruct (lookupGroup 1 (groups m)) as [[s s']|];
    [|split; [discriminate | intros [? H]; discriminate]].
  destruct (nonEmpty (consumed s s'));
    [|split; [discriminate | intros [? H]; discriminate]].
  split.
  - intros H; inversion H; subst. eauto.
  - intros [from H]. now inversion H.
Qed.

(** C2, amended.  A second pass returns what the first pass returned,
    for every statement in which the first occurrence of the
    projection-list text is the projection list itself (what follows that
    occurrence is as long as what follows the projection list), the
    projection list has no [$], and no [order by] occurs up to its end:
    the replacement then lands on the projection list, whose new text
    contains the aggregate the second pass looks for. *)
Theorem rewriter_idempotent_when_it_lands (query : string) :
  (forall c from pre post,
      projection query = Some (c, from) ->
      splitFirst c query = Some (pre, post) ->
      String.length (c ++ post) = String.length from /\
      includes c "$" = false /\
      includes (toLowerCase (pre ++ c)) "order by" = false) ->
  modifySqlQueryForCharting (modifySqlQueryForCharting query)
  = modifySqlQueryForCharting query.
Proof.
  intros Hyp. pose proof (modify_cases query) as E.
  destruct (orderByClause query) as [clause|] eqn:Ho; [|now rewrite !E].
  destruct (exec aggregateRe clause) as [am|] eqn:Ha; [|now rewrite !E].
  destruct (selectClause query) as [c|] eqn:Hs; [|now rewrite !E].
  destruct (includes c (matched am)) eqn:Hi; [now rewrite !E|].
  unfold replace in E.
  destruct (splitFirst c query) as [[pre post]|] eqn:Hq; [|now rewrite !E].
  destruct (proj1 (selectClause_projection _ _) Hs) as [from Hp].
  destruct (Hyp c from pre post Hp Hq) as (Hlen & Hdollar & Hfollows).
  clear Hyp.
  destruct (aggregate_info _ _ Ha) as (name & spaces & Hname & Hsp & Hsub & Hm & Hg).
  destruct (appended_text name spaces Hname Hsp) as [Hlow Hplain].
  set (text := ", " ++ (name ++ spaces ++ "(") ++ " AS " ++ name ++ "_value") in *.
  assert (Hdots : allChars isDot spaces = true).
  { pose proof (allChars_Substring isDot _ _ Hsub (orderByClause_dots _ _ Ho)) as Hd.
    rewrite !allChars_app in Hd. apply andb_prop in Hd as [_ Hd].
    now apply andb_prop in Hd as [Hd _]. }
  rewrite Hm, Hg in E.
  rewrite getSubstitution_plain in E.
  2:{ rewrite allChars_app, (no_dollar c Hdollar). exact Hplain. }
  change (c ++ ", " ++ (name ++ spaces ++ "(") ++ " AS " ++ name ++ "_value")
    with (c ++ text) in E.
  (* the statement, in lower case, around its projection list *)
  unfold projection in Hp.
  destruct (exec selectRe (toLowerCase query)) as [m|] eqn:Hexec; [|discriminate].
  destruct (group 1 m) as [c0|] eqn:Hg1; [|discriminate].
  destruct (groupStart 1 m) as [from0|] eqn:Hg2; [|discriminate].
  destruct (nonEmpty c0) eqn:Hne0; [|discriminate].
  inversion Hp; subst c0 from0. clear Hp.
  assert (Hne : c <> "") by (intros ->; discriminate).
  destruct (select_decompose _ _ _ _ Hexec Hg1 Hne Hg2)
    as (A & B & HL & Hfrom & HB & Hins).
  pose proof (lower_piece _ _ _ _ HL) as Hc.
  pose proof (splitFirst_Some _ _ _ _ Hq) as Hquery.
  assert (HL' : toLowerCase query = toLowerCase pre ++ c ++ toLowerCase post)
    by (rewrite Hquery at 1; now rewrite !toLowerCase_app, Hc).
  assert (HAB : toLowerCase pre = A /\ c ++ toLowerCase post = c ++ B).
  { apply app_inv_tail_length; [now rewrite <- HL, <- HL'|].
    rewrite Hfrom in Hlen. rewrite !length_app in *.
    rewrite length_toLowerCase. lia. }
  destruct HAB as [HA HB']. apply app_inv_head in HB'.
  apply includes_false in Hfollows.
  rewrite toLowerCase_app, Hc, HA in Hfollows.
  assert (Hlower : toLowerCase (pre ++ (c ++ text) ++ post)
                   = A ++ c ++ inserted name spaces ++ B).
  { rewrite !toLowerCase_app, Hc, Hlow, HA, HB'. now rewrite !app_assoc. }
  (* the second pass *)
  rewrite E, modify_cases.
  assert (Ho' : orderByClause (pre ++ (c ++ text) ++ post) = Some clause).
  { unfold orderByClause in *. rewrite Hlower.
    rewrite orderBy_stable by assumption. now rewrite <- HL. }
  assert (Hs' : selectClause (pre ++ (c ++ text) ++ post)
                = Some (c ++ inserted name spaces)).
  { unfold selectClause. rewrite Hlower. now apply Hins. }
  rewrite Ho', Ha, Hs'.
  assert (Hin : includes (c ++ inserted name spaces) (matched am) = true).
  { apply includes_true. exists (c ++ ", "), (" as " ++ name ++ "_value").
    rewrite Hm. unfold inserted. now rewrite !app_assoc. }
  now rewrite Hin.
Qed.

Lemma rewriter_idempotent_witness :
  let query :=
    "select customername from payments group by customername order by sum(amount) desc" in
  modifySqlQueryForCharting query
  = "select customername, sum( AS sum_value from payments group by customername order by sum(amount) desc"
  /\ modifySqlQueryForCharting (modifySqlQueryForCharting query)
     = modifySqlQueryForCharting query.
Proof.
  split; [vm_compute; reflexivity|].
  apply rewriter_idempotent_when_it_lands.
  intros c from pre post Hp Hq. vm_compute in Hp. inversion Hp; subst c from.
  vm_compute in Hq. inversion Hq; subst pre post.
  repeat split; vm_compute; reflexivity.
Defined.

End IdempotenceFacts.

(** ** The transformer: statements *)

Module TransformerFacts.
Import JsString Js Transformer Spec.

Lemma assoc_first (k : string) (v : value) (props : list (string * value)) :
  assoc k ((k, v) :: props) = Some v.
Proof. simpl. now rewrite String.eqb_refl. Qed.

Lemma assoc_NoDup (all : list (string * value)) (k : string) (v : value) :
  NoDup (map fst all) -> In (k, v) all -> assoc k all = Some v.
Proof.
  induction all as [|[k' v'] all IH]; simpl; intros Hnd Hin; [easy|].
  inversion Hnd as [|? ? Hnotin Hnd']; subst.
  destruct Hin as [E | Hin].
  - inversion E; subst. now rewrite String.eqb_refl.
  - destruct (String.eqb_spec k k') as [->|_]; [|now apply IH].
    destruct Hnotin. change k' with (fst (k', v)). now apply in_map.
Qed.

Lemma getProp_object (all : list (string * value)) (k : string) (v : value) :
  assoc k all = Some v -> getProp (JObj all) k = Return v.
Proof. simpl. now intros ->. Qed.

Lemma getProp_object_total (all : list (string * value)) (k : string) :
  exists v, getProp (JObj all) k = Return v.
Proof. simpl. destruct (assoc k all); eauto. Qed.

(** The loop, from any point of the scan: what is already chosen stays,
    what is not yet chosen is the first key of its type in what is left. *)
Lemma scanColumns_from (all ps : list (string * value))
      (labelColumn valueColumn : option string) :
  (forall k v, In (k, v) ps -> assoc k all = Some v) ->
  scanColumns (JObj all) (map fst ps) labelColumn valueColumn
  = Return (orDefault labelColumn (firstKeyOfType "string" ps),
            orDefault valueColumn (firstKeyOfType "number" ps)).
Proof.
  revert labelColumn valueColumn.
  induction ps as [|[k v] ps IH]; intros l n Hall.
  - simpl. now destruct l, n.
  - cbn [map fst scanColumns].
    rewrite (getProp_object all k v) by (apply Hall; now left).
    cbn [bind].
    assert (Hps : forall k0 v0, In (k0, v0) ps -> assoc k0 all = Some v0)
      by (intros; apply Hall; now right).
    destruct v, l, n; cbn -[scanColumns];
      try rewrite (IH _ _ Hps); try reflexivity.
Qed.

Lemma scanColumns_spec (props : list (string * value)) :
  NoDup (map fst props) ->
  scanColumns (JObj props) (map fst props) None None
  = Return (firstKeyOfType "string" props, firstKeyOfType "number" props).
Proof.
  intros Hnd. rewrite scanColumns_from; [reflexivity|].
  intros k v Hin. now apply assoc_NoDup.
Qed.

Lemma disjoint_roles (props : list (string * value)) (k : string) :
  NoDup (map fst props) ->
  firstKeyOfType "string" props = Some k ->
  firstKeyOfType "number" props <> Some k.
Proof.
  induction props as [|[k' v] props IH]; simpl; [discriminate|].
  intros Hnd. inversion Hnd as [|? ? Hnotin Hnd']; subst.
  assert (Hin : forall ty, firstKeyOfType ty props = Some k' -> False).
  { intros ty H. apply Hnotin. clear - H.
    induction props as [|[k0 v0] props IH]; simpl in *; [discriminate|].
    destruct (String.eqb (typeof v0) ty); [left; congruence | right; auto]. }
  destruct v; simpl; intros H1 H2;
    try (now apply (IH Hnd' H1));
    inversion H1; inversion H2; subst; eauto.
Qed.

(** Once both columns are chosen the loop returns them whatever keys
    follow. *)
Lemma scanColumns_both (all : list (string * value)) (post : list string)
      (l n : string) :
  scanColumns (JObj all) post (Some l) (Some n) = Return (Some l, Some n).
Proof.
  destruct post as [|k post]; [reflexivity|].
  cbn [scanColumns]. destruct (getProp_object_total all k) as [v ->].
  cbn [bind]. now destruct v.
Qed.

Lemma scanColumns_stops (all : list (string * value)) (pre post : list string)
      (labelColumn valueColumn : option string) (l n : string) :
  scanColumns (JObj all) pre labelColumn valueColumn = Return (Some l, Some n) ->
  scanColumns (JObj all) (pre ++ post) labelColumn valueColumn
  = Return (Some l, Some n).
Proof.
  revert labelColumn valueColumn.
  induction pre as [|k pre IH]; intros l0 n0.
  - simpl. intros H; inversion H; subst. apply scanColumns_both.
  - cbn [scanColumns app]. destruct (getProp_object_total all k) as [v ->].
    cbn [bind].
    destruct v, l0, n0; cbn -[scanColumns]; intros H;
      try (now apply IH); exact H.
Qed.

Lemma column_objects (rest : list value) (name : string) :
  forallb isRowMapping rest = true ->
  exists vs, column rest name = Return vs.
Proof.
  unfold column. induction rest as [|row rest IH]; simpl; [eauto|].
  intros H. apply andb_prop in H as [Hrow Hrest].
  destruct row; try discriminate.
  destruct (getProp_object_total props name) as [v ->]. cbn [bind].
  destruct (IH Hrest) as [vs ->]. cbn [bind]. eauto.
Qed.

Lemma chooseColumns_spec (props : list (string * value)) :
  NoDup (map fst props) ->
  chooseColumns (JObj props) = Return (classified props).
Proof.
  intros Hnd. unfold chooseColumns. simpl objectKeys. cbn [bind].
  rewrite scanColumns_spec by assumption. cbn [bind].
  unfold fallback, classified, orDefault.
  destruct (firstKeyOfType "string" props), (firstKeyOfType "number" props);
    destruct props as [|[k1 v1] [|[k2 v2] props]]; reflexivity.
Qed.

(** C4.  For a non-empty sequence of row-mappings the columns are chosen
    from the first row alone: the loop gives the first key with a string
    value as label and the first key with a number value as value, never
    the same key, and returns as soon as both are found; a role still
    empty takes the first (label) or second (value) declared key; and
    the function returns null exactly when a role is empty after that. *)
Theorem column_classification (props : list (string * value))
        (rest : list value) :
  NoDup (map fst props) ->
  forallb isRowMapping rest = true ->
  scanColumns (JObj props) (map fst props) None None
    = Return (firstKeyOfType "string" props, firstKeyOfType "number" props)
  /\ (forall k, firstKeyOfType "string" props = Some k ->
                firstKeyOfType "number" props <> Some k)
  /\ (forall (pre post : list string) l n,
        map fst props = (pre ++ post)%list ->
        scanColumns (JObj props) pre None None = Return (Some l, Some n) ->
        scanColumns (JObj props) (pre ++ post)%list None None
          = Return (Some l, Some n))
  /\ chooseColumns (JObj props) = Return (classified props)
  /\ (transformDataForChart (JArr (JObj props :: rest)) = Return None
      <-> fst (classified props) = None \/ snd (classified props) = None).
Proof.
  intros Hnd Hrest. repeat split.
  - now apply scanColumns_spec.
  - intros k. now apply disjoint_roles.
  - intros pre post l n _. apply scanColumns_stops.
  - now apply chooseColumns_spec.
  - unfold transformDataForChart.
    rewrite chooseColumns_spec by assumption. cbn [bind].
    destruct (classified props) as [[l|] [n|]]; simpl fst; simpl snd;
      try (intros _; tauto).
    intros H. exfalso.
    destruct (column_objects (JObj props :: rest) l) as [ls Hl];
      [simpl; exact Hrest|].
    destruct (column_objects (JObj props :: rest) n) as [ns Hn];
      [simpl; exact Hrest|].
    rewrite Hl in H. cbn [bind] in H. rewrite Hn in H. cbn [bind] in H.
    discriminate.
  - intros H. unfold transformDataForChart.
    rewrite chooseColumns_spec by assumption. cbn [bind].
    destruct (classified props) as [[l|] [n|]]; simpl in H;
      try reflexivity.
    destruct H; discriminate.
Qed.

Lemma column_classification_witness :
  chooseColumns (JObj [("n", JNum 5); ("flag", JBool true); ("note", JNull)])
  = Return (Some "n", Some "n").
Proof.
  refine (proj1 (proj2 (proj2 (proj2
    (column_classification
       [("n", JNum 5); ("flag", JBool true); ("note", JNull)]
       [JObj [("n", JNum 6); ("flag", JBool false); ("note", JNull)]]
       _ _))))).
  - repeat constructor; simpl; intuition discriminate.
  - reflexivity.
Defined.

(** C5, as the specification words it, fails: a sequence of strings is not a
    sequence of row-mappings, and [["ab"]] is charted, the indices of
    the string taken for its keys. *)
Lemma rows_of_strings_are_charted :
  ~ (forall data,
       (data = JArr [] \/ isResultSet data = false) ->
       transformDataForChart data = Return None).
Proof.
  intros H. specialize (H (JArr [JStr "ab"]) (or_intror eq_refl)).
  vm_compute in H. discriminate.
Qed.

(** C5, amended.  The rows of the specification give the labels Alice
    and Bob and one bar dataset with the data 500 and 300; an empty
    result set, and any input that is not an array, give null. *)
Theorem chart_of_the_example_rows :
  transformDataForChart
    (JArr [JObj [("customerName", JStr "Alice"); ("total", JNum 500)];
           JObj [("customerName", JStr "Bob"); ("total", JNum 300)]])
  = Return (Some
      {| type := "bar";
         labels := [JStr "Alice"; JStr "Bob"];
         datasets :=
           [ {| label := "total";
                data := [JNum 500; JNum 300];
                backgroundColor := "rgba(75, 192, 192, 0.6)";
                borderColor := "rgba(75, 192, 192, 1)";
                borderWidth := 1 |} ] |})
  /\ (forall data,
        (data = JArr [] \/ isArray data = false) ->
        transformDataForChart data = Return None).
Proof.
  split; [reflexivity|].
  intros data [-> | H]; [reflexivity|].
  destruct data; try reflexivity. discriminate.
Qed.

Lemma chart_of_the_example_rows_witness :
  transformDataForChart (JArr []) = Return None
  /\ transformDataForChart (JObj [("total", JNum 500)]) = Return None.
Proof.
  split.
  - apply (proj2 chart_of_the_example_rows (JArr [])). left. reflexivity.
  - apply (proj2 chart_of_the_example_rows (JObj [("total", JNum 500)])).
    right. reflexivity.
Defined.

Lemma column_single (k : string) (vs : list value) :
  column (map (fun v => JObj [(k, v)]) vs) k = Return vs.
Proof.
  unfold column. induction vs as [|v vs IH]; [reflexivity|].
  cbn [map mapM]. rewrite (getProp_object _ k v (assoc_first k v [])).
  cbn [bind]. now rewrite IH.
Qed.

(** C10.  When every row has the one key [k] and the first row holds a
    number there, the loop takes [k] as value column, the fallback takes
    it as label column too, and the series is not null: its labels and
    its data are the same sequence, the values of [k] row by row. *)
Theorem single_numeric_column (k : string) (x : float) (vs : list value) :
  chooseColumns (JObj [(k, JNum x)]) = Return (Some k, Some k)
  /\ transformDataForChart
       (JArr (JObj [(k, JNum x)] :: map (fun v => JObj [(k, v)]) vs))
     = Return (Some
         {| type := "bar";
            labels := JNum x :: vs;
            datasets :=
              [ {| label := if nonEmpty k then k else "Value";
                   data := JNum x :: vs;
                   backgroundColor := "rgba(75, 192, 192, 0.6)";
                   borderColor := "rgba(75, 192, 192, 1)";
                   borderWidth := 1 |} ] |}).
Proof.
  assert (Hc : chooseColumns (JObj [(k, JNum x)]) = Return (Some k, Some k)).
  { unfold chooseColumns. cbn [objectKeys ownProps map fst bind scanColumns].
    rewrite (getProp_object _ k (JNum x) (assoc_first k _ [])). reflexivity. }
  split; [exact Hc|].
  unfold transformDataForChart. rewrite Hc. cbn [bind].
  change (JObj [(k, JNum x)] :: map (fun v => JObj [(k, v)]) vs)
    with (map (fun v => JObj [(k, v)]) (JNum x :: vs)).
  rewrite column_single. reflexivity.
Qed.

End TransformerFacts.

(** ** The normalizer: statements *)

Module NormalizerFacts.
Import JsString Js Normalizer Spec.

(** C7.  The row of the specification is normalized as stated, and a
    BigInt that is the value of a property is converted, at any depth
    reached through properties and array elements.  A BigInt that is an
    element of an array, or the argument itself, is returned as it is,
    since the function returns whatever is not an object; and an object
    that is not a plain one, such as a [Date], is replaced by an empty
    object. *)
Theorem normalizer_on_examples :
  convertBigIntToString (JObj [("id", JBigInt 9007199254740993)])
    = JObj [("id", JStr "9007199254740993")]
  /\ (forall key z,
        convertBigIntToString (JObj [(key, JBigInt z)])
        = JObj [(key, JStr (bigintToString z))])
  /\ convertBigIntToString
       (JArr [JObj [("a", JObj [("b", JArr [JObj [("id", JBigInt (-7))]])])]])
     = JArr [JObj [("a", JObj [("b", JArr [JObj [("id", JStr "-7")]])])]]
  /\ (forall z,
        convertBigIntToString (JBigInt z) = JBigInt z
        /\ convertBigIntToString (JArr [JBigInt z]) = JArr [JBigInt z]
        /\ convertBigIntToString (JArr [JObj [("ids", JArr [JBigInt z])]])
           = JArr [JObj [("ids", JArr [JBigInt z])]]
        /\ hasBigInt (convertBigIntToString
                        (JArr [JObj [("ids", JArr [JBigInt z])]])) = true)
  /\ (forall key time,
        convertBigIntToString (JArr [JObj [(key, JDate time)]])
        = JArr [JObj [(key, JObj [])]]).
Proof. repeat split. Qed.

End NormalizerFacts.

(** ** The handler: statements *)

Module PipelineFacts.
Import JsString Js Rewriter Normalizer Transformer Pipeline Spec StringFacts.

Lemma eqCodeUnits_eq (xs ys : list N) :
  eqCodeUnits xs ys = true <-> xs = ys.
Proof.
  revert ys; induction xs as [|x xs IH]; intros [|y ys]; simpl;
    try (split; [discriminate | discriminate]); [tauto|].
  rewrite andb_true_iff, N.eqb_eq, IH. split.
  - now intros [-> ->].
  - intros H; inversion H; auto.
Qed.

Lemma keyword_found (question : string) :
  containsChartKeyword (JStr question) = Return true <->
  exists keyword, In keyword chartKeywords /\ Substring keyword (toLowerCase question).
Proof.
  change (containsChartKeyword (JStr question))
    with (Return (existsb (fun keyword => includes (toLowerCase question) keyword)
                    chartKeywords)).
  split.
  - intros H.
    assert (H' : existsb (fun keyword => includes (toLowerCase question) keyword)
                   chartKeywords = true) by congruence.
    apply existsb_exists in H' as (kw & Hin & Hk).
    exists kw. split; [exact Hin | now apply includes_true].
  - intros (kw & Hin & Hk). f_equal. apply existsb_exists.
    exists kw. split; [exact Hin | now apply includes_true].
Qed.

Lemma keyword_absent (question : string) :
  containsChartKeyword (JStr question) = Return false <->
  forall keyword, In keyword chartKeywords -> ~ Substring keyword (toLowerCase question).
Proof.
  destruct (containsChartKeyword (JStr question)) as [[|]|e] eqn:E.
  - apply keyword_found in E as (kw & Hin & Hk).
    split; [discriminate|]. intros H. now destruct (H kw Hin).
  - split; [|reflexivity]. intros _ kw Hin Hk.
    assert (E' : containsChartKeyword (JStr question) = Return true)
      by (apply keyword_found; eauto).
    congruence.
  - discriminate E.
Qed.

Lemma decideChart_keyword (w : world) (userQuery : value) :
  containsChartKeyword userQuery = Return true ->
  decideChart w userQuery = ([], Return true).
Proof. unfold decideChart. now intros ->. Qed.

Lemma decideChart_model (w : world) (userQuery : value) :
  containsChartKeyword userQuery = Return false ->
  decideChart w userQuery
  = ([ModelCall (ChartPrompt userQuery)],
     Return match generateContent w (ChartPrompt userQuery) with
            | Return text => isYes text
            | Throw _ => false
            end).
Proof.
  unfold decideChart, shouldGenerateChart, call. intros ->. simpl.
  now destruct (generateContent w (ChartPrompt userQuery)).
Qed.

(** With the mandatory stages done, what is left is the chart decision
    and the chart step. *)
Lemma processQuery_mandatory (w : world) (userQuery : value)
      (sqlQuery : string) (result : value) (explanationText : string) :
  MandatoryStages w userQuery sqlQuery result explanationText ->
  exists pre,
    processQuery w userQuery
    = ((pre ++ fst (decideChart w userQuery))%list,
       bind (snd (decideChart w userQuery)) (fun generateChart =>
         Return (JObj [("query", JStr sqlQuery);
                       ("result", result);
                       ("summary", JStr (trim explanationText));
                       ("chart", chartValue (chartStep generateChart result))]))).
Proof.
  intros (sch & text & raw & Hs & Hg & -> & Hq & -> & Hb & Hx).
  exists [SchemaFetch;
          ModelCall (SqlPrompt userQuery (dbSchemaText sch));
          Execute (modifySqlQueryForCharting (cleanSql text));
          ModelCall (ExplanationPrompt userQuery
                       (modifySqlQueryForCharting (cleanSql text))
                       (convertBigIntToString raw))].
  unfold processQuery, getSqlQueryFromGemini, jsonStringifiable, call, lift.
  rewrite Hs. cbn [bindM]. rewrite Hg. cbn [bindM tryCatch ret].
  rewrite Hq. cbn [bindM]. rewrite Hb. cbn [bindM]. rewrite Hx. cbn [bindM].
  destruct (decideChart w userQuery) as [t [g|e]]; cbn [bindM ret fst snd bind].
  - rewrite !List.app_nil_r. reflexivity.
  - reflexivity.
Qed.

Lemma postQuery_runs (w : world) (reqBody : list (string * value))
      (userQuery : value) :
  assoc "query" reqBody = Some userQuery ->
  truthy userQuery = true ->
  postQuery w reqBody
  = match processQuery w userQuery with
    | (t, Return payload) => (t, {| status := 200; body := payload |})
    | (t, Throw error) =>
        (t, {| status := 500;
               body := JObj [("error", JStr (errorMessage error))] |})
    end.
Proof. unfold postQuery. now intros -> ->. Qed.

Lemma errorMessage_nonEmpty (e : exn) : errorMessage e <> "".
Proof.
  unfold errorMessage. destruct e as [m]. simpl.
  destruct m; simpl; discriminate.
Qed.

(** A failed chart decision or chart step leaves a complete response
    with [chart: null]. *)
Lemma chart_failure_response (w : world) (reqBody : list (string * value))
      (userQuery : value) (sqlQuery : string) (result : value)
      (explanationText : string) :
  assoc "query" reqBody = Some userQuery ->
  truthy userQuery = true ->
  MandatoryStages w userQuery sqlQuery result explanationText ->
  ChartFailure w userQuery result ->
  exists t,
    postQuery w reqBody
    = (t, {| status := 200;
             body := JObj [("query", JStr sqlQuery);
                           ("result", result);
                           ("summary", JStr (trim explanationText));
                           ("chart", JNull)] |}).
Proof.
  intros Hq Ht Hm Hc.
  rewrite (postQuery_runs w reqBody userQuery Hq Ht).
  destruct (processQuery_mandatory _ _ _ _ _ Hm) as [pre ->].
  destruct Hc as [[Hk [e He]] | (t & e & Hd & Hx)].
  - rewrite (decideChart_model w userQuery Hk), He. cbn. eauto.
  - rewrite Hd. cbn [fst snd bind]. unfold chartStep. rewrite Hx. cbn. eauto.
Qed.

Lemma fatal_failure_throws (w : world) (userQuery : value) (e : exn) :
  FatalFailure w userQuery e ->
  exists t, processQuery w userQuery = (t, Throw e).
Proof.
  unfold processQuery, getSqlQueryFromGemini, jsonStringifiable, call, lift.
  intros [e' Hs | sch e' Hs Hg | sch text e' Hs Hg Hq
          | sch text raw e' Hs Hg Hq Hb Hx];
    rewrite Hs; cbn [bindM tryCatch ret throw]; eauto;
    rewrite Hg; cbn [bindM tryCatch ret throw]; eauto;
    rewrite Hq; cbn [bindM tryCatch ret throw]; eauto;
    rewrite Hb; cbn [bindM]; rewrite Hx; cbn [bindM]; eauto.
Qed.

(** C8.  A body without a [query] field, or with an empty one (the empty
    string, or any other value that is false as a condition), is answered
    with status 400 and the body [{error: "Query is required"}], and no
    call is made: no schema fetch, no model call, no execution. *)
Theorem missing_query_is_rejected (w : world)
        (reqBody : list (string * value)) :
  assoc "query" reqBody = None
  \/ (exists v, assoc "query" reqBody = Some v /\ truthy v = false) ->
  postQuery w reqBody
  = ([], {| status := 400;
            body := JObj [("error", JStr "Query is required")] |}).
Proof.
  unfold postQuery. intros [-> | (v & -> & Hv)]; [reflexivity|].
  now rewrite Hv.
Qed.

(** C6.  The chart decision, first matching rule first: a question that
    contains one of the keywords (in any letter case) is decided yes
    without a model call; otherwise the model is asked once and the
    decision is yes exactly when its answer, trimmed and upper-cased, is
    [YES]; and if that call fails the decision is no, and the response
    is still sent, with status 200, the statement, the result, the
    summary and [chart: null]. *)
Theorem chart_decision_order (w : world) (question : string) :
  ((exists keyword,
       In keyword chartKeywords /\ Substring keyword (toLowerCase question)) ->
   decideChart w (JStr question) = ([], Return true))
  /\ ((forall keyword,
         In keyword chartKeywords -> ~ Substring keyword (toLowerCase question)) ->
      (forall text,
          generateContent w (ChartPrompt (JStr question)) = Return text ->
          exists yes,
            decideChart w (JStr question)
            = ([ModelCall (ChartPrompt (JStr question))], Return yes)
            /\ (yes = true <-> toUpperCase (trim text) = codeUnits "YES"))
      /\ (forall e,
            generateContent w (ChartPrompt (JStr question)) = Throw e ->
            decideChart w (JStr question)
            = ([ModelCall (ChartPrompt (JStr question))], Return false)
            /\ (forall sqlQuery result explanationText,
                  question <> "" ->
                  MandatoryStages w (JStr question) sqlQuery result explanationText ->
                  exists t,
                    postQuery w [("query", JStr question)]
                    = (t, {| status := 200;
                             body := JObj [("query", JStr sqlQuery);
                                           ("result", result);
                                           ("summary", JStr (trim explanationText));
                                           ("chart", JNull)] |})))).
Proof.
  split.
  - intros H. apply decideChart_keyword. now apply keyword_found.
  - intros H. apply keyword_absent in H. split.
    + intros text Ht. exists (isYes text).
      rewrite (decideChart_model w _ H), Ht. split; [reflexivity|].
      apply eqCodeUnits_eq.
    + intros e He. rewrite (decideChart_model w _ H), He.
      split; [reflexivity|].
      intros sqlQuery result explanationText Hne Hm.
      apply (chart_failure_response w _ (JStr question) sqlQuery result
               explanationText); auto.
      * now destruct question.
      * left. split; [exact H | eauto].
Qed.

(** C9.  When a fatal stage fails (schema fetch, SQL generation, SQL
    execution or summarization) the response has status 500 and a
    non-empty [error] text, the failure's message or the fallback, and
    none of the fields [query], [result], [summary]; when the chart
    decision or the chart transform fails, the response has status 200
    with [query], [result] and [summary], and [chart] is null. *)
Theorem fatal_and_chart_failures (w : world)
        (reqBody : list (string * value)) (userQuery : value) :
  assoc "query" reqBody = Some userQuery ->
  truthy userQuery = true ->
  (forall e,
      FatalFailure w userQuery e ->
      exists t r,
        postQuery w reqBody = (t, r)
        /\ status r = 500
        /\ field "error" (body r) = Some (JStr (errorMessage e))
        /\ errorMessage e <> ""
        /\ (nonEmpty (message e) = true -> errorMessage e = message e)
        /\ field "query" (body r) = None
        /\ field "result" (body r) = None
        /\ field "summary" (body r) = None)
  /\ (forall sqlQuery result explanationText,
        MandatoryStages w userQuery sqlQuery result explanationText ->
        ChartFailure w userQuery result ->
        exists t r,
          postQuery w reqBody = (t, r)
          /\ status r = 200
          /\ field "query" (body r) = Some (JStr sqlQuery)
          /\ field "result" (body r) = Some result
          /\ field "summary" (body r) = Some (JStr (trim explanationText))
          /\ field "chart" (body r) = Some JNull).
Proof.
  intros Hq Ht. split.
  - intros e Hf. apply fatal_failure_throws in Hf as [t Hp].
    rewrite (postQuery_runs w reqBody userQuery Hq Ht), Hp.
    eexists _, _. split; [reflexivity|]. cbn.
    repeat split; auto using errorMessage_nonEmpty.
    unfold errorMessage. now intros ->.
  - intros sqlQuery result explanationText Hm Hc.
    destruct (chart_failure_response w reqBody userQuery _ _ _ Hq Ht Hm Hc)
      as [t ->].
    eexists _, _. split; [reflexivity|]. cbn. repeat split.
Qed.

Lemma missing_query_is_rejected_witness :
  postQuery Scenarios.modelSaysYes []
  = ([], {| status := 400;
            body := JObj [("error", JStr "Query is required")] |})
  /\ postQuery Scenarios.modelSaysYes [("query", JStr "")]
     = ([], {| status := 400;
               body := JObj [("error", JStr "Query is required")] |}).
Proof.
  split.
  - apply (missing_query_is_rejected Scenarios.modelSaysYes []).
    left. reflexivity.
  - apply (missing_query_is_rejected Scenarios.modelSaysYes [("query", JStr "")]).
    right. exists (JStr ""). split; reflexivity.
Defined.

Lemma chart_decision_order_witness :
  decideChart Scenarios.modelSaysYes (JStr "plot total sales by customer")
    = ([], Return true)
  /\ (exists yes,
        decideChart Scenarios.modelSaysYes (JStr "show me total sales by customer")
        = ([ModelCall (ChartPrompt (JStr "show me total sales by customer"))],
           Return yes)
        /\ (yes = true <->
            toUpperCase
              (trim (" yes" ++ String (ascii_of_N 10) "")) = codeUnits "YES"))
  /\ (exists t,
        postQuery Scenarios.chartCallFails
          [("query", JStr "show me total sales by customer")]
        = (t, {| status := 200;
                 body := JObj [("query", JStr Scenarios.salesSql);
                               ("result", Scenarios.salesRows);
                               ("summary", JStr "Alice paid 500 and Bob paid 300.");
                               ("chart", JNull)] |})).
Proof.
  assert (Habsent : forall keyword,
             In keyword chartKeywords ->
             ~ Substring keyword (toLowerCase "show me total sales by customer"))
    by (apply keyword_absent; reflexivity).
  split; [|split].
  - apply (proj1 (chart_decision_order Scenarios.modelSaysYes
                    "plot total sales by customer")).
    exists "plot". split; [simpl; tauto|].
    apply includes_true. reflexivity.
  - apply (proj1 (proj2 (chart_decision_order Scenarios.modelSaysYes
                           "show me total sales by customer") Habsent)).
    reflexivity.
  - apply (proj2 (proj2 (proj2 (chart_decision_order Scenarios.chartCallFails
                           "show me total sales by customer") Habsent)
                   (Error "503 Service Unavailable") eq_refl)
             Scenarios.salesSql Scenarios.salesRows
             " Alice paid 500 and Bob paid 300. ").
    + discriminate.
    + exists Scenarios.classicmodels,
             ("```sql" ++ Scenarios.salesSql ++ "```"), Scenarios.salesRows.
      repeat split.
Defined.

Lemma fatal_and_chart_failures_witness :
  (exists t r,
      postQuery Scenarios.executionFails [("query", JStr "top customers")] = (t, r)
      /\ status r = 500
      /\ field "error" (body r) = Some (JStr "You have an error in your SQL syntax")
      /\ field "result" (body r) = None)
  /\ (exists t r,
        postQuery Scenarios.nullRow [("query", JStr "plot top customers")] = (t, r)
        /\ status r = 200
        /\ field "result" (body r) = Some (JArr [JNull])
        /\ field "chart" (body r) = Some JNull).
Proof.
  split.
  - destruct (proj1 (fatal_and_chart_failures Scenarios.executionFails
                       [("query", JStr "top customers")] (JStr "top customers")
                       eq_refl eq_refl)
                (Error "You have an error in your SQL syntax"))
      as (t & r & Hp & Hs & He & _ & _ & _ & Hr & _).
    + apply (ExecutionFails _ _ Scenarios.classicmodels
               ("```sql" ++ Scenarios.salesSql ++ "```")); reflexivity.
    + exists t, r. repeat split; assumption.
  - destruct (proj2 (fatal_and_chart_failures Scenarios.nullRow
                       [("query", JStr "plot top customers")]
                       (JStr "plot top customers") eq_refl eq_refl)
                Scenarios.salesSql (JArr [JNull])
                " Alice paid 500 and Bob paid 300. ")
      as (t & r & Hp & Hs & _ & Hr & _ & Hc).
    + exists Scenarios.classicmodels,
             ("```sql" ++ Scenarios.salesSql ++ "```"), (JArr [JNull]).
      repeat split.
    + right. exists [], (typeError "Cannot convert undefined or null to object").
      split; reflexivity.
    + exists t, r. repeat split; assumption.
Defined.

End PipelineFacts.

(** ** The schema introspector: statements *)

Module IntrospectorFacts.
Import JsString Js Pipeline Spec Introspector Shapes StringFacts.

Lemma lookup_update {A} (t k : string) (f : A -> A) (props : list (string * A)) :
  lookup t (update k f props)
  = if String.eqb t k then option_map f (lookup t props) else lookup t props.
Proof.
  induction props as [|[k' v] props IH]; cbn [update lookup].
  - now destruct (String.eqb t k).
  - destruct (String.eqb_spec k k') as [->|Hk]; cbn [lookup].
    + destruct (String.eqb_spec t k') as [->|Ht]; [reflexivity|].
      reflexivity.
    + rewrite IH. destruct (String.eqb_spec t k') as [->|Ht].
      * destruct (String.eqb_spec k' k) as [->|]; [now destruct Hk | reflexivity].
      * reflexivity.
Qed.

Lemma lookup_define {A} (t k : string) (v : A) (props : list (string * A)) :
  lookup k props = None ->
  lookup t (define k v props)
  = if String.eqb t k then Some v else lookup t props.
Proof.
  induction props as [|[k' v'] props IH]; cbn [define lookup]; [reflexivity|].
  destruct (String.eqb_spec k k') as [->|Hk]; [discriminate|]. intros Hnone.
  assert (Hhere : lookup t ((k, v) :: (k', v') :: props)
                  = if String.eqb t k then Some v
                    else if String.eqb t k' then Some v' else lookup t props)
    by reflexivity.
  assert (Hlater : lookup t ((k', v') :: define k v props)
                  = if String.eqb t k then Some v
                    else if String.eqb t k' then Some v' else lookup t props).
  { cbn [lookup]. rewrite (IH Hnone).
    destruct (String.eqb_spec t k') as [->|]; [|reflexivity].
    destruct (String.eqb_spec k' k) as [->|]; [now destruct Hk | reflexivity]. }
  destruct (arrayIndex k) as [n|]; [destruct (arrayIndex k') as [n'|]|];
    [destruct (N.ltb n n')| |]; assumption.
Qed.

(** What a row does to the entry of each table. *)
Lemma addRow_lookup (tables : schema) (row : catalogRow) (t : string) :
  inherited (TABLE_NAME row) = false ->
  exists tables',
    addRow tables row = Return tables' /\
    lookup t tables'
    = if String.eqb t (TABLE_NAME row)
      then Some (match lookup t tables with
                 | Some columns => columns ++ [columnOf row]
                 | None => [columnOf row]
                 end)%list
      else lookup t tables.
Proof.
  intros Hi. unfold addRow. rewrite Hi. eexists. split; [reflexivity|].
  rewrite lookup_update.
  destruct (String.eqb_spec t (TABLE_NAME row)) as [->|Ht].
  - destruct (lookup (TABLE_NAME row) tables) as [columns|] eqn:E.
    + now rewrite E.
    + rewrite (lookup_define _ _ _ _ E), String.eqb_refl. reflexivity.
  - destruct (lookup (TABLE_NAME row) tables) as [columns|] eqn:E;
      [reflexivity|].
    rewrite (lookup_define _ _ _ _ E).
    now destruct (String.eqb_spec t (TABLE_NAME row)).
Qed.

Lemma forEach_lookup (rows : list catalogRow) (tables : schema) :
  (forall row, In row rows -> inherited (TABLE_NAME row) = false) ->
  exists tables',
    forEach addRow tables rows = Return tables' /\
    forall t,
      lookup t tables'
      = match lookup t tables, columnsOf t rows with
        | Some columns, more => Some (columns ++ more)%list
        | None, [] => None
        | None, more => Some more
        end.
Proof.
  revert tables; induction rows as [|row rows IH]; intros tables Hi.
  - exists tables. split; [reflexivity|]. intros t. cbn.
    destruct (lookup t tables); [now rewrite List.app_nil_r | reflexivity].
  - assert (Hrow : inherited (TABLE_NAME row) = false) by (apply Hi; now left).
    destruct (addRow_lookup tables row "" Hrow) as (tables1 & E1 & _).
    destruct (IH tables1 (fun r Hr => Hi r (or_intror Hr))) as (tables' & E & Hl).
    exists tables'. split; [cbn [forEach]; now rewrite E1|].
    intros t. rewrite Hl.
    destruct (addRow_lookup tables row t Hrow) as (tables2 & E2 & Hl2).
    rewrite E1 in E2. inversion E2; subst tables2. clear E2. rewrite Hl2.
    unfold columnsOf. cbn [filter]. rewrite (String.eqb_sym (TABLE_NAME row) t).
    destruct (String.eqb t (TABLE_NAME row)); cbn [map]; [|reflexivity].
    destruct (lookup t tables) as [columns|]; [|reflexivity].
    now rewrite <- List.app_assoc.
Qed.

Lemma lookup_None {A} (k : string) (props : list (string * A)) :
  lookup k props = None <-> ~ In k (map fst props).
Proof.
  induction props as [|[k' v] props IH]; cbn [lookup map fst In]; [tauto|].
  destruct (String.eqb_spec k k') as [->|Hk].
  - split; [discriminate | intros H; destruct H; now left].
  - rewrite IH. split; [intros H [E|Hin]; [now destruct Hk | tauto] | tauto].
Qed.

Lemma update_keys {A} (k : string) (f : A -> A) (props : list (string * A)) :
  map fst (update k f props) = map fst props.
Proof.
  induction props as [|[k' v] props IH]; cbn [update map fst]; [reflexivity|].
  destruct (String.eqb k k'); cbn [map fst]; [reflexivity | now rewrite IH].
Qed.

Lemma define_In {A} (k : string) (v : A) (props : list (string * A)) (x : string) :
  In x (map fst (define k v props)) <-> x = k \/ In x (map fst props).
Proof.
  induction props as [|[k' v'] props IH]; cbn [define map fst In].
  - split; intros [H|H]; auto.
  - assert (Hlater : In x (map fst ((k', v') :: define k v props))
                     <-> x = k \/ k' = x \/ In x (map fst props))
      by (cbn [map fst In]; rewrite IH; tauto).
    assert (Hhere : In x (map fst ((k, v) :: (k', v') :: props))
                    <-> x = k \/ k' = x \/ In x (map fst props))
      by (cbn [map fst In]; intuition congruence).
    destruct (arrayIndex k) as [n|]; [destruct (arrayIndex k') as [n'|]|];
      [destruct (N.ltb n n')| |]; assumption.
Qed.

Lemma define_NoDup {A} (k : string) (v : A) (props : list (string * A)) :
  NoDup (map fst props) -> ~ In k (map fst props) ->
  NoDup (map fst (define k v props)).
Proof.
  induction props as [|[k' v'] props IH]; cbn [define map fst In].
  - intros _ _. constructor; [easy | constructor].
  - intros Hnd Hk. inversion Hnd as [|? ? Hk' Hnd']; subst.
    assert (Hhere : NoDup (map fst ((k, v) :: (k', v') :: props))).
    { cbn [map fst]. constructor; [cbn [In]; tauto | exact Hnd]. }
    assert (Hlater : NoDup (map fst ((k', v') :: define k v props))).
    { cbn [map fst]. constructor.
      - rewrite define_In. intros [->|Hin]; tauto.
      - apply IH; tauto. }
    destruct (arrayIndex k) as [n|]; [destruct (arrayIndex k') as [n'|]|];
      [destruct (N.ltb n n')| |]; assumption.
Qed.

Lemma addRow_NoDup (tables tables' : schema) (row : catalogRow) :
  NoDup (map fst tables) -> addRow tables row = Return tables' ->
  NoDup (map fst tables').
Proof.
  unfold addRow. destruct (inherited (TABLE_NAME row)); [discriminate|].
  intros Hnd H. inversion H; subst tables'. rewrite update_keys.
  destruct (lookup (TABLE_NAME row) tables) eqn:E; [exact Hnd|].
  apply define_NoDup; [exact Hnd | now apply lookup_None].
Qed.

Lemma forEach_NoDup (rows : list catalogRow) (tables tables' : schema) :
  NoDup (map fst tables) -> forEach addRow tables rows = Return tables' ->
  NoDup (map fst tables').
Proof.
  revert tables; induction rows as [|row rows IH]; intros tables Hnd;
    cbn [forEach].
  - intros H. now inversion H; subst.
  - destruct (addRow tables row) as [tables1|e] eqn:E; cbn [bind];
      [|discriminate].
    apply IH. exact (addRow_NoDup _ _ _ Hnd E).
Qed.

(** A row whose table is named like a member of [Object.prototype] stops
    the loop; no other row does. *)
Lemma forEach_throws (rows : list catalogRow) (tables : schema) :
  (exists row, In row rows /\ inherited (TABLE_NAME row) = true) <->
  (exists e, forEach addRow tables rows = Throw e).
Proof.
  revert tables; induction rows as [|row rows IH]; intros tables;
    cbn [forEach].
  - split; [intros (row & [] & _) | intros [e H]; discriminate].
  - unfold addRow at 1. destruct (inherited (TABLE_NAME row)) eqn:Hi;
      cbn [bind].
    + split; [eauto | intros _; exists row; split; [now left | exact Hi]].
    + rewrite <- IH. split.
      * intros (r & [<-|Hin] & Hr); [congruence | eauto].
      * intros (r & Hin & Hr). exists r. split; [now right | exact Hr].
Qed.

Lemma define_ordinary {A} (k : string) (v : A) (props : list (string * A)) :
  arrayIndex k = None -> define k v props = (props ++ [(k, v)])%list.
Proof.
  intros Hk. induction props as [|[k' v'] props IH]; cbn [define app];
    [reflexivity|].
  now rewrite Hk, IH.
Qed.

Lemma lookup_middle {A} (k : string) (v : A) (acc rest : list (string * A)) :
  ~ In k (map fst acc) -> lookup k (acc ++ (k, v) :: rest)%list = Some v.
Proof.
  induction acc as [|[k' v'] acc IH]; cbn [app lookup map fst In].
  - now rewrite String.eqb_refl.
  - intros H. destruct (String.eqb_spec k k') as [->|]; [tauto|].
    apply IH. tauto.
Qed.

Lemma update_middle {A} (k : string) (f : A -> A) (v : A)
      (acc rest : list (string * A)) :
  ~ In k (map fst acc) ->
  update k f (acc ++ (k, v) :: rest)%list = (acc ++ (k, f v) :: rest)%list.
Proof.
  induction acc as [|[k' v'] acc IH]; cbn [app update map fst In].
  - now rewrite String.eqb_refl.
  - intros H. destruct (String.eqb_spec k k') as [->|]; [tauto|].
    rewrite IH; tauto.
Qed.

Lemma rowOf_column (table : string) (col : columnInfo) :
  columnOf (mkRow table (column_name col) (data_type col) (column_type col))
  = col.
Proof. now destruct col. Qed.

(** The further rows of a table whose entry exists are appended to it. *)
Lemma forEach_same_table (table : string) (columns : list columnInfo)
      (acc : schema) (sofar : list columnInfo) (more : list catalogRow) :
  inherited table = false -> ~ In table (map fst acc) ->
  forEach addRow (acc ++ [(table, sofar)])%list
    (map (fun col => mkRow table (column_name col) (data_type col)
                       (column_type col)) columns ++ more)%list
  = forEach addRow (acc ++ [(table, sofar ++ columns)])%list more.
Proof.
  intros Hi Hacc. revert sofar.
  induction columns as [|col columns IH]; intros sofar; cbn [map app].
  - now rewrite List.app_nil_r.
  - cbn [forEach]. unfold addRow at 1. cbn [TABLE_NAME]. rewrite Hi.
    rewrite (lookup_middle _ _ _ _ Hacc), (update_middle _ _ _ _ _ Hacc).
    cbn [bind]. rewrite rowOf_column, IH, <- List.app_assoc. reflexivity.
Qed.

Lemma forEach_new_table (table : string) (col : columnInfo)
      (columns : list columnInfo) (acc : schema) (more : list catalogRow) :
  inherited table = false -> arrayIndex table = None ->
  ~ In table (map fst acc) ->
  forEach addRow acc
    (map (fun col => mkRow table (column_name col) (data_type col)
                       (column_type col)) (col :: columns) ++ more)%list
  = forEach addRow (acc ++ [(table, col :: columns)])%list more.
Proof.
  intros Hi Hix Hacc. cbn [map app forEach]. unfold addRow at 1.
  cbn [TABLE_NAME]. rewrite Hi.
  rewrite (proj2 (lookup_None table acc) Hacc), (define_ordinary _ _ _ Hix).
  rewrite (update_middle _ _ _ _ _ Hacc). cbn [bind app].
  rewrite rowOf_column. now apply forEach_same_table.
Qed.

Lemma forEach_catalogOf (tables acc : schema) :
  NoDup (map fst (acc ++ tables)) ->
  (forall table columns,
      In (table, columns) tables ->
      ordinaryName table = true /\ columns <> []) ->
  forEach addRow acc (catalogOf tables) = Return (acc ++ tables)%list.
Proof.
  revert acc; induction tables as [|[table columns] tables IH];
    intros acc Hnd Hord.
  - cbn. now rewrite List.app_nil_r.
  - destruct (Hord table columns (or_introl eq_refl)) as [Ho Hne].
    unfold ordinaryName in Ho. apply andb_prop in Ho as [Hi Hix].
    apply negb_true_iff in Hi.
    destruct (arrayIndex table) eqn:Eix; [discriminate|].
    destruct columns as [|col columns]; [now destruct Hne|].
    assert (Hacc : ~ In table (map fst acc)).
    { rewrite map_app in Hnd. cbn [map fst] in Hnd.
      apply NoDup_remove_2 in Hnd. intros Hin. apply Hnd.
      apply in_or_app. now left. }
    change (catalogOf ((table, col :: columns) :: tables))
      with (map (fun c => mkRow table (column_name c) (data_type c)
                            (column_type c)) (col :: columns)
              ++ catalogOf tables)%list.
    rewrite (forEach_new_table _ _ _ _ _ Hi Eix Hacc), IH.
    + now rewrite <- List.app_assoc.
    + now rewrite <- List.app_assoc.
    + intros t c Hin. apply Hord. now right.
Qed.

Lemma lookup_schemaValue (table : string) (tables : schema) :
  field table (schemaValue tables)
  = option_map (fun columns => JArr (map columnValue columns))
      (lookup table tables).
Proof.
  unfold field, schemaValue. cbn [ownProps].
  induction tables as [|[t c] tables IH]; cbn [map assoc lookup option_map];
    [reflexivity|].
  destruct (String.eqb table t); [reflexivity | exact IH].
Qed.

Lemma join_In (sep x : string) (xs : list string) :
  In x xs -> Substring x (join sep xs).
Proof.
  induction xs as [|y xs IH]; [intros []|]. intros [->|Hin].
  - destruct xs as [|z xs]; cbn [join].
    + exists "", "". now rewrite app_nil_r.
    + exists "", (sep ++ join sep (z :: xs)). reflexivity.
  - destruct (IH Hin) as (l & r & E). destruct xs as [|z xs]; [destruct Hin|].
    cbn [join]. cbn [join] in E. rewrite E.
    exists (y ++ sep ++ l), r. now rewrite !app_assoc.
Qed.

Lemma Substring_trans (a b c : string) :
  Substring a b -> Substring b c -> Substring a c.
Proof.
  intros (l & r & ->) (l' & r' & ->). exists (l' ++ l), (r ++ r').
  now rewrite !app_assoc.
Qed.

Lemma partition_tail (k : string) (keys ixs others : list string) :
  k :: keys = (ixs ++ others)%list ->
  forallb isIndexName ixs = true ->
  forallb (fun name => negb (isIndexName name)) others = true ->
  (isIndexName k = false ->
   forallb (fun name => negb (isIndexName name)) keys = true)
  /\ exists ixs' others',
       keys = (ixs' ++ others')%list /\
       forallb isIndexName ixs' = true /\
       forallb (fun name => negb (isIndexName name)) others' = true.
Proof.
  intros E Hix Hot. destruct ixs as [|i ixs]; cbn [app] in E.
  - destruct others as [|o others]; [discriminate|].
    injection E as Ek Ekeys. cbn [forallb] in Hot.
    apply andb_prop in Hot as [_ Hot]. rewrite Ekeys. split; [auto|].
    now exists [], others.
  - injection E as Ek Ekeys. cbn [forallb] in Hix.
    apply andb_prop in Hix as [Hi Hix]. split.
    + intros Hk. congruence.
    + now exists ixs, others.
Qed.

Lemma define_partition {A} (k : string) (v : A) (props : list (string * A)) :
  (exists ixs others,
      map fst props = (ixs ++ others)%list /\
      forallb isIndexName ixs = true /\
      forallb (fun name => negb (isIndexName name)) others = true) ->
  exists ixs others,
    map fst (define k v props) = (ixs ++ others)%list /\
    forallb isIndexName ixs = true /\
    forallb (fun name => negb (isIndexName name)) others = true.
Proof.
  induction props as [|[k' v'] props IH]; cbn [define map fst].
  - intros _. destruct (isIndexName k) eqn:Ek.
    + exists [k], []. cbn. now rewrite Ek.
    + exists [], [k]. cbn. now rewrite Ek.
  - intros (ixs & others & E & Hix & Hot).
    destruct (partition_tail _ _ _ _ E Hix Hot) as [Hplain Hrest].
    assert (Hhere : isIndexName k = true ->
               exists ixs others,
                 map fst ((k, v) :: (k', v') :: props) = (ixs ++ others)%list /\
                 forallb isIndexName ixs = true /\
                 forallb (fun name => negb (isIndexName name)) others = true).
    { intros Hk. exists (k :: ixs), others. cbn [map fst app forallb].
      now rewrite Hk, Hix, Hot, E. }
    assert (Hlater : (isIndexName k' = true \/ isIndexName k = false) ->
               exists ixs others,
                 map fst ((k', v') :: define k v props) = (ixs ++ others)%list /\
                 forallb isIndexName ixs = true /\
                 forallb (fun name => negb (isIndexName name)) others = true).
    { intros Hcase. destruct (IH Hrest) as (ixs' & others' & E' & Hix' & Hot').
      cbn [map fst]. destruct (isIndexName k') eqn:Ek'.
      - exists (k' :: ixs'), others'. cbn [app forallb].
        now rewrite Ek', Hix', E'.
      - destruct Hcase as [Hcase | Hk]; [discriminate|].
        exists [], (k' :: map fst (define k v props)). cbn [app forallb].
        rewrite Ek'. cbn [negb andb]. repeat split.
        apply forallb_forall. intros x Hx. apply define_In in Hx.
        destruct Hx as [->|Hx]; [now rewrite Hk|].
        specialize (Hplain eq_refl). rewrite forallb_forall in Hplain.
        now apply Hplain. }
    unfold isIndexName in Hhere, Hlater.
    destruct (arrayIndex k) as [n|]; [destruct (arrayIndex k') as [n'|]|].
    + destruct (N.ltb n n'); [now apply Hhere | apply Hlater; now left].
    + now apply Hhere.
    + apply Hlater. now right.
Qed.

Lemma forEach_partition (rows : list catalogRow) (tables tables' : schema) :
  (exists ixs others,
      map fst tables = (ixs ++ others)%list /\
      forallb isIndexName ixs = true /\
      forallb (fun name => negb (isIndexName name)) others = true) ->
  forEach addRow tables rows = Return tables' ->
  exists ixs others,
    map fst tables' = (ixs ++ others)%list /\
    forallb isIndexName ixs = true /\
    forallb (fun name => negb (isIndexName name)) others = true.
Proof.
  revert tables; induction rows as [|row rows IH]; intros tables Hp;
    cbn [forEach].
  - intros H. now inversion H; subst.
  - unfold addRow at 1. destruct (inherited (TABLE_NAME row));
      cbn [bind]; [discriminate|].
    apply IH. rewrite update_keys.
    destruct (lookup (TABLE_NAME row) tables); [exact Hp|].
    now apply define_partition.
Qed.

(** X1.  Rows whose table names are not inherited names are grouped by
    table: the schema has an entry for exactly the tables the catalog
    lists, each entry holds the columns of its table in row order, and no
    table has two entries. *)
Theorem catalog_is_grouped_by_table (rows : list catalogRow) :
  (forall row, In row rows -> inherited (TABLE_NAME row) = false) ->
  exists tables,
    getTableAndColumnNames (Return rows) = Return tables /\
    NoDup (map fst tables) /\
    forall table,
      lookup table tables
      = match columnsOf table rows with
        | [] => None
        | columns => Some columns
        end.
Proof.
  intros Hi. destruct (forEach_lookup rows [] Hi) as (tables & E & Hl).
  exists tables. split; [exact E|]. split.
  - apply (forEach_NoDup rows [] tables); [constructor | exact E].
  - intros table. rewrite Hl. reflexivity.
Qed.

Lemma catalog_is_grouped_by_table_witness :
  exists tables,
    getTableAndColumnNames
      (Return [mkRow "customers" "customerName" "varchar" "varchar(50)";
               mkRow "payments" "customerNumber" "int" "int";
               mkRow "payments" "amount" "decimal" "decimal(10,2)"])
    = Return tables /\
    NoDup (map fst tables) /\
    forall table,
      lookup table tables
      = match columnsOf table
                [mkRow "customers" "customerName" "varchar" "varchar(50)";
                 mkRow "payments" "customerNumber" "int" "int";
                 mkRow "payments" "amount" "decimal" "decimal(10,2)"] with
        | [] => None
        | columns => Some columns
        end.
Proof.
  apply (catalog_is_grouped_by_table
           [mkRow "customers" "customerName" "varchar" "varchar(50)";
            mkRow "payments" "customerNumber" "int" "int";
            mkRow "payments" "amount" "decimal" "decimal(10,2)"]).
  intros row [<-|[<-|[<-|[]]]]; reflexivity.
Defined.

(** X2.  Grouping inverts listing: the catalog rows of a schema, table by
    table and column by column, are grouped back into that schema, tables
    and columns in the same order, when the table names are distinct,
    none is an inherited name or an array index, and no table is without
    columns. *)
Theorem grouping_inverts_listing (tables : schema) :
  NoDup (map fst tables) ->
  (forall table columns,
      In (table, columns) tables ->
      ordinaryName table = true /\ columns <> []) ->
  getTableAndColumnNames (Return (catalogOf tables)) = Return tables.
Proof.
  intros Hnd Hord. exact (forEach_catalogOf tables [] Hnd Hord).
Qed.

Lemma grouping_inverts_listing_witness :
  getTableAndColumnNames (Return (catalogOf Scenarios.classicmodels))
  = Return Scenarios.classicmodels.
Proof.
  apply (grouping_inverts_listing Scenarios.classicmodels).
  - repeat constructor; cbn; intuition discriminate.
  - intros table columns [H|[H|[]]]; inversion H; subst;
      (split; [reflexivity | discriminate]).
Defined.


(** X4.  With such a table in the database both endpoints fail: the
    tables endpoint answers 500 with its fixed text, and a request with a
    question is answered 500 after the schema fetch, before any call to
    the model or any statement is run. *)
Theorem inherited_table_name_fails_requests
        (rows : list catalogRow) (generate : prompt -> completion string)
        (query : string -> completion value)
        (reqBody : list (string * value)) (userQuery : value) :
  (exists row, In row rows /\ inherited (TABLE_NAME row) = true) ->
  assoc "query" reqBody = Some userQuery ->
  truthy userQuery = true ->
  getTables (Return rows)
  = {| status := 500;
       body := JObj [("error", JStr "Failed to fetch table and column names")] |}
  /\ exists r,
       postQuery (connected (Return rows) generate query) reqBody
       = ([SchemaFetch], r)
       /\ status r = 500.
Proof.
  intros Hrow Hq Ht. apply (forEach_throws rows []) in Hrow as [e He].
  split.
  - unfold getTables, getTableAndColumnNames. cbn [bind]. now rewrite He.
  - unfold postQuery. rewrite Hq, Ht. cbn [negb].
    unfold processQuery, connected, call. cbn [fetchSchema].
    unfold getTableAndColumnNames. cbn [bind]. rewrite He. cbn [bindM].
    eexists. split; reflexivity.
Qed.

Lemma inherited_table_name_fails_requests_witness :
  getTables (Return [mkRow "constructor" "id" "int" "int"])
  = {| status := 500;
       body := JObj [("error", JStr "Failed to fetch table and column names")] |}
  /\ exists r,
       postQuery
         (connected (Return [mkRow "constructor" "id" "int" "int"])
            (fun _ => Return "select 1") (fun _ => Return (JArr [])))
         [("query", JStr "how many rows")]
       = ([SchemaFetch], r)
       /\ status r = 500.
Proof.
  apply (inherited_table_name_fails_requests
           [mkRow "constructor" "id" "int" "int"]
           (fun _ => Return "select 1") (fun _ => Return (JArr []))
           [("query", JStr "how many rows")] (JStr "how many rows")).
  - exists (mkRow "constructor" "id" "int" "int"). split; [now left | reflexivity].
  - reflexivity.
  - reflexivity.
Defined.

(** X5.  The tables endpoint: when the catalog query fails the answer is
    500 with a fixed text, whatever the error was; when it returns rows
    without inherited table names the answer is 200 and the body has, for
    each table of the catalog and no other name, the array of its columns
    in row order. *)
Theorem tables_endpoint_lists_the_catalog :
  (forall e,
      getTables (Throw e)
      = {| status := 500;
           body := JObj [("error", JStr "Failed to fetch table and column names")] |})
  /\ (forall rows,
        (forall row, In row rows -> inherited (TABLE_NAME row) = false) ->
        status (getTables (Return rows)) = 200 /\
        forall table,
          field table (body (getTables (Return rows)))
          = match columnsOf table rows with
            | [] => None
            | columns => Some (JArr (map columnValue columns))
            end).
Proof.
  split; [reflexivity|]. intros rows Hi.
  destruct (forEach_lookup rows [] Hi) as (tables & E & Hl).
  unfold getTables, getTableAndColumnNames. cbn [bind]. rewrite E.
  cbn [status body]. split; [reflexivity|]. intros table.
  rewrite lookup_schemaValue, Hl. cbn [lookup].
  now destruct (columnsOf table rows).
Qed.

Lemma tables_endpoint_lists_the_catalog_witness :
  status (getTables (Return [mkRow "payments" "amount" "decimal" "decimal(10,2)"]))
  = 200.
Proof.
  apply (proj2 tables_endpoint_lists_the_catalog
           [mkRow "payments" "amount" "decimal" "decimal(10,2)"]).
  intros row [<-|[]]. reflexivity.
Defined.

(** X6.  The schema text of the prompt has a line for every table of the
    schema, and names every column with its data type. *)
Theorem schema_text_names_every_column (dbSchemaObj : schema)
        (table : string) (columns : list columnInfo) :
  In (table, columns) dbSchemaObj ->
  Substring (tableText (table, columns)) (dbSchemaText dbSchemaObj)
  /\ forall col, In col columns ->
       Substring (columnText col) (dbSchemaText dbSchemaObj).
Proof.
  intros Hin.
  assert (Hline : Substring (tableText (table, columns)) (dbSchemaText dbSchemaObj)).
  { unfold dbSchemaText. apply join_In.
    apply (in_map (fun '(table, columns) =>
                     "- " ++ table ++ ": "
                       ++ join ", "
                            (map (fun col => column_name col ++ " ("
                                               ++ data_type col ++ ")") columns))
             dbSchemaObj (table, columns)) in Hin.
    exact Hin. }
  split; [exact Hline|]. intros col Hcol.
  apply (Substring_trans _ (tableText (table, columns))); [|exact Hline].
  apply (Substring_trans _ (join ", " (map columnText columns))).
  - apply join_In. now apply in_map.
  - exists ("- " ++ table ++ ": "), "". unfold tableText. cbn [fst snd].
    now rewrite !app_assoc, app_nil_r.
Qed.

Lemma schema_text_names_every_column_witness :
  Substring
    (tableText ("payments", [mkColumn "customerNumber" "int" "int";
                             mkColumn "amount" "decimal" "decimal(10,2)"]))
    (dbSchemaText Scenarios.classicmodels)
  /\ forall col,
       In col [mkColumn "customerNumber" "int" "int";
               mkColumn "amount" "decimal" "decimal(10,2)"] ->
       Substring (columnText col) (dbSchemaText Scenarios.classicmodels).
Proof.
  apply (schema_text_names_every_column Scenarios.classicmodels "payments").
  right. left. reflexivity.
Defined.

(** X7.  In the schema, and so in the schema text of the prompt, the
    tables whose name is an array index (a numeral such as [2024]) come
    before all other tables, wherever their rows stood in the catalog. *)
Theorem index_named_tables_come_first (rows : list catalogRow)
        (tables : schema) :
  getTableAndColumnNames (Return rows) = Return tables ->
  exists ixs others,
    map fst tables = (ixs ++ others)%list /\
    forallb isIndexName ixs = true /\
    forallb (fun name => negb (isIndexName name)) others = true.
Proof.
  apply forEach_partition. now exists [], [].
Qed.

Lemma index_named_tables_come_first_witness :
  exists ixs others,
    map fst [("2024", [mkColumn "total" "int" "int"]);
             ("archive", [mkColumn "id" "int" "int"])]
    = (ixs ++ others)%list /\
    forallb isIndexName ixs = true /\
    forallb (fun name => negb (isIndexName name)) others = true.
Proof.
  apply (index_named_tables_come_first
           [mkRow "archive" "id" "int" "int"; mkRow "2024" "total" "int" "int"]).
  reflexivity.
Defined.

End IntrospectorFacts.

(** ** Cleaning the model's answer: statements *)

Module CleanerFacts.
Import JsString Js Pipeline Spec Direct Shapes StringFacts.

#[local] Arguments dropPrefix : simpl never.
#[local] Arguments isSpace : simpl never.

Lemma dropPrefix_step (a b : ascii) (p s : string) :
  dropPrefix (String a p) (String b s)
  = if Ascii.eqb a b then dropPrefix p s else None.
Proof. reflexivity. Qed.

Lemma removeAllAux_skip (p x r : string) :
  removeAllAux p (String.length x) (x ++ r) = removeAllAux p 0 r.
Proof.
  induction x as [|b x IH]; [reflexivity|]. exact IH.
Qed.

Lemma removeAll_nil (p : string) : removeAll p "" = "".
Proof. reflexivity. Qed.

(** An occurrence at the head is dropped whole. *)
Lemma removeAll_match (p r : string) (c : ascii) (s : string) :
  dropPrefix p (String c s) = Some r -> p <> "" ->
  removeAll p (String c s) = removeAll p r.
Proof.
  intros H Hp. unfold removeAll. cbn [removeAllAux]. rewrite H.
  apply dropPrefix_Some in H. destruct p as [|a p]; [now destruct Hp|].
  cbn [append] in H. inversion H; subst. cbn [String.length].
  replace (S (String.length p) - 1) with (String.length p) by lia.
  apply removeAllAux_skip.
Qed.

(** A character that starts no occurrence is copied. *)
Lemma removeAll_copy (p : string) (c : ascii) (s : string) :
  dropPrefix p (String c s) = None ->
  removeAll p (String c s) = String c (removeAll p s).
Proof. intros H. unfold removeAll. cbn [removeAllAux]. now rewrite H. Qed.

Lemma removeAll_head (p r : string) :
  p <> "" -> removeAll p (p ++ r) = removeAll p r.
Proof.
  intros Hp. destruct p as [|a p]; [now destruct Hp|]. cbn [append].
  apply removeAll_match; [|discriminate].
  exact (dropPrefix_app (String a p) r).
Qed.

(** Text without the first character of the pattern is copied. *)
Lemma removeAll_plain (a : ascii) (p b t : string) :
  allChars (isNot a) b = true ->
  removeAll (String a p) (b ++ t) = b ++ removeAll (String a p) t.
Proof.
  induction b as [|x b IH]; [reflexivity|]. cbn [allChars append].
  intros H. apply andb_prop in H as [Hx Hb].
  rewrite removeAll_copy, (IH Hb); [reflexivity|].
  rewrite dropPrefix_step. unfold isNot in Hx.
  rewrite Ascii.eqb_sym. now destruct (Ascii.eqb x a).
Qed.

Lemma removeAll_absent (p s : string) :
  ~ Substring p s -> removeAll p s = s.
Proof.
  induction s as [|c s IH]; [reflexivity|]. intros H.
  destruct (dropPrefix p (String c s)) as [r|] eqn:E.
  - destruct H. exists "", r. cbn [append]. now apply dropPrefix_Some.
  - rewrite (removeAll_copy _ _ _ E), IH; [reflexivity|].
    intros (l & r & ->). apply H. now exists (String c l), r.
Qed.

(** *** No fence is left *)

Lemma fence_head (n : nat) (s : string) :
  String.length s <= n ->
  dropPrefix "```" (removeAll "```" s) = None.
Proof.
  revert s; induction n as [|n IH]; intros [|c s1] Hn;
    try reflexivity; [cbn in Hn; lia|].
  destruct (dropPrefix "```" (String c s1)) as [r|] eqn:E.
  - rewrite (removeAll_match _ _ _ _ E) by discriminate. apply IH.
    apply dropPrefix_Some in E. apply (f_equal String.length) in E.
    rewrite length_app in E. cbn in E, Hn. lia.
  - rewrite (removeAll_copy _ _ _ E), dropPrefix_step.
    destruct (Ascii.eqb_spec "`" c) as [<-|]; [|reflexivity].
    rewrite dropPrefix_step, Ascii.eqb_refl in E.
    destruct s1 as [|d s2]; [reflexivity|].
    destruct (dropPrefix "```" (String d s2)) as [r|] eqn:E2.
    { apply dropPrefix_Some in E2. rewrite E2 in E. discriminate E. }
    rewrite (removeAll_copy _ _ _ E2), dropPrefix_step.
    destruct (Ascii.eqb_spec "`" d) as [<-|]; [|reflexivity].
    rewrite dropPrefix_step, Ascii.eqb_refl in E.
    destruct s2 as [|e s3]; [reflexivity|].
    rewrite dropPrefix_step in E.
    destruct (Ascii.eqb "`" e) eqn:Ee; [discriminate E|].
    rewrite removeAll_copy by (now rewrite dropPrefix_step, Ee).
    now rewrite dropPrefix_step, Ee.
Qed.

Lemma Substring_cons (p o : string) (c : ascii) :
  Substring p (String c o) ->
  (exists r, dropPrefix p (String c o) = Some r) \/ Substring p o.
Proof.
  intros ([|x l] & r & H); cbn [append] in H.
  - left. exists r. rewrite H. apply dropPrefix_app.
  - right. inversion H; subst. now exists l, r.
Qed.

Lemma fence_removed (n : nat) (s : string) :
  String.length s <= n -> ~ Substring "```" (removeAll "```" s).
Proof.
  revert s; induction n as [|n IH]; intros [|c s1] Hn.
  - intros (l & r & H). apply (f_equal String.length) in H.
    rewrite !length_app in H. cbn in H. lia.
  - cbn in Hn; lia.
  - intros (l & r & H). apply (f_equal String.length) in H.
    rewrite !length_app in H. cbn in H. lia.
  - destruct (dropPrefix "```" (String c s1)) as [r|] eqn:E.
    + rewrite (removeAll_match _ _ _ _ E) by discriminate. apply IH.
      apply dropPrefix_Some in E. apply (f_equal String.length) in E.
      rewrite length_app in E. cbn in E, Hn. lia.
    + intros H. pose proof (fence_head (S n) (String c s1) Hn) as Hh.
      rewrite (removeAll_copy _ _ _ E) in H, Hh.
      apply Substring_cons in H as [[r Hr]|H]; [congruence|].
      apply (IH s1); [cbn in Hn; lia | exact H].
Qed.

(** *** [trim] *)

Lemma trimStart_split (s : string) :
  exists l, s = l ++ trimStart s /\ allChars isSpace l = true
            /\ startsWith isSpace (trimStart s) = false.
Proof.
  induction s as [|c s (l & Hs & Hl & Hd)]; cbn [trimStart].
  - now exists "".
  - destruct (isSpace c) eqn:Ec.
    + exists (String c l). cbn. rewrite Ec, Hl. now rewrite <- Hs.
    + exists "". cbn. now rewrite Ec.
Qed.

Lemma trimEnd_split (s : string) :
  exists r, s = trimEnd s ++ r /\ allChars isSpace r = true
            /\ endsWith isSpace (trimEnd s) = false.
Proof.
  induction s as [|c s (r & Hs & Hr & He)]; cbn [trimEnd].
  - now exists "".
  - destruct (trimEnd s) as [|d t] eqn:Et.
    + cbn [append] in Hs. subst s. destruct (isSpace c) eqn:Ec.
      * exists (String c r). cbn. now rewrite Ec, Hr.
      * exists r. cbn. now rewrite Ec.
    + exists r. cbn [append]. rewrite Hs at 1. cbn [append].
      repeat split; auto.
Qed.

Lemma trimEnd_head (t : string) :
  startsWith isSpace t = false -> startsWith isSpace (trimEnd t) = false.
Proof.
  destruct t as [|c s]; [reflexivity|]. cbn [startsWith trimEnd]. intros Hc.
  destruct (trimEnd s); cbn [startsWith]; [now rewrite Hc | exact Hc].
Qed.

Lemma trimEnd_fixed (s : string) :
  endsWith isSpace s = false -> trimEnd s = s.
Proof.
  induction s as [|c s IH]; [reflexivity|]. cbn [endsWith trimEnd].
  destruct s as [|d s].
  - cbn. now intros ->.
  - intros H. rewrite (IH H). reflexivity.
Qed.

Lemma trimStart_fixed (s : string) :
  startsWith isSpace s = false -> trimStart s = s.
Proof. destruct s as [|c s]; [reflexivity|]. cbn. now intros ->. Qed.

Lemma trim_split (s : string) :
  exists l r, s = l ++ trim s ++ r /\
    allChars isSpace l = true /\ allChars isSpace r = true /\
    startsWith isSpace (trim s) = false /\ endsWith isSpace (trim s) = false.
Proof.
  destruct (trimStart_split s) as (l & Hs & Hl & Hd).
  destruct (trimEnd_split (trimStart s)) as (r & Ht & Hr & He).
  exists l, r. unfold trim. repeat split; auto.
  - now rewrite <- Ht.
  - now apply trimEnd_head.
Qed.

Lemma trim_fixed (s : string) :
  startsWith isSpace s = false -> endsWith isSpace s = false -> trim s = s.
Proof.
  intros Hs He. unfold trim. rewrite (trimStart_fixed s Hs).
  now apply trimEnd_fixed.
Qed.

Lemma Substring_app (p a b c : string) :
  Substring p b -> Substring p (a ++ b ++ c).
Proof.
  intros (l & r & ->). exists (a ++ l), (r ++ c). now rewrite !app_assoc.
Qed.

Lemma cleanSql_stripped (text : string) :
  ~ Substring "```" (cleanSql text)
  /\ startsWith isSpace (cleanSql text) = false
  /\ endsWith isSpace (cleanSql text) = false.
Proof.
  unfold cleanSql.
  destruct (trim_split (removeAll "```" (removeAll "```sql" text)))
    as (l & r & E & _ & _ & Hs & He).
  split; [|split; assumption].
  intros H. apply (Substring_app _ l _ r) in H. rewrite <- E in H.
  exact (fence_removed _ _ (le_n _) H).
Qed.

(** X8.  What is sent to the database as the generated statement never
    contains a code fence and neither starts nor ends with white space,
    whatever the model answered. *)
Theorem cleaned_sql_has_no_fence (text : string) :
  ~ Substring "```" (cleanSql text)
  /\ startsWith isSpace (cleanSql text) = false
  /\ endsWith isSpace (cleanSql text) = false.
Proof. exact (cleanSql_stripped text). Qed.

(** X9.  Cleaning is idempotent: a cleaned answer is clean. *)
Theorem cleaning_is_idempotent (text : string) :
  cleanSql (cleanSql text) = cleanSql text.
Proof.
  destruct (cleanSql_stripped text) as (Hf & Hs & He).
  unfold cleanSql at 1. rewrite (removeAll_absent "```sql").
  - rewrite (removeAll_absent "```" _ Hf). now apply trim_fixed.
  - intros (l & r & E). apply Hf. exists l, ("sql" ++ r). exact E.
Qed.

(** X10.  For texts [pre], [body] and [post] without a backquote, [post]
    not starting with [sql]: an answer without a fence is only trimmed;
    an answer that wraps the statement in a fence tagged [sql] loses the
    two fence markers and nothing else, so that text before the fence and
    after it stays in the statement; and of a fence with another tag or
    none only the backquotes go, the tag stays. *)
Theorem fenced_answer_is_unwrapped (pre body post : string) :
  allChars (isNot "`") pre = true ->
  allChars (isNot "`") body = true ->
  allChars (isNot "`") post = true ->
  dropPrefix "sql" post = None ->
  cleanSql (pre ++ body ++ post) = trim (pre ++ body ++ post)
  /\ cleanSql (pre ++ "```sql" ++ body ++ "```" ++ post)
     = trim (pre ++ body ++ post)
  /\ (dropPrefix "sql" body = None ->
      cleanSql (pre ++ "```" ++ body ++ "```" ++ post)
      = trim (pre ++ body ++ post)).
Proof.
  intros Hpre Hbody Hpost Hsql.
  assert (Hplain : forall (p : string) b,
             allChars (isNot "`") b = true ->
             removeAll (String "`" p) b = b).
  { intros p b Hb. rewrite <- (app_nil_r b) at 1.
    rewrite (removeAll_plain _ _ _ _ Hb), removeAll_nil. apply app_nil_r. }
  assert (Hopen : forall u,
             dropPrefix "sql" u = None -> dropPrefix "`sql" u = None ->
             dropPrefix "``sql" u = None ->
             removeAll "```sql" ("```" ++ u) = "```" ++ removeAll "```sql" u).
  { intros u H0 H1 H2. cbn [append].
    rewrite removeAll_copy
      by (now rewrite !dropPrefix_step, !Ascii.eqb_refl).
    rewrite removeAll_copy
      by (now rewrite !dropPrefix_step, !Ascii.eqb_refl).
    rewrite removeAll_copy
      by (now rewrite !dropPrefix_step, !Ascii.eqb_refl).
    reflexivity. }
  assert (Hhead : forall t u q, allChars (isNot "`") t = true -> t <> "" ->
             dropPrefix (String "`" q) (t ++ u) = None).
  { intros [|x t] u q Ht Hne; [now destruct Hne|]. cbn [append].
    rewrite dropPrefix_step. cbn [allChars] in Ht.
    apply andb_prop in Ht as [Hx _]. unfold isNot in Hx.
    rewrite Ascii.eqb_sym. now destruct (Ascii.eqb x "`"). }
  assert (Hclose : removeAll "```sql" ("```" ++ post) = "```" ++ post).
  { rewrite Hopen, (Hplain _ post Hpost); [reflexivity | exact Hsql | |];
      (destruct post as [|x t]; [reflexivity|];
       rewrite <- (app_nil_r (String x t)); now apply Hhead). }
  assert (Hall : allChars (isNot "`") (pre ++ body ++ post) = true)
    by now rewrite !allChars_app, Hpre, Hbody, Hpost.
  unfold cleanSql. split; [|split].
  - now rewrite !(Hplain _ _ Hall).
  - rewrite (removeAll_plain _ _ _ _ Hpre), (removeAll_head "```sql")
      by discriminate.
    rewrite (removeAll_plain _ _ _ _ Hbody), Hclose.
    rewrite (removeAll_plain _ _ _ _ Hpre), (removeAll_plain _ _ _ _ Hbody).
    rewrite (removeAll_head "```") by discriminate.
    now rewrite (Hplain _ post Hpost).
  - intros Hb.
    rewrite (removeAll_plain _ _ _ _ Hpre), Hopen.
    + rewrite (removeAll_plain _ _ _ _ Hbody), Hclose.
      rewrite (removeAll_plain _ _ _ _ Hpre), (removeAll_head "```")
        by discriminate.
      rewrite (removeAll_plain _ _ _ _ Hbody), (removeAll_head "```")
        by discriminate.
      now rewrite (Hplain _ post Hpost).
    + change (body ++ "```" ++ post) with (body ++ String "`" ("``" ++ post)).
      rewrite IdempotenceFacts.dropPrefix_barrier by reflexivity.
      now rewrite Hb.
    + destruct body as [|x t]; [reflexivity | now apply Hhead].
    + destruct body as [|x t]; [reflexivity | now apply Hhead].
Qed.

Lemma fenced_answer_is_unwrapped_witness :
  cleanSql "select 1 " = trim "select 1 "
  /\ cleanSql ("```sql" ++ "select 1 " ++ "```" ++ "")
     = trim "select 1 "
  /\ (dropPrefix "sql" "select 1 " = None ->
      cleanSql ("```" ++ "select 1 " ++ "```" ++ "") = trim "select 1 ").
Proof.
  apply (fenced_answer_is_unwrapped "" "select 1 " ""); reflexivity.
Defined.

End CleanerFacts.

(** ** The model's answer to the chart question: statements *)

Module DecisionFacts.
Import JsString Js Pipeline Spec Shapes StringFacts.

Lemma upper_Y (c : ascii) (rest ys : list N) :
  eqCodeUnits (upperChar c ++ rest) (89%N :: ys)
  = (Ascii.eqb (lowerChar c) "y" && eqCodeUnits rest ys)%bool.
Proof. destruct c as [[] [] [] [] [] [] [] []]; reflexivity. Qed.

Lemma upper_E (c : ascii) (rest ys : list N) :
  eqCodeUnits (upperChar c ++ rest) (69%N :: ys)
  = (Ascii.eqb (lowerChar c) "e" && eqCodeUnits rest ys)%bool.
Proof. destruct c as [[] [] [] [] [] [] [] []]; reflexivity. Qed.

(** The sharp s, whose upper case is "SS", is no match for a final S. *)
Lemma upper_S_last (c : ascii) (rest : list N) :
  eqCodeUnits (upperChar c ++ rest) [83%N]
  = (Ascii.eqb (lowerChar c) "s" && eqCodeUnits rest [])%bool.
Proof. destruct c as [[] [] [] [] [] [] [] []]; reflexivity. Qed.

Lemma upper_nonempty (c : ascii) (rest : list N) :
  eqCodeUnits (upperChar c ++ rest) [] = false.
Proof.
  unfold upperChar.
  repeat match goal with |- context [if ?b then _ else _] => destruct b end;
    reflexivity.
Qed.

Lemma yes_bool (t : string) :
  eqCodeUnits (toUpperCase t) (codeUnits "YES")
  = String.eqb (toLowerCase t) "yes".
Proof.
  change (codeUnits "YES") with [89%N; 69%N; 83%N].
  destruct t as [|c1 [|c2 [|c3 [|c4 t]]]];
    cbn [toUpperCase toLowerCase String.eqb];
    rewrite ?upper_Y, ?upper_E, ?upper_S_last, ?upper_nonempty;
    repeat match goal with
           | |- context [Ascii.eqb ?a ?b] => destruct (Ascii.eqb a b)
           end; reflexivity.
Qed.


End DecisionFacts.

(** ** Wide-integer normalization: statements *)

Module NormalizerShape.
Import JsString Js Normalizer Pipeline Spec Shapes.

(** Induction on a value with its elements and property values. *)
Lemma value_nested_ind (P : value -> Prop) :
  P JUndefined -> P JNull -> (forall b, P (JBool b)) ->
  (forall x, P (JNum x)) -> (forall z, P (JBigInt z)) ->
  (forall s, P (JStr s)) ->
  (forall xs, Forall P xs -> P (JArr xs)) ->
  (forall props, Forall (fun kv => P (snd kv)) props -> P (JObj props)) ->
  (forall time, P (JDate time)) ->
  forall v, P v.
Proof.
  intros Hu Hn Hb Hx Hz Hs Ha Ho Hd. fix IH 1.
  intros [ | | b | x | z | s | xs | props | time];
    [exact Hu | exact Hn | apply Hb | apply Hx | apply Hz | apply Hs
    | | | apply Hd].
  - apply Ha. induction xs as [|x xs IHxs]; constructor;
      [apply IH | exact IHxs].
  - apply Ho. induction props as [|[k v] props IHp]; constructor;
      [apply IH | exact IHp].
Qed.


Lemma map_idem {A} (f : A -> A) (xs : list A) :
  Forall (fun x => f (f x) = f x) xs -> map f (map f xs) = map f xs.
Proof.
  induction 1 as [|x xs Hx _ IH]; cbn [map]; [reflexivity|].
  now rewrite Hx, IH.
Qed.







(** X12.  A second conversion changes nothing. *)
Theorem conversion_is_idempotent (v : value) :
  convertBigIntToString (convertBigIntToString v) = convertBigIntToString v.
Proof.
  induction v using value_nested_ind; try reflexivity.
  - cbn [convertBigIntToString]. f_equal. now apply map_idem.
  - cbn [convertBigIntToString]. f_equal.
    apply (map_idem (fun '(key, value) =>
                       (key, match value with
                             | JBigInt z => JStr (bigintToString z)
                             | _ => convertBigIntToString value
                             end))).
    eapply Forall_impl; [|exact H]. intros [k v] Hv. cbn [snd] in Hv.
    destruct v; cbn [convertBigIntToString] in *; try reflexivity;
      now rewrite Hv.
Qed.





(** X16.  For the rows of a query result, each a mapping of column names
    to scalars, the conversion leaves no BigInt and serialization goes
    through. *)
Theorem scalar_rows_serialize (rows : list value) :
  forallb isScalarRow rows = true ->
  jsonStringifiable (convertBigIntToString (JArr rows)) = Return tt.
Proof.
  intros H. unfold jsonStringifiable.
  replace (hasBigInt (convertBigIntToString (JArr rows))) with false;
    [reflexivity|].
  symmetry. cbn [convertBigIntToString hasBigInt].
  induction rows as [|row rows IH]; [reflexivity|].
  cbn [forallb] in H. apply andb_prop in H as [Hrow Hrows].
  cbn [map existsb]. rewrite (IH Hrows), orb_false_r.
  destruct row; try discriminate. cbn [isScalarRow] in Hrow.
  cbn [convertBigIntToString hasBigInt]. clear - Hrow.
  induction props as [|[k v] props IH]; [reflexivity|].
  cbn [forallb snd] in Hrow. apply andb_prop in Hrow as [Hv Hprops].
  cbn [map existsb snd]. rewrite (IH Hprops), orb_false_r.
  destruct v; try discriminate; reflexivity.
Qed.

Lemma scalar_rows_serialize_witness :
  jsonStringifiable
    (convertBigIntToString
       (JArr [JObj [("customerName", JStr "Alice"); ("orders", JBigInt 12)]]))
  = Return tt.
Proof.
  apply (scalar_rows_serialize
           [JObj [("customerName", JStr "Alice"); ("orders", JBigInt 12)]]).
  reflexivity.
Defined.

End NormalizerShape.

(** ** The Chart Data Transformer: further statements *)

Module TransformerShape.
Import JsString Js Transformer Pipeline Spec Shapes.

Lemma getProp_total (v : value) (k : string) :
  isNullish v = false -> exists x, getProp v k = Return x.
Proof.
  destruct v; try discriminate; intros _; unfold getProp;
    match goal with
    | |- context [assoc k ?ps] => destruct (assoc k ps)
    end; eauto; destruct (String.eqb k "length"); eauto.
Qed.

Lemma getProp_nullish (v : value) (k : string) :
  isNullish v = true -> exists e, getProp v k = Throw e.
Proof. destruct v; try discriminate; intros _; cbn; eauto. Qed.

Lemma scanColumns_total (firstRow : value) (columnNames : list string)
      (labelColumn valueColumn : option string) :
  isNullish firstRow = false ->
  exists lv,
    scanColumns firstRow columnNames labelColumn valueColumn = Return lv.
Proof.
  intros Hn. revert labelColumn valueColumn.
  induction columnNames as [|colName rest IH]; intros l v;
    cbn [scanColumns]; [eauto|].
  destruct (getProp_total firstRow colName Hn) as [x ->]. cbn [bind].
  destruct (String.eqb (typeof x) "string" && isNull l)%bool.
  - destruct (negb (isNull (Some colName)) && negb (isNull v))%bool; eauto.
  - destruct (String.eqb (typeof x) "number" && isNull v)%bool;
      match goal with
      | |- context [if ?b then Return _ else _] => destruct b
      end; eauto.
Qed.

Lemma chooseColumns_total (firstRow : value) :
  isNullish firstRow = false ->
  exists lv, chooseColumns firstRow = Return lv.
Proof.
  intros Hn. unfold chooseColumns.
  assert (Hk : objectKeys firstRow = Return (map fst (ownProps firstRow)))
    by (destruct firstRow; try discriminate; reflexivity).
  rewrite Hk. cbn [bind].
  destruct (scanColumns_total firstRow (map fst (ownProps firstRow))
              None None Hn) as [lv ->].
  cbn [bind]. eauto.
Qed.

Lemma chooseColumns_nullish (firstRow : value) :
  isNullish firstRow = true ->
  exists e, chooseColumns firstRow = Throw e.
Proof. destruct firstRow; try discriminate; intros _; cbn; eauto. Qed.

Lemma column_returns (rows : list value) (name : string) :
  existsb isNullish rows = false ->
  exists xs, column rows name = Return xs.
Proof.
  unfold column. induction rows as [|row rows IH]; cbn [existsb mapM];
    [eauto|].
  intros H. apply orb_false_elim in H as [Hrow Hrows].
  destruct (getProp_total row name Hrow) as [x ->]. cbn [bind].
  destruct (IH Hrows) as [xs ->]. cbn [bind]. eauto.
Qed.

Lemma column_throws (rows : list value) (name : string) :
  existsb isNullish rows = true ->
  exists e, column rows name = Throw e.
Proof.
  unfold column. induction rows as [|row rows IH]; cbn [existsb mapM];
    [discriminate|].
  destruct (isNullish row) eqn:Hrow; cbn [orb].
  - intros _. destruct (getProp_nullish row name Hrow) as [e ->].
    cbn [bind]. eauto.
  - intros H. destruct (getProp_total row name Hrow) as [x ->]. cbn [bind].
    destruct (IH H) as [e ->]. cbn [bind]. eauto.
Qed.

Lemma column_length (rows : list value) (name : string) (xs : list value) :
  column rows name = Return xs -> List.length xs = List.length rows.
Proof.
  unfold column. revert xs; induction rows as [|row rows IH]; intros xs;
    cbn [mapM].
  - intros H. now inversion H.
  - destruct (getProp row name) as [x|e]; cbn [bind]; [|discriminate].
    destruct (mapM (fun r => getProp r name) rows) as [ys|e]; cbn [bind];
      [|discriminate].
    intros H. inversion H; subst. cbn. now rewrite (IH ys eq_refl).
Qed.

(** The transform once the columns are chosen. *)
Lemma transform_chosen (firstRow : value) (rest : list value)
      (l v : string) :
  chooseColumns firstRow = Return (Some l, Some v) ->
  transformDataForChart (JArr (firstRow :: rest))
  = bind (column (firstRow :: rest) l) (fun labels =>
    bind (column (firstRow :: rest) v) (fun dataValues =>
    Return (Some
      {| type := "bar";
         labels := labels;
         datasets :=
           [ {| label := if nonEmpty v then v else "Value";
                data := dataValues;
                backgroundColor := "rgba(75, 192, 192, 0.6)";
                borderColor := "rgba(75, 192, 192, 1)";
                borderWidth := 1 |} ] |}))).
Proof. intros H. cbn [transformDataForChart]. rewrite H. reflexivity. Qed.

Lemma transform_not_chosen (firstRow : value) (rest : list value)
      (lv : option string * option string) :
  chooseColumns firstRow = Return lv ->
  (fst lv = None \/ snd lv = None) ->
  transformDataForChart (JArr (firstRow :: rest)) = Return None.
Proof.
  intros H Hnone. cbn [transformDataForChart]. rewrite H. cbn [bind].
  destruct lv as [[l|] [v|]]; cbn in Hnone; try reflexivity.
  destruct Hnone; discriminate.
Qed.

(** X17.  The transform throws in two cases only: the first row is
    [null] or [undefined]; or both columns are chosen and a later row is
    [null] or [undefined].  A missing column in a row never makes it
    throw. *)
Theorem transform_throws_on_null_rows (firstRow : value) (rest : list value) :
  (exists e, transformDataForChart (JArr (firstRow :: rest)) = Throw e)
  <-> isNullish firstRow = true
      \/ (existsb isNullish rest = true
          /\ exists l v, chooseColumns firstRow = Return (Some l, Some v)).
Proof.
  destruct (isNullish firstRow) eqn:Hn.
  - split; [now left|]. intros _.
    destruct (chooseColumns_nullish firstRow Hn) as [e He].
    exists e. cbn [transformDataForChart]. now rewrite He.
  - destruct (chooseColumns_total firstRow Hn) as [[[l|] [v|]] Hc].
    2-4: split;
      [ intros [e He];
        rewrite (transform_not_chosen _ _ _ Hc) in He by (cbn; tauto);
        discriminate
      | intros [H | (_ & l' & v' & H)]; [discriminate | congruence] ].
    rewrite (transform_chosen _ _ _ _ Hc).
    destruct (existsb isNullish rest) eqn:Hrest.
    + split; [intros _; right; eauto|]. intros _.
      destruct (column_throws (firstRow :: rest) l) as [e ->];
        [cbn [existsb]; now rewrite Hn|].
      cbn [bind]. eauto.
    + split; [|intros [H | [H _]]; discriminate].
      destruct (column_returns (firstRow :: rest) l) as [xs ->];
        [cbn [existsb]; now rewrite Hn|].
      destruct (column_returns (firstRow :: rest) v) as [ys ->];
        [cbn [existsb]; now rewrite Hn|].
      cbn [bind]. intros [e He]. discriminate.
Qed.

(** X18.  Every chart the transform returns has the type [bar], one
    label per row, and exactly one dataset, with one value per row, a
    label that is not empty and the two fixed colours. *)
Theorem chart_has_one_entry_per_row (data : value) (c : chart) :
  transformDataForChart data = Return (Some c) ->
  exists rows d,
    data = JArr rows /\ rows <> [] /\
    type c = "bar" /\ List.length (labels c) = List.length rows /\
    datasets c = [d] /\ List.length (Transformer.data d) = List.length rows /\
    label d <> "" /\
    backgroundColor d = "rgba(75, 192, 192, 0.6)" /\
    borderColor d = "rgba(75, 192, 192, 1)".
Proof.
  destruct data as [ | | | | | | [|firstRow rest] | | ]; try discriminate.
  cbn [transformDataForChart].
  destruct (chooseColumns firstRow) as [[[l|] [v|]]|e]; try discriminate.
  cbn [bind].
  destruct (column (firstRow :: rest) l) as [xs|e] eqn:El; [|discriminate].
  destruct (column (firstRow :: rest) v) as [ys|e] eqn:Ev; [|discriminate].
  cbn [bind]. intros H. inversion H; subst c. clear H.
  eexists (firstRow :: rest), _. cbn [type labels datasets].
  split; [reflexivity|]. split; [discriminate|]. split; [reflexivity|].
  split; [exact (column_length _ _ _ El)|]. split; [reflexivity|].
  cbn [Transformer.data label backgroundColor borderColor].
  split; [exact (column_length _ _ _ Ev)|].
  split; [|split; reflexivity].
  destruct v; cbn; discriminate.
Qed.

Lemma chart_has_one_entry_per_row_witness :
  exists rows d,
    JArr [JObj [("customerName", JStr "Alice"); ("total", JNum 500)]]
    = JArr rows /\ rows <> [] /\
    type {| type := "bar";
            labels := [JStr "Alice"];
            datasets :=
              [ {| label := "total";
                   data := [JNum 500];
                   backgroundColor := "rgba(75, 192, 192, 0.6)";
                   borderColor := "rgba(75, 192, 192, 1)";
                   borderWidth := 1 |} ] |} = "bar" /\
    List.length
      (labels {| type := "bar";
                 labels := [JStr "Alice"];
                 datasets :=
                   [ {| label := "total";
                        data := [JNum 500];
                        backgroundColor := "rgba(75, 192, 192, 0.6)";
                        borderColor := "rgba(75, 192, 192, 1)";
                        borderWidth := 1 |} ] |}) = List.length rows /\
    datasets {| type := "bar";
                labels := [JStr "Alice"];
                datasets :=
                  [ {| label := "total";
                       data := [JNum 500];
                       backgroundColor := "rgba(75, 192, 192, 0.6)";
                       borderColor := "rgba(75, 192, 192, 1)";
                       borderWidth := 1 |} ] |} = [d] /\
    List.length (Transformer.data d) = List.length rows /\
    label d <> "" /\
    backgroundColor d = "rgba(75, 192, 192, 0.6)" /\
    borderColor d = "rgba(75, 192, 192, 1)".
Proof.
  apply (chart_has_one_entry_per_row
           (JArr [JObj [("customerName", JStr "Alice"); ("total", JNum 500)]])).
  reflexivity.
Defined.

Lemma fallback_two (k1 k2 : string) (more : list string)
      (lv : option string * option string) :
  exists l v, fallback (k1 :: k2 :: more) lv = (Some l, Some v).
Proof. destruct lv as [[l|] [v|]]; cbn; eauto. Qed.

Lemma transform_not_null (firstRow : value) (rest : list value)
      (l v : string) :
  chooseColumns firstRow = Return (Some l, Some v) ->
  transformDataForChart (JArr (firstRow :: rest)) <> Return None.
Proof.
  intros Hc. rewrite (transform_chosen _ _ _ _ Hc).
  destruct (column (firstRow :: rest) l); cbn [bind]; [|discriminate].
  destruct (column (firstRow :: rest) v); cbn [bind]; discriminate.
Qed.

(** X19.  For a first row that is a mapping, the transform returns null
    exactly when the row has no column, or a single column whose value is
    not a number: two columns are always enough, whatever their types. *)
Theorem null_chart_needs_fewer_than_two_columns
        (props : list (string * value)) (rest : list value) :
  transformDataForChart (JArr (JObj props :: rest)) = Return None
  <-> props = []
      \/ exists k v, props = [(k, v)] /\ typeof v <> "number".
Proof.
  destruct props as [|[k1 v1] [|[k2 v2] props]].
  - split; [now left | reflexivity].
  - assert (Hc : chooseColumns (JObj [(k1, v1)])
                 = Return (if String.eqb (typeof v1) "number"
                           then (Some k1, Some k1) else (Some k1, None))).
    { unfold chooseColumns.
      cbn [objectKeys ownProps map fst bind scanColumns getProp assoc].
      rewrite String.eqb_refl. cbn [bind]. now destruct v1. }
    destruct (String.eqb_spec (typeof v1) "number") as [Hty|Hty].
    + split.
      * intros H. now destruct (transform_not_null _ rest _ _ Hc).
      * intros [H | (k & v & H & Hv)]; [discriminate|].
        inversion H; subst. now destruct Hv.
    + split; [intros _; right; eauto|]. intros _.
      apply (transform_not_chosen _ _ _ Hc). now right.
  - split; [|intros [H | (k & v & H & _)]; discriminate].
    intros H. exfalso.
    destruct (scanColumns_total (JObj ((k1, v1) :: (k2, v2) :: props))
                (k1 :: k2 :: map fst props) None None eq_refl) as [lv Hs].
    destruct (fallback_two k1 k2 (map fst props) lv) as (l & v & Hf).
    apply (transform_not_null (JObj ((k1, v1) :: (k2, v2) :: props)) rest l v);
      [|exact H].
    unfold chooseColumns. cbn [objectKeys ownProps map fst bind].
    rewrite Hs. cbn [bind]. now rewrite Hf.
Qed.




End TransformerShape.

(** ** The rewriter: further statements *)

Module RewriterShape.
Import JsString Regex Rewriter Spec Direct Shapes.
Import StringFacts RegexFacts RewriterFacts IdempotenceFacts.

(** A rewrite, in terms of the texts it works on. *)
Lemma rewrite_shape (query : string) :
  modifySqlQueryForCharting query <> query ->
  exists before c after name spaces clause,
    selectClause query = Some c /\
    splitFirst c query = Some (before, after) /\
    In name aggregateNames /\ allChars isSpace spaces = true /\
    orderByClause query = Some clause /\
    Substring (name ++ spaces ++ "(") clause /\
    ~ Substring (name ++ spaces ++ "(") c /\
    modifySqlQueryForCharting query
    = before
        ++ getSubstitution c before after
             (c ++ ", " ++ (name ++ spaces ++ "(") ++ " AS " ++ name ++ "_value")
        ++ after.
Proof.
  pose proof (modify_cases query) as Hm. intros Hne.
  destruct (orderByClause query) as [clause|] eqn:Eo; [|congruence].
  destruct (exec aggregateRe clause) as [am|] eqn:Eam; [|congruence].
  destruct (selectClause query) as [c|] eqn:Ec; [|congruence].
  destruct (includes c (matched am)) eqn:Einc; [congruence|].
  unfold replace in Hm.
  destruct (splitFirst c query) as [[before after]|] eqn:Es; [|congruence].
  destruct (aggregate_info _ _ Eam) as (name & spaces & Hn & Hs & Hsub & Hmt & Hg).
  rewrite Hmt, Hg in Hm. rewrite Hmt in Einc.
  exists before, c, after, name, spaces, clause.
  split; [reflexivity|]. split; [exact Es|]. split; [exact Hn|].
  split; [exact Hs|]. split; [reflexivity|]. split; [exact Hsub|].
  split; [now apply includes_false | exact Hm].
Qed.

Lemma countChar_app (x : ascii) (a b : string) :
  countChar x (a ++ b) = countChar x a + countChar x b.
Proof.
  induction a as [|c a IH]; [reflexivity|]. cbn [append countChar].
  rewrite IH. lia.
Qed.

Lemma countChar_none (x : ascii) (s : string) :
  allChars (isNot x) s = true -> countChar x s = 0.
Proof.
  induction s as [|c s IH]; [reflexivity|]. cbn [allChars countChar].
  intros H. apply andb_prop in H as [Hc Hs]. unfold isNot in Hc.
  rewrite (IH Hs). now destruct (Ascii.eqb c x).
Qed.

(** The text of a rewrite when the projection list has no [$]. *)
Lemma rewrite_plain (query : string) :
  modifySqlQueryForCharting query <> query ->
  exists before c after name spaces,
    selectClause query = Some c /\
    splitFirst c query = Some (before, after) /\
    In name aggregateNames /\ allChars isSpace spaces = true /\
    (includes c "$" = false ->
     modifySqlQueryForCharting query
     = before ++ c ++ ", " ++ name ++ spaces ++ "( AS " ++ name ++ "_value"
         ++ after).
Proof.
  intros Hne.
  destruct (rewrite_shape query Hne)
    as (before & c & after & name & spaces & clause
        & Hc & Hsplit & Hn & Hs & _ & _ & _ & Hm).
  exists before, c, after, name, spaces. repeat split; auto.
  intros Hd. rewrite Hm, getSubstitution_plain.
  - now rewrite !app_assoc.
  - rewrite allChars_app, (no_dollar c Hd).
    exact (proj2 (appended_text name spaces Hn Hs)).
Qed.

(** X21.  Whenever the rewriter changes a statement, the lower-case
    projection list occurs in the statement as written, and the result is
    the statement with [, name( AS name_value] put after the first such
    occurrence, [name] being one of the five aggregate names and white
    space allowed before the parenthesis (the projection list having no
    [$]): text is only inserted, and what is inserted is in the letter
    case of the lower-cased statement. *)
Theorem rewrite_inserts_after_the_projection (query : string) :
  modifySqlQueryForCharting query <> query ->
  exists before c after name spaces,
    selectClause query = Some c /\
    splitFirst c query = Some (before, after) /\
    In name aggregateNames /\ allChars isSpace spaces = true /\
    (includes c "$" = false ->
     modifySqlQueryForCharting query
     = before ++ c ++ ", " ++ name ++ spaces ++ "( AS " ++ name ++ "_value"
         ++ after).
Proof. exact (rewrite_plain query). Qed.

Lemma rewrite_inserts_after_the_projection_witness :
  exists before c after name spaces,
    selectClause "select name from t order by sum(x) desc" = Some c /\
    splitFirst c "select name from t order by sum(x) desc"
    = Some (before, after) /\
    In name aggregateNames /\ allChars isSpace spaces = true /\
    (includes c "$" = false ->
     modifySqlQueryForCharting "select name from t order by sum(x) desc"
     = before ++ c ++ ", " ++ name ++ spaces ++ "( AS " ++ name ++ "_value"
         ++ after).
Proof.
  apply (rewrite_inserts_after_the_projection
           "select name from t order by sum(x) desc").
  intros H. vm_compute in H. discriminate H.
Defined.

(** X22.  A rewrite adds one opening parenthesis and no closing one: a
    statement with balanced parentheses, once changed, is no longer
    balanced. *)
Theorem rewrite_adds_an_open_parenthesis (query : string) :
  modifySqlQueryForCharting query <> query ->
  (forall c, selectClause query = Some c -> includes c "$" = false) ->
  countChar "(" (modifySqlQueryForCharting query) = S (countChar "(" query)
  /\ countChar ")" (modifySqlQueryForCharting query) = countChar ")" query.
Proof.
  intros Hne Hd.
  destruct (rewrite_plain query Hne)
    as (before & c & after & name & spaces & Hc & Hsplit & Hn & Hs & Hm).
  rewrite (Hm (Hd c Hc)). apply splitFirst_Some in Hsplit.
  rewrite Hsplit at 1 2. rewrite !countChar_app.
  assert (Hsp : forall z, isSpace z = false -> countChar z spaces = 0).
  { intros z Hz. apply countChar_none.
    exact (allChars_impl _ _ _ (fun x => space_is_not z x Hz) Hs). }
  rewrite !Hsp by reflexivity.
  cbn in Hn. repeat destruct Hn as [<-|Hn]; try destruct Hn; cbn; lia.
Qed.

Lemma rewrite_adds_an_open_parenthesis_witness :
  countChar "("
    (modifySqlQueryForCharting "select name from t order by sum(x) desc")
  = S (countChar "(" "select name from t order by sum(x) desc")
  /\ countChar ")"
       (modifySqlQueryForCharting "select name from t order by sum(x) desc")
     = countChar ")" "select name from t order by sum(x) desc".
Proof.
  apply (rewrite_adds_an_open_parenthesis
           "select name from t order by sum(x) desc").
  - intros H. vm_compute in H. discriminate H.
  - intros c H. vm_compute in H. inversion H. reflexivity.
Defined.

Lemma select_needs_keywords (s : string) (m : matchResult) :
  exec selectRe s = Some m -> Substring "select" s /\ Substring "from" s.
Proof.
  intros H. apply exec_Some in H as (l & t & -> & H).
  unfold matchAt, selectRe, Plus in H. cbn [run] in H.
  destruct (dropPrefix "select" t) as [[|w t2]|] eqn:E; try discriminate.
  apply dropPrefix_Some in E. subst t.
  destruct (isSpace w); [|discriminate].
  apply starGreedy_Some in H as (r1 & t3 & -> & _ & H).
  apply starLazy_Some in H as (r2 & t4 & -> & _ & H).
  destruct t4 as [|w' t5]; [discriminate|].
  destruct (isSpace w'); [|discriminate].
  apply starGreedy_Some in H as (r3 & t6 & -> & _ & H).
  destruct (dropPrefix "from" t6) as [t7|] eqn:E6; [|discriminate].
  apply dropPrefix_Some in E6. subst t6. split.
  - now exists l, (String w (r1 ++ r2 ++ String w' (r3 ++ "from" ++ t7))).
  - exists (l ++ "select" ++ String w (r1 ++ r2 ++ String w' r3)), t7.
    repeat (rewrite ?app_assoc; cbn [append]; f_equal).
Qed.

(** X23.  Statements the rewriter never touches, besides those without
    an aggregate in the ordering: a statement without [select] or without
    [from] in any letter case, and a statement in which the lower-case
    form of the projection list does not occur as written, which is the
    case of a projection list with a capital letter that is not repeated
    in lower case elsewhere. *)
Theorem statements_left_alone (query : string) :
  (~ Substring "select" (toLowerCase query)
   \/ ~ Substring "from" (toLowerCase query)
   \/ (forall c, selectClause query = Some c -> ~ Substring c query)) ->
  modifySqlQueryForCharting query = query.
Proof.
  intros H. rewrite modify_cases.
  destruct (orderByClause query) as [clause|]; [|reflexivity].
  destruct (exec aggregateRe clause) as [am|]; [|reflexivity].
  destruct (selectClause query) as [c|] eqn:Ec; [|reflexivity].
  destruct (includes c (matched am)); [reflexivity|].
  assert (Hc : ~ Substring c query).
  { destruct H as [H | [H | H]]; [| |now apply H];
      exfalso; apply H; unfold selectClause in Ec;
      apply firstGroup_Some in Ec as (m & Hm & _);
      now apply select_needs_keywords in Hm. }
  unfold replace. destruct (splitFirst c query) as [[b a]|] eqn:E;
    [|reflexivity].
  destruct Hc. exists b, a. now apply splitFirst_Some.
Qed.

Lemma statements_left_alone_witness :
  modifySqlQueryForCharting
    "SELECT customerName FROM payments ORDER BY SUM(amount) DESC"
  = "SELECT customerName FROM payments ORDER BY SUM(amount) DESC".
Proof.
  apply (statements_left_alone
           "SELECT customerName FROM payments ORDER BY SUM(amount) DESC").
  right. right. intros c H. vm_compute in H. inversion H; subst c.
  apply includes_false. vm_compute. reflexivity.
Defined.

(** The lazy group: at no earlier place would the rest of the pattern
    have matched. *)
Lemma starLazy_first {R} (f : ascii -> bool) (s : string)
      (k : string -> option R) (r : R) :
  starLazy f s k = Some r ->
  exists run rest,
    s = run ++ rest /\ allChars f run = true /\ k rest = Some r /\
    forall r1 x r2, run = r1 ++ String x r2 -> k (String x r2 ++ rest) = None.
Proof.
  induction s as [|c s IH]; cbn [starLazy]; intros H.
  - exists "", "". repeat split; auto. intros [|? ?] ? ? E; discriminate E.
  - destruct (f c) eqn:Ec.
    + apply orElse_Some in H as [H | [Hnone H]].
      * exists "", (String c s). repeat split; auto.
        intros [|? ?] ? ? E; discriminate E.
      * destruct (IH H) as (run & rest & -> & Hrun & Hk & Hfirst).
        exists (String c run), rest. cbn [append allChars].
        rewrite Ec, Hrun. repeat split; auto.
        intros [|y r1] x r2 E; cbn [append] in E; inversion E; subst.
        -- exact Hnone.
        -- exact (Hfirst r1 x r2 eq_refl).
    + exists "", (String c s). repeat split; auto.
      intros [|? ?] ? ? E; discriminate E.
Qed.

Lemma orderBy_group_stops (t : string) (m : matchResult) (g : string) :
  matchAt orderByRe t = Some m -> group 1 m = Some g ->
  forall lit, lit = "asc" \/ lit = "desc" -> ~ Substring lit g.
Proof.
  unfold matchAt, orderByRe, Plus. cbn [run].
  destruct (dropPrefix "order by" t) as [[|w t2]|]; try discriminate.
  destruct (isSpace w); [|discriminate].
  intros H. apply starGreedy_Some in H as (r1 & t3 & _ & _ & H).
  apply starLazy_first in H as (r2 & t4 & -> & Hr2 & H & Hfirst).
  assert (Hg : group 1 m = Some r2).
  { repeat match type of H with
    | orElse _ _ = Some _ => apply orElse_Some in H as [H | [_ H]]
    end;
    match type of H with
    | match ?x with _ => _ end = _ => destruct x; try discriminate
    end; inversion H; unfold group; cbn; now rewrite consumed_app. }
  rewrite Hg. intros E. injection E as <-. intros lit Hlit (l & r & Hsub).
  assert (Hhere : exists x rest, lit ++ r = String x rest
                                 /\ dropPrefix lit (String x rest ++ t4)
                                    = Some (r ++ t4)).
  { destruct Hlit as [-> | ->]; eexists _, _;
      (split; [reflexivity|]);
      change (dropPrefix ?p (String ?x ?rest ++ t4))
        with (dropPrefix p (String x (rest ++ t4)));
      cbn [append]; repeat rewrite dropPrefix_cons, Ascii.eqb_refl;
      reflexivity. }
  destruct Hhere as (x & rest & Ex & Hd).
  rewrite Ex in Hsub. specialize (Hfirst l x rest Hsub).
  destruct Hlit as [-> | ->]; cbn [orElse] in Hfirst;
    rewrite Hd in Hfirst; cbn [orElse] in Hfirst.
  - discriminate Hfirst.
  - destruct (dropPrefix "asc" (String x rest ++ t4)); discriminate Hfirst.
Qed.

Lemma trim_Substring (p s : string) :
  Substring p (trim s) -> Substring p s.
Proof.
  intros H. destruct (CleanerFacts.trim_split s) as (l & r & E & _).
  rewrite E. now apply CleanerFacts.Substring_app.
Qed.

(** X24.  The ordering expression the rewriter looks at is cut at the
    first [asc] or [desc], keyword or part of a name: it contains
    neither, nor a line break. *)
Theorem ordering_expression_is_cut (query clause : string) :
  orderByClause query = Some clause ->
  ~ Substring "asc" clause /\ ~ Substring "desc" clause
  /\ allChars isDot clause = true.
Proof.
  intros H. pose proof (orderByClause_dots _ _ H) as Hdots.
  unfold orderByClause in H.
  destruct (firstGroup (exec orderByRe (toLowerCase query))) as [g|] eqn:E;
    [|discriminate].
  inversion H; subst clause. clear H.
  apply firstGroup_Some in E as (m & Hexec & Hg & _).
  apply exec_Some in Hexec as (l & t & _ & Hm).
  pose proof (orderBy_group_stops _ _ _ Hm Hg) as Hstop.
  repeat split; [| |exact Hdots]; intros Hsub; apply trim_Substring in Hsub.
  - now apply (Hstop "asc"); [left|].
  - now apply (Hstop "desc"); [right|].
Qed.

Lemma ordering_expression_is_cut_witness :
  ~ Substring "asc" "cust, sum(x)" /\ ~ Substring "desc" "cust, sum(x)"
  /\ allChars isDot "cust, sum(x)" = true.
Proof.
  apply (ordering_expression_is_cut
           "SELECT cust FROM t ORDER BY cust, SUM(x) DESC" "cust, sum(x)").
  reflexivity.
Defined.

End RewriterShape.

(** ** The request handler: further statements *)

Module HandlerFacts.
Import JsString Js Rewriter Normalizer Transformer Pipeline Spec Shapes.
Import StringFacts NormalizerShape.

(** The body of the handler's [try], outcome by outcome. *)
Lemma processQuery_cases (w : world) (userQuery : value) :
  processQuery w userQuery
  = match fetchSchema w with
    | Throw e => ([SchemaFetch], Throw e)
    | Return dbSchemaObj =>
        let sqlPrompt := SqlPrompt userQuery (dbSchemaText dbSchemaObj) in
        match generateContent w sqlPrompt with
        | Throw _ =>
            ([SchemaFetch; ModelCall sqlPrompt],
             Throw (Error "Failed to generate SQL query."))
        | Return text =>
            let sqlQuery := modifySqlQueryForCharting (cleanSql text) in
            match queryRawUnsafe w sqlQuery with
            | Throw e =>
                ([SchemaFetch; ModelCall sqlPrompt; Execute sqlQuery], Throw e)
            | Return raw =>
                let result := convertBigIntToString raw in
                if hasBigInt result then
                  ([SchemaFetch; ModelCall sqlPrompt; Execute sqlQuery],
                   Throw (typeError "Do not know how to serialize a BigInt"))
                else
                  let explanationPrompt :=
                    ExplanationPrompt userQuery sqlQuery result in
                  match generateContent w explanationPrompt with
                  | Throw e =>
                      ([SchemaFetch; ModelCall sqlPrompt; Execute sqlQuery;
                        ModelCall explanationPrompt], Throw e)
                  | Return explanationText =>
                      ([SchemaFetch; ModelCall sqlPrompt; Execute sqlQuery;
                        ModelCall explanationPrompt]
                         ++ fst (decideChart w userQuery),
                       bind (snd (decideChart w userQuery))
                         (fun generateChart =>
                            Return
                              (JObj [("query", JStr sqlQuery);
                                     ("result", result);
                                     ("summary", JStr (trim explanationText));
                                     ("chart",
                                      chartValue
                                        (chartStep generateChart result))])))%list
                  end
            end
        end
    end.
Proof.
  unfold processQuery, getSqlQueryFromGemini, jsonStringifiable, call, lift.
  destruct (fetchSchema w) as [sch|e]; cbn [bindM]; [|reflexivity].
  destruct (generateContent w (SqlPrompt userQuery (dbSchemaText sch)))
    as [text|e]; cbn [bindM tryCatch ret throw app]; [|reflexivity].
  destruct (queryRawUnsafe w (modifySqlQueryForCharting (cleanSql text)))
    as [raw|e]; cbn [bindM app]; [|reflexivity].
  destruct (hasBigInt (convertBigIntToString raw)); cbn [bindM app];
    [reflexivity|].
  destruct (generateContent w
              (ExplanationPrompt userQuery
                 (modifySqlQueryForCharting (cleanSql text))
                 (convertBigIntToString raw))) as [explanationText|e];
    cbn [bindM app]; [|reflexivity].
  destruct (decideChart w userQuery) as [t [g|e]];
    cbn [bindM ret fst snd bind app]; [|reflexivity].
  now rewrite List.app_nil_r.
Qed.

(** The chart decision, outcome by outcome. *)
Lemma decideChart_cases (w : world) (userQuery : value) :
  decideChart w userQuery
  = match userQuery with
    | JStr question =>
        if existsb (fun keyword => includes (toLowerCase question) keyword)
             chartKeywords
        then ([], Return true)
        else ([ModelCall (ChartPrompt userQuery)],
              Return match generateContent w (ChartPrompt userQuery) with
                     | Return text => isYes text
                     | Throw _ => false
                     end)
    | _ => ([], Throw (typeError "userQuery.toLowerCase is not a function"))
    end.
Proof.
  destruct userQuery; try reflexivity.
  unfold decideChart, shouldGenerateChart, call, lift.
  change (containsChartKeyword (JStr s))
    with (Return (existsb (fun keyword => includes (toLowerCase s) keyword)
                    chartKeywords)).
  cbn [bindM].
  destruct (existsb (fun keyword => includes (toLowerCase s) keyword)
              chartKeywords); [reflexivity|].
  now destruct (generateContent w (ChartPrompt (JStr s))).
Qed.

Lemma decideChart_trace (w : world) (userQuery : value) :
  fst (decideChart w userQuery) = []
  \/ fst (decideChart w userQuery) = [ModelCall (ChartPrompt userQuery)].
Proof.
  rewrite decideChart_cases. destruct userQuery; auto.
  destruct (existsb _ chartKeywords); auto.
Qed.

(** X25.  Whatever the outcomes, the calls a request makes are an initial
    segment of the five stages in their order: schema fetch, statement
    generation, execution, summary, chart question.  No stage is repeated
    or taken out of turn, and at most one statement is sent to the
    database. *)
Theorem calls_follow_the_stage_order (w : world)
        (reqBody : list (string * value)) :
  exists dbSchema sqlQuery result,
    isPrefixOf (fst (postQuery w reqBody))
      (stages (match assoc "query" reqBody with
               | Some v => v
               | None => JUndefined
               end) dbSchema sqlQuery result)
    /\ List.length (executions (fst (postQuery w reqBody))) <= 1.
Proof.
  unfold postQuery.
  set (userQuery := match assoc "query" reqBody with
                    | Some v => v
                    | None => JUndefined
                    end).
  destruct (truthy userQuery); cbn [negb];
    [|exists "", "", JNull; cbn; repeat split; auto].
  rewrite processQuery_cases.
  destruct (fetchSchema w) as [sch|e];
    [|exists "", "", JNull; cbn; repeat split; auto].
  cbn zeta.
  destruct (generateContent w (SqlPrompt userQuery (dbSchemaText sch)))
    as [text|e];
    [|exists (dbSchemaText sch), "", JNull; cbn; repeat split; auto].
  exists (dbSchemaText sch), (modifySqlQueryForCharting (cleanSql text)).
  destruct (queryRawUnsafe w (modifySqlQueryForCharting (cleanSql text)))
    as [raw|e]; [|exists JNull; cbn; repeat split; auto].
  exists (convertBigIntToString raw).
  destruct (hasBigInt (convertBigIntToString raw)); [cbn; repeat split; auto|].
  destruct (generateContent w
              (ExplanationPrompt userQuery
                 (modifySqlQueryForCharting (cleanSql text))
                 (convertBigIntToString raw))) as [explanationText|e];
    [|cbn; repeat split; auto].
  destruct (decideChart_trace w userQuery) as [Ht | Ht].
  - destruct (decideChart w userQuery) as [tc [g|e]]; cbn [fst snd] in *;
      subst tc; cbn; repeat split; auto.
  - destruct (decideChart w userQuery) as [tc [g|e]]; cbn [fst snd] in *;
      subst tc; cbn; repeat split; auto.
Qed.

(** X26.  A response with status 200 reports what was run: the question
    was a non-empty string, every mandatory stage returned, the [query]
    field is the one statement that was sent to the database, [result]
    holds the converted rows (no BigInt is left in them), [summary] is
    the trimmed text of the model, and [chart] is the outcome of the
    chart step for the decision that was taken. *)
Theorem success_reports_what_was_run (w : world)
        (reqBody : list (string * value)) (t : list event) (r : response) :
  postQuery w reqBody = (t, r) -> status r = 200 ->
  exists question sqlQuery result explanationText tc generateChart,
    assoc "query" reqBody = Some (JStr question) /\ question <> "" /\
    MandatoryStages w (JStr question) sqlQuery result explanationText /\
    decideChart w (JStr question) = (tc, Return generateChart) /\
    body r = JObj [("query", JStr sqlQuery);
                   ("result", result);
                   ("summary", JStr (trim explanationText));
                   ("chart", chartValue (chartStep generateChart result))] /\
    executions t = [sqlQuery].
Proof.
  unfold postQuery.
  destruct (assoc "query" reqBody) as [userQuery|];
    [|intros H; inversion H; subst; discriminate].
  destruct (truthy userQuery) eqn:Ht; cbn [negb];
    [|intros H; inversion H; subst; discriminate].
  rewrite processQuery_cases.
  destruct (fetchSchema w) as [sch|e] eqn:Es;
    [|intros H; inversion H; subst; discriminate].
  cbn zeta.
  destruct (generateContent w (SqlPrompt userQuery (dbSchemaText sch)))
    as [text|e] eqn:Eg;
    [|intros H; inversion H; subst; discriminate].
  destruct (queryRawUnsafe w (modifySqlQueryForCharting (cleanSql text)))
    as [raw|e] eqn:Eq;
    [|intros H; inversion H; subst; discriminate].
  destruct (hasBigInt (convertBigIntToString raw)) eqn:Eb;
    [intros H; inversion H; subst; discriminate|].
  destruct (generateContent w
              (ExplanationPrompt userQuery
                 (modifySqlQueryForCharting (cleanSql text))
                 (convertBigIntToString raw))) as [explanationText|e] eqn:Ex;
    [|intros H; inversion H; subst; discriminate].
  pose proof (decideChart_cases w userQuery) as Hd.
  destruct userQuery as [ | | | | | question | | | ];
    try (rewrite Hd; cbn [fst snd bind]; intros H; inversion H; subst;
         discriminate).
  destruct (decideChart w (JStr question)) as [tc [g|e]] eqn:Ed;
    cbn [fst snd bind];
    [|intros H; inversion H; subst; discriminate].
  intros H _. inversion H; subst t r. clear H.
  exists question, (modifySqlQueryForCharting (cleanSql text)),
         (convertBigIntToString raw), explanationText, tc, g.
  split; [reflexivity|]. split; [now destruct question|].
  split; [exists sch, text, raw; repeat split; assumption|].
  split; [exact Ed|]. split; [reflexivity|].
  assert (Htc : tc = [] \/ tc = [ModelCall (ChartPrompt (JStr question))]).
  { pose proof (decideChart_trace w (JStr question)) as Htr.
    now rewrite Ed in Htr. }
  destruct Htc as [-> | ->]; reflexivity.
Qed.

Lemma success_reports_what_was_run_witness :
  exists question sqlQuery result explanationText tc generateChart,
    assoc "query" [("query", JStr "plot total sales by customer")]
    = Some (JStr question) /\ question <> "" /\
    MandatoryStages Scenarios.modelSaysYes (JStr question) sqlQuery result
      explanationText /\
    decideChart Scenarios.modelSaysYes (JStr question)
    = (tc, Return generateChart) /\
    body (snd (postQuery Scenarios.modelSaysYes
                 [("query", JStr "plot total sales by customer")]))
    = JObj [("query", JStr sqlQuery);
            ("result", result);
            ("summary", JStr (trim explanationText));
            ("chart", chartValue (chartStep generateChart result))] /\
    executions (fst (postQuery Scenarios.modelSaysYes
                       [("query", JStr "plot total sales by customer")]))
    = [sqlQuery].
Proof.
  apply (success_reports_what_was_run Scenarios.modelSaysYes
           [("query", JStr "plot total sales by customer")]).
  - apply surjective_pairing.
  - reflexivity.
Defined.





Lemma transform_Some_rows (data : value) (c : chart) :
  transformDataForChart data = Return (Some c) ->
  exists firstRow rest, data = JArr (firstRow :: rest).
Proof.
  destruct data as [ | | | | | | [|firstRow rest] | | ]; try discriminate.
  eauto.
Qed.

Lemma chartStep_Some (generateChart : bool) (result : value) :
  chartValue (chartStep generateChart result) <> JNull ->
  generateChart = true
  /\ exists firstRow rest, result = JArr (firstRow :: rest).
Proof.
  unfold chartStep. destruct generateChart; [|now intros H].
  destruct (transformDataForChart result) as [[c|]|e] eqn:E;
    try (now intros H).
  intros _. split; [reflexivity|]. exact (transform_Some_rows _ _ E).
Qed.

(** X29.  A chart is sent only when it was asked for or approved, and
    only for rows: in a response with status 200 whose [chart] is not
    null, [result] is a non-empty array, and either the question contains
    one of the four keywords or the model answered the chart question
    with a yes. *)
Theorem chart_only_when_decided (w : world)
        (reqBody : list (string * value)) (t : list event) (r : response) :
  postQuery w reqBody = (t, r) -> status r = 200 ->
  field "chart" (body r) <> Some JNull ->
  exists question firstRow rest,
    assoc "query" reqBody = Some (JStr question) /\
    field "result" (body r) = Some (JArr (firstRow :: rest)) /\
    ((exists keyword,
         In keyword chartKeywords /\
         Substring keyword (toLowerCase question))
     \/ exists text,
          generateContent w (ChartPrompt (JStr question)) = Return text /\
          toLowerCase (trim text) = "yes").
Proof.
  unfold postQuery.
  destruct (assoc "query" reqBody) as [userQuery|];
    [|intros H; inversion H; subst; discriminate].
  destruct (truthy userQuery) eqn:Ht; cbn [negb];
    [|intros H; inversion H; subst; discriminate].
  rewrite processQuery_cases.
  destruct (fetchSchema w) as [sch|e];
    [|intros H; inversion H; subst; discriminate].
  cbn zeta.
  destruct (generateContent w (SqlPrompt userQuery (dbSchemaText sch)))
    as [text|e];
    [|intros H; inversion H; subst; discriminate].
  destruct (queryRawUnsafe w (modifySqlQueryForCharting (cleanSql text)))
    as [raw|e];
    [|intros H; inversion H; subst; discriminate].
  destruct (hasBigInt (convertBigIntToString raw));
    [intros H; inversion H; subst; discriminate|].
  destruct (generateContent w (ExplanationPrompt userQuery _ _))
    as [explanationText|e];
    [|intros H; inversion H; subst; discriminate].
  pose proof (decideChart_cases w userQuery) as Hd.
  destruct userQuery as [ | | | | | question | | | ];
    try (rewrite Hd; cbn [fst snd bind]; intros H; inversion H; subst;
         discriminate).
  destruct (decideChart w (JStr question)) as [tc [g|e]] eqn:Ed;
    cbn [fst snd bind];
    [|intros H; inversion H; subst; discriminate].
  intros H _. inversion H; subst t r. clear H.
  unfold field. cbn [body ownProps assoc String.eqb Ascii.eqb Bool.eqb].
  intros Hc.
  destruct (chartStep_Some g (convertBigIntToString raw)) as [-> Hrows];
    [intros E; apply Hc; now rewrite E|].
  destruct Hrows as (firstRow & rest & Hrows).
  exists question, firstRow, rest.
  split; [reflexivity|]. split; [now rewrite Hrows|].
  destruct (existsb (fun keyword => includes (toLowerCase question) keyword)
              chartKeywords) eqn:Ek.
  - left. apply PipelineFacts.keyword_found.
    change (containsChartKeyword (JStr question))
      with (Return (existsb (fun keyword =>
                               includes (toLowerCase question) keyword)
                      chartKeywords)).
    now rewrite Ek.
  - right. inversion Hd as [[Htc Hg]].
    destruct (generateContent w (ChartPrompt (JStr question))) as [answer|e];
      [|discriminate].
    exists answer. split; [reflexivity|].
    unfold isYes in Hg. rewrite DecisionFacts.yes_bool in Hg.
    now apply String.eqb_eq.
Qed.

Lemma chart_only_when_decided_witness :
  exists question firstRow rest,
    assoc "query" [("query", JStr "show me total sales by customer")]
    = Some (JStr question) /\
    field "result"
      (body (snd (postQuery Scenarios.modelSaysYes
                    [("query", JStr "show me total sales by customer")])))
    = Some (JArr (firstRow :: rest)) /\
    ((exists keyword,
         In keyword chartKeywords /\
         Substring keyword (toLowerCase question))
     \/ exists text,
          generateContent Scenarios.modelSaysYes (ChartPrompt (JStr question))
          = Return text /\
          toLowerCase (trim text) = "yes").
Proof.
  apply (chart_only_when_decided Scenarios.modelSaysYes
           [("query", JStr "show me total sales by customer")]
           (fst (postQuery Scenarios.modelSaysYes
                   [("query", JStr "show me total sales by customer")]))).
  - apply surjective_pairing.
  - reflexivity.
  - vm_compute. discriminate.
Defined.




End HandlerFacts.
